(** * Inbox CRM cockpit: the per-email AI workspace cache and generation lifecycle

    A shallow embedding of the core of [client/src/ai/AiPanel.tsx]
    (identity resolver, time-boxed stores, recipient rows, generation
    lifecycle with the history and persist effects that follow a run,
    automatic summary, marker-block insertion, the insert
    button with its signature, the text helpers, the body trimmers and the
    language detection), of the summary card and the context loader of
    [client/src/ui/App.tsx] and of [normalizeRecipients] of
    [client/src/office.ts], together with the properties stated about
    them.

    Conventions of the embedding:
    - a JavaScript string is the list of its UTF-16 code units, each a [Z];
    - a property that may be [undefined] is an [option];
    - [Date.now()] is an explicit argument [now]; all clock reads of one
      synchronous function body see the same millisecond;
    - a [localStorage] entry holds the JSON value it was written with; a
      text that [JSON.parse] rejects is the constructor [Corrupt];
    - builtins of the JavaScript runtime that the code calls but does not
      define ([String.prototype.toLowerCase], the regular-expression engine
      behind [extractEmailsFromText], the DOM walk of [sanitizeAiHtml]) are
      [Variable]s of the section that uses them. *)

From Stdlib Require Import ZArith List Bool Lia String Ascii.
From stdpp Require Import base decidable option list gmap.

Import ListNotations.
Local Open Scope Z_scope.

(** ** JavaScript strings *)

Abbreviation jsstring := (list Z).

(** A string literal of the source, as code units. *)
Definition js (s : string) : jsstring :=
  map (fun a => Z.of_N (N_of_ascii a)) (list_ascii_of_string s).

(** [WhiteSpace] and [LineTerminator] of ECMAScript: the class [\s] of a
    regular expression and what [trim] strips. *)
Definition isWhiteSpace (c : Z) : bool :=
  (c =? 9) || (c =? 10) || (c =? 11) || (c =? 12) || (c =? 13) || (c =? 32)
  || (c =? 160) || (c =? 5760) || ((8192 <=? c) && (c <=? 8202))
  || (c =? 8232) || (c =? 8233) || (c =? 8239) || (c =? 8287)
  || (c =? 12288) || (c =? 65279).

Fixpoint dropWhile (p : Z -> bool) (s : jsstring) : jsstring :=
  match s with
  | [] => []
  | c :: s' => if p c then dropWhile p s' else s
  end.

Definition dropWhileEnd (p : Z -> bool) (s : jsstring) : jsstring :=
  rev (dropWhile p (rev s)).

(** [s.trim()] *)
Definition trim (s : jsstring) : jsstring :=
  dropWhileEnd isWhiteSpace (dropWhile isWhiteSpace s).

(** [s.replace(/\s+/g, " ")]: every maximal run of white space becomes one
    space; [inrun] says that the previous code unit was white space. *)
Fixpoint collapseWsFrom (inrun : bool) (s : jsstring) : jsstring :=
  match s with
  | [] => []
  | c :: s' =>
      if isWhiteSpace c
      then (if inrun then collapseWsFrom true s' else 32 :: collapseWsFrom true s')
      else c :: collapseWsFrom false s'
  end.

Definition collapseWs (s : jsstring) : jsstring := collapseWsFrom false s.

(** [parts.join(sep)] *)
Fixpoint join (sep : jsstring) (parts : list jsstring) : jsstring :=
  match parts with
  | [] => []
  | [p] => p
  | p :: rest => p ++ sep ++ join sep rest
  end.

(** Truthiness of a string: [""] is falsy. *)
Definition truthy (s : jsstring) : bool :=
  match s with [] => false | _ :: _ => true end.

(** [String(v || "")] for a property that is a string or [undefined]. *)
Definition strOrEmpty (v : option jsstring) : jsstring := default [] v.

(** [a || b] on two such properties. *)
Definition orElse (a b : option jsstring) : option jsstring :=
  match a with
  | Some s => if truthy s then a else b
  | None => b
  end.

(** ASCII case folding, the behaviour of [toLowerCase] on Basic Latin; used
    where a concrete runtime is needed to evaluate an example. *)
Definition asciiLower (s : jsstring) : jsstring :=
  map (fun c => if (65 <=? c) && (c <=? 90) then c + 32 else c) s.

(** ** 32-bit integer operations of JavaScript *)

Definition ToUint32 (x : Z) : Z := x mod 2 ^ 32.

Definition ToInt32 (x : Z) : Z :=
  let m := x mod 2 ^ 32 in if m <? 2 ^ 31 then m else m - 2 ^ 32.

(** [x ^ y] *)
Definition xor32 (x y : Z) : Z := ToInt32 (Z.lxor (ToInt32 x) (ToInt32 y)).

(** [x << k] *)
Definition shl32 (x k : Z) : Z := ToInt32 (Z.shiftl (ToInt32 x) k).

Definition hexDigit (d : Z) : Z := if d <? 10 then 48 + d else 87 + d.

Fixpoint toHexFrom (digits : nat) (n : Z) (acc : jsstring) : jsstring :=
  match digits with
  | O => acc
  | S k =>
      let acc' := hexDigit (n mod 16) :: acc in
      if n / 16 =? 0 then acc' else toHexFrom k (n / 16) acc'
  end.

(** [n.toString(16)] for an unsigned 32-bit [n]: at most eight digits, no
    leading zero. *)
Definition toString16 (n : Z) : jsstring := toHexFrom 8 n [].

(** ** Identity resolver *)

Module Identity.

(** The properties [makeEmailKey] reads from its argument, which it treats
    as [any]. *)
Record AnyCtx := {
  a_conversationId : option jsstring;
  a_internetMessageId : option jsstring;
  a_itemId : option jsstring;
  a_id : option jsstring;
  a_subject : option jsstring;
  a_fromEmail : option jsstring;
  a_from : option jsstring;
  a_toEmail : option jsstring;
}.

Record Recipient := { rc_name : jsstring; rc_email : jsstring }.

(** [OutlookMessageContext] of [office.ts]: the type of the value the host
    layer hands to the panel. *)
Record OutlookMessageContext := {
  subject : option jsstring;
  fromEmail : option jsstring;
  fromName : option jsstring;
  internetMessageId : option jsstring;
  conversationId : option jsstring;
  itemId : option jsstring;
  receivedDateTimeIso : option jsstring;
  toRecipients : option (list Recipient);
  ccRecipients : option (list Recipient);
}.

(** [ctx as any]: a property the type does not declare reads [undefined]. *)
Definition asAny (c : OutlookMessageContext) : AnyCtx :=
  {| a_conversationId := conversationId c;
     a_internetMessageId := internetMessageId c;
     a_itemId := itemId c;
     a_id := None;
     a_subject := subject c;
     a_fromEmail := fromEmail c;
     a_from := None;
     a_toEmail := None |}.

Definition normStr (v : option jsstring) : jsstring := trim (strOrEmpty v).

(** One round of the loop of [fnv1a]: [h ^= c] then
    [h += (h << 1) + (h << 4) + (h << 7) + (h << 8) + (h << 24)].  The sum is
    a sum of doubles below 2^53 in magnitude, hence exact. *)
Definition fnv1a_round (h c : Z) : Z :=
  let h1 := xor32 h c in
  h1 + (shl32 h1 1 + shl32 h1 4 + shl32 h1 7 + shl32 h1 8 + shl32 h1 24).

Definition fnv1a_loop (str : jsstring) : Z := fold_left fnv1a_round str 2166136261.

Definition fnv1a (str : jsstring) : jsstring := toString16 (ToUint32 (fnv1a_loop str)).

(** The specification's digest: 32-bit FNV-1a, offset basis 0x811C9DC5,
    multiplication by the FNV prime 0x01000193 modulo 2^32. *)
Definition FNV_OFFSET_BASIS : Z := 0x811C9DC5.
Definition FNV_PRIME : Z := 0x01000193.

Definition fnv1a32_spec (data : jsstring) : Z :=
  fold_left (fun h c => (Z.lxor h c * FNV_PRIME) mod 2 ^ 32) data FNV_OFFSET_BASIS.

Section Resolver.

Variable toLowerCase : jsstring -> jsstring.

Definition normEmail (v : option jsstring) : jsstring := toLowerCase (normStr v).

Definition makeEmailKey (ctx : AnyCtx) : jsstring :=
  let cid := normStr (a_conversationId ctx) in
  let imid := normStr (a_internetMessageId ctx) in
  let itemId := normStr (orElse (a_itemId ctx) (a_id ctx)) in
  if truthy cid && truthy imid then cid ++ js "::" ++ imid
  else if truthy cid && truthy itemId then cid ++ js "::" ++ itemId
  else
    let subject := toLowerCase (collapseWs (normStr (a_subject ctx))) in
    let from := normEmail (orElse (a_fromEmail ctx) (a_from ctx)) in
    let to := normEmail (orElse (a_toEmail ctx) (Some [])) in
    js "nocid::h" ++ fnv1a (join (js "|") [subject; from; to]).

(** The resolver as the specification words it. An identifier is present
    when it is not blank; identifiers are used trimmed. *)
Definition present (v : option jsstring) : bool := truthy (trim (strOrEmpty v)).

Definition fallback_tuple_spec (ctx : AnyCtx) : list jsstring :=
  [ toLowerCase (collapseWs (trim (strOrEmpty (a_subject ctx))));
    toLowerCase (trim (strOrEmpty (orElse (a_fromEmail ctx) (a_from ctx))));
    toLowerCase (trim (strOrEmpty (a_toEmail ctx))) ].

Definition resolve_spec (ctx : AnyCtx) : jsstring :=
  let item := orElse (a_itemId ctx) (a_id ctx) in
  if present (a_conversationId ctx) && present (a_internetMessageId ctx)
  then trim (strOrEmpty (a_conversationId ctx)) ++ js "::"
       ++ trim (strOrEmpty (a_internetMessageId ctx))
  else if present (a_conversationId ctx) && present item
  then trim (strOrEmpty (a_conversationId ctx)) ++ js "::" ++ trim (strOrEmpty item)
  else js "nocid::h"
       ++ toString16 (fnv1a32_spec (join (js "|") (fallback_tuple_spec ctx))).

(** A context is in the fallback branch when it has neither a
    thread-and-message nor a thread-and-item pair. *)
Definition in_fallback (ctx : AnyCtx) : bool :=
  negb (present (a_conversationId ctx) && present (a_internetMessageId ctx))
  && negb (present (a_conversationId ctx)
           && present (orElse (a_itemId ctx) (a_id ctx))).

End Resolver.

End Identity.

(** ** Enumerations of the panel *)

Inductive Action := summarize | reply | tasks | rewrite.
Inductive RecipientPreset := presetReply | presetReplyAll | presetCustom.
Inductive RecipientRole := roleTo | roleCc | roleBcc.
Inductive RecipientOrigin := originFrom | originTo | originCc | originBody | originManual.
Inductive ResultView := viewHtml | viewText.

#[export] Instance Action_eq_dec : EqDecision Action.
Proof. solve_decision. Defined.
#[export] Instance RecipientPreset_eq_dec : EqDecision RecipientPreset.
Proof. solve_decision. Defined.
#[export] Instance RecipientRole_eq_dec : EqDecision RecipientRole.
Proof. solve_decision. Defined.
#[export] Instance RecipientOrigin_eq_dec : EqDecision RecipientOrigin.
Proof. solve_decision. Defined.

(** ** Time-boxed stores in [localStorage] *)

Module Store.

Definition AI_HISTORY_KEEP_MS : Z := 5 * 24 * 60 * 60 * 1000.
Definition WORKSPACE_KEEP_MS : Z := 5 * 24 * 60 * 60 * 1000.

(** What [localStorage.getItem] followed by [JSON.parse] yields for one key:
    no entry ([null]), a text the parser rejects, or the stored value. *)
Inductive slot (T : Type) : Type :=
  | Absent
  | Corrupt
  | Parsed (v : T).
Arguments Absent {T}.
Arguments Corrupt {T}.
Arguments Parsed {T} v.

Record SummaryRow := {
  s_ts : option Z;
  s_text : jsstring;
  s_conversationId : option jsstring;
}.

Record AiHistoryEntry := {
  h_id : jsstring;
  h_ts : option Z;
  h_emailKey : option jsstring;
  h_conversationId : option jsstring;
  h_subject : option jsstring;
  h_html : option jsstring;
  h_text : option jsstring;
}.

Record StoredSlot := {
  rj_html : option jsstring;
  rj_text : option jsstring;
  rj_ts : option Z;
}.

Record EmailWorkspace := {
  ws_key : jsstring;
  ws_ts : option Z;
  ws_updatedAt : option Z;
  ws_conversationId : option jsstring;
  ws_subject : option jsstring;
  ws_summary : option jsstring;
  ws_tplPickId : option jsstring;
  ws_composeNotes : option jsstring;
  ws_replyAll : option bool;
  ws_rewriteText : option jsstring;
  ws_recipientPreset : option RecipientPreset;
  ws_includeBodyEmails : option bool;
  ws_attachOriginalItem : option bool;
  ws_activeOption : option Z;
  ws_results : option (list StoredSlot);
  ws_htmlOut : option jsstring;
  ws_textOut : option jsstring;
  ws_resultView : option ResultView;
}.

(** The four [localStorage] keys of the panel. [ls_full] says that
    [setItem] throws (quota exceeded). *)
Record LocalStorage := {
  ls_summary : slot (gmap (list Z) SummaryRow);
  ls_workspace : slot (gmap (list Z) EmailWorkspace);
  ls_historyV1 : slot (list AiHistoryEntry);
  ls_historyV2 : slot (list AiHistoryEntry);
  ls_full : bool;
}.

Definition set_summary (ls : LocalStorage) (v : slot (gmap (list Z) SummaryRow)) :=
  {| ls_summary := v; ls_workspace := ls_workspace ls;
     ls_historyV1 := ls_historyV1 ls; ls_historyV2 := ls_historyV2 ls;
     ls_full := ls_full ls |}.

Definition set_workspace (ls : LocalStorage) (v : slot (gmap (list Z) EmailWorkspace)) :=
  {| ls_summary := ls_summary ls; ls_workspace := v;
     ls_historyV1 := ls_historyV1 ls; ls_historyV2 := ls_historyV2 ls;
     ls_full := ls_full ls |}.

Definition set_historyV1 (ls : LocalStorage) (v : slot (list AiHistoryEntry)) :=
  {| ls_summary := ls_summary ls; ls_workspace := ls_workspace ls;
     ls_historyV1 := v; ls_historyV2 := ls_historyV2 ls;
     ls_full := ls_full ls |}.

Definition set_historyV2 (ls : LocalStorage) (v : slot (list AiHistoryEntry)) :=
  {| ls_summary := ls_summary ls; ls_workspace := ls_workspace ls;
     ls_historyV1 := ls_historyV1 ls; ls_historyV2 := v;
     ls_full := ls_full ls |}.

(** *** Generation history *)

(** [x && typeof x.ts === "number" && now - x.ts <= AI_HISTORY_KEEP_MS] *)
Definition historyFresh (now : Z) (x : AiHistoryEntry) : bool :=
  match h_ts x with
  | Some ts => now - ts <=? AI_HISTORY_KEEP_MS
  | None => false
  end.

(** The [map] step of [loadAiHistory]: entries of the first format get a
    thread-level key. *)
Definition migrateEntry (x : AiHistoryEntry) : AiHistoryEntry :=
  let cid := strOrEmpty (h_conversationId x) in
  let emailKey :=
    match orElse (h_emailKey x) (if truthy cid then Some (js "cid:" ++ cid) else Some []) with
    | Some k => k
    | None => []
    end in
  {| h_id := h_id x; h_ts := h_ts x; h_emailKey := Some emailKey;
     h_conversationId := Some cid; h_subject := h_subject x;
     h_html := h_html x; h_text := h_text x |}.

Definition loadAiHistory (ls : LocalStorage) (now : Z)
  : list AiHistoryEntry * LocalStorage :=
  let finish (arr : list AiHistoryEntry) (fromV1 : bool) :=
    let pruned := map migrateEntry (List.filter (historyFresh now) arr) in
    if ls_full ls then ([], ls)
    else
      let ls1 := set_historyV2 ls (Parsed pruned) in
      (pruned, if fromV1 then set_historyV1 ls1 Absent else ls1) in
  match ls_historyV2 ls with
  | Parsed arr => finish arr false
  | Corrupt => ([], ls)
  | Absent =>
      match ls_historyV1 ls with
      | Parsed arr => finish arr true
      | Corrupt => ([], ls)
      | Absent => finish [] false
      end
  end.

(** [arr.slice(-n)] *)
Definition lastN {A} (n : nat) (l : list A) : list A :=
  skipn (length l - n)%nat l.

Definition saveAiHistory (ls : LocalStorage) (now : Z) (entries : list AiHistoryEntry)
  : LocalStorage :=
  let pruned := List.filter (historyFresh now) entries in
  if ls_full ls then ls else set_historyV2 ls (Parsed (lastN 300 pruned)).

(** *** Workspaces *)

(** The body of the loop of [loadWorkspaces] for one entry. *)
Definition reviveWorkspace (now : Z) (k : list Z) (v : EmailWorkspace)
  : option EmailWorkspace :=
  let updatedAt :=
    match ws_updatedAt v with Some u => Some u | None => ws_ts v end in
  match updatedAt with
  | None => None
  | Some u =>
      if (u =? 0) || (now - u >? WORKSPACE_KEEP_MS) then None
      else Some {| ws_key := k; ws_ts := ws_ts v; ws_updatedAt := Some u;
                   ws_conversationId := ws_conversationId v;
                   ws_subject := ws_subject v; ws_summary := ws_summary v;
                   ws_tplPickId := ws_tplPickId v;
                   ws_composeNotes := ws_composeNotes v;
                   ws_replyAll := ws_replyAll v;
                   ws_rewriteText := ws_rewriteText v;
                   ws_recipientPreset := ws_recipientPreset v;
                   ws_includeBodyEmails := ws_includeBodyEmails v;
                   ws_attachOriginalItem := ws_attachOriginalItem v;
                   ws_activeOption := ws_activeOption v;
                   ws_results := ws_results v;
                   ws_htmlOut := ws_htmlOut v; ws_textOut := ws_textOut v;
                   ws_resultView := ws_resultView v |}
  end.

Definition loadWorkspaces (ls : LocalStorage) (now : Z)
  : gmap (list Z) EmailWorkspace * LocalStorage :=
  match ls_workspace ls with
  | Corrupt => (∅, ls)
  | st =>
      let data := match st with Parsed m => m | _ => ∅ end in
      let out := map_imap (reviveWorkspace now) data in
      if negb (size out =? size data)%nat
      then (if ls_full ls then (∅, ls) else (out, set_workspace ls (Parsed out)))
      else (out, ls)
  end.

Definition saveWorkspace (ls : LocalStorage) (now : Z) (ws : EmailWorkspace)
  : LocalStorage :=
  let '(all, ls1) := loadWorkspaces ls now in
  if ls_full ls1 then ls1
  else set_workspace ls1 (Parsed (<[ws_key ws := ws]> all)).

Definition freshWorkspace (key : list Z) (now : Z) : EmailWorkspace :=
  {| ws_key := key; ws_ts := Some now; ws_updatedAt := Some now;
     ws_conversationId := None; ws_subject := None; ws_summary := None;
     ws_tplPickId := None; ws_composeNotes := None; ws_replyAll := None;
     ws_rewriteText := None; ws_recipientPreset := None;
     ws_includeBodyEmails := None; ws_attachOriginalItem := None;
     ws_activeOption := None; ws_results := None; ws_htmlOut := None;
     ws_textOut := None; ws_resultView := None |}.

(** [loadWorkspace(key)], for the keys the panel uses.  [all[key]] is read
    as a lookup among the entries of [all]: on a plain object the code also
    finds what the object inherits ([constructor], [toString], ...), which
    none of the keys built by [makeEmailKey] names, since each of them
    holds [::]. *)
Definition loadWorkspace (ls : LocalStorage) (now : Z) (key : list Z)
  : EmailWorkspace * LocalStorage :=
  let '(all, ls1) := loadWorkspaces ls now in
  match all !! key with
  | Some hit => (hit, ls1)
  | None => (freshWorkspace key now, ls1)
  end.

(** *** Summaries *)

(** [loadSummary] only reads: it returns the storage it was given. *)
Definition loadSummary (ls : LocalStorage) (now : Z) (emailKey : list Z)
  : jsstring * LocalStorage :=
  match ls_summary ls with
  | Parsed map =>
      match map !! emailKey with
      | None => ([], ls)
      | Some row =>
          match s_ts row with
          | Some ts =>
              if now - ts >? WORKSPACE_KEEP_MS then ([], ls) else (s_text row, ls)
          | None => (s_text row, ls)
          end
      end
  | _ => ([], ls)
  end.

(** The test of the prune loop of [upsertSummary], negated: the row stays. *)
Definition summaryFresh (now : Z) (row : SummaryRow) : bool :=
  match s_ts row with
  | Some ts => negb ((ts =? 0) || (now - ts >? WORKSPACE_KEEP_MS))
  | None => false
  end.

(** The [CustomEvent] named [icc-summary-updated] with its [detail]. *)
Record SummaryUpdated := {
  ev_emailKey : jsstring;
  ev_conversationId : jsstring;
}.

(** [upsertSummary]: the new storage and the events dispatched. *)
Definition upsertSummary (ls : LocalStorage) (now : Z)
    (emailKey text conversationId : jsstring)
  : LocalStorage * list SummaryUpdated :=
  match ls_summary ls with
  | Corrupt => (ls, [])
  | st =>
      let map := match st with Parsed m => m | _ => ∅ end in
      let map1 :=
        <[emailKey := {| s_ts := Some now; s_text := text;
                         s_conversationId := Some conversationId |}]> map in
      let map2 :=
        filter (fun kv : list Z * SummaryRow => summaryFresh now kv.2 = true) map1 in
      if ls_full ls then (ls, [])
      else (set_summary ls (Parsed map2),
            [ {| ev_emailKey := emailKey; ev_conversationId := conversationId |} ])
  end.

End Store.

(** ** Recipient resolution engine *)

Module Recipients.

Record RecipientRow := {
  email : jsstring;
  name : option jsstring;
  origins : list RecipientOrigin;
  include : bool;
  role : RecipientRole;
}.

(** [rows.find(p)] followed by an assignment to the row found: the first
    row that satisfies [p] is replaced by its image under [f]. *)
Fixpoint updFirst (p : RecipientRow -> bool) (f : RecipientRow -> RecipientRow)
    (rows : list RecipientRow) : list RecipientRow :=
  match rows with
  | [] => []
  | r :: rs => if p r then f r :: rs else r :: updFirst p f rs
  end.

Definition hasEmail (e : jsstring) (r : RecipientRow) : bool :=
  bool_decide (email r = e).

(** [Array.from(new Set(l))]: first occurrences, in order. *)
Definition uniq (l : list RecipientOrigin) : list RecipientOrigin :=
  fold_left (fun acc x => if bool_decide (x ∈ acc) then acc else acc ++ [x]) l [].

Definition mergeOrigins (a b : list RecipientOrigin) : list RecipientOrigin :=
  uniq (a ++ b).

Definition setOrigins (o : list RecipientOrigin) (r : RecipientRow) : RecipientRow :=
  {| email := email r; name := name r; origins := o;
     include := include r; role := role r |}.

Definition setName (n : option jsstring) (r : RecipientRow) : RecipientRow :=
  {| email := email r; name := n; origins := origins r;
     include := include r; role := role r |}.

Definition setInclude (b : bool) (r : RecipientRow) : RecipientRow :=
  {| email := email r; name := name r; origins := origins r;
     include := b; role := role r |}.

Definition setRole (x : RecipientRole) (r : RecipientRow) : RecipientRow :=
  {| email := email r; name := name r; origins := origins r;
     include := include r; role := x |}.

Section Engine.

Variable toLowerCase : jsstring -> jsstring.

(** The two regular-expression loops of [extractEmailsFromText]: the
    [mailto:] captures followed by the bare address matches, in order. *)
Variable scanEmails : jsstring -> list jsstring.

Definition isOpenBracket (c : Z) : bool := (c =? 60) || (c =? 40) || (c =? 91).

Definition isTrailJunk (c : Z) : bool :=
  (c =? 62) || (c =? 41) || (c =? 93) || (c =? 44) || (c =? 46) || (c =? 59)
  || (c =? 58) || isWhiteSpace c.

Definition normalizeEmailCandidate (raw : option jsstring) : jsstring :=
  let s := trim (strOrEmpty raw) in
  let s := dropWhileEnd isTrailJunk (dropWhile isOpenBracket s) in
  let s := toLowerCase (trim s) in
  if negb (existsb (Z.eqb 64) s) || (Z.of_nat (length s) <? 5) then [] else s.

Definition extractEmailsFromText (text : option jsstring) : list jsstring :=
  let out := scanEmails (strOrEmpty text) in
  fold_left
    (fun clean x =>
       let e := normalizeEmailCandidate (Some x) in
       if negb (truthy e) then clean
       else if bool_decide (e ∈ clean) then clean
       else clean ++ [e])
    out [].

(** The closure [push] of [buildHeaderRows]. *)
Definition push (myEmailLower : jsstring) (rows : list RecipientRow)
    (email0 name0 : option jsstring) (origin : option RecipientOrigin)
  : list RecipientRow :=
  let e := normalizeEmailCandidate email0 in
  if negb (truthy e) then rows
  else if truthy myEmailLower && bool_decide (e = myEmailLower) then rows
  else
    match find (hasEmail e) rows with
    | Some _ =>
        updFirst (hasEmail e)
          (fun existing =>
             let r1 := setOrigins (mergeOrigins (origins existing) (option_list origin))
                         existing in
             if negb (truthy (strOrEmpty (name r1))) && truthy (strOrEmpty name0)
             then setName name0 r1 else r1)
          rows
    | None =>
        rows ++ [ {| email := e; name := name0; origins := option_list origin;
                     include := false; role := roleCc |} ]
    end.

Definition buildHeaderRows (ctx : Identity.OutlookMessageContext)
    (myEmailLower : jsstring) : list RecipientRow :=
  let rows := push myEmailLower [] (Identity.fromEmail ctx) (Identity.fromName ctx)
                (Some originFrom) in
  let rows :=
    fold_left
      (fun rows r => push myEmailLower rows (Some (Identity.rc_email r))
                       (Some (Identity.rc_name r)) (Some originTo))
      (default [] (Identity.toRecipients ctx)) rows in
  fold_left
    (fun rows r => push myEmailLower rows (Some (Identity.rc_email r))
                     (Some (Identity.rc_name r)) (Some originCc))
    (default [] (Identity.ccRecipients ctx)) rows.

(** The first loop of [applyPreset]. *)
Definition resetRow (r : RecipientRow) : RecipientRow := setRole roleCc (setInclude false r).
Definition markTo (r : RecipientRow) : RecipientRow := setRole roleTo (setInclude true r).
Definition markCc (r : RecipientRow) : RecipientRow := setRole roleCc (setInclude true r).

(** The guard [from && (!myEmailLower || from !== myEmailLower)]. *)
Definition senderUsable (from myEmailLower : jsstring) : bool :=
  truthy from && (negb (truthy myEmailLower) || negb (bool_decide (from = myEmailLower))).

Definition markSender (ctx : Identity.OutlookMessageContext) (from myEmailLower : jsstring)
    (rows : list RecipientRow) : list RecipientRow :=
  if senderUsable from myEmailLower then
    match find (hasEmail from) rows with
    | Some _ => updFirst (hasEmail from) markTo rows
    | None =>
        {| email := from; name := Identity.fromName ctx; origins := [originFrom];
           include := true; role := roleTo |} :: rows
    end
  else rows.

Definition isHeaderOrigin (o : RecipientOrigin) : bool :=
  match o with originTo | originCc => true | _ => false end.

Definition markHeaders (from myEmailLower : jsstring) (rows : list RecipientRow)
  : list RecipientRow :=
  map (fun r =>
         let skipped :=
           (truthy myEmailLower && bool_decide (email r = myEmailLower))
           || (truthy from && bool_decide (email r = from)) in
         if skipped then r
         else if negb (existsb isHeaderOrigin (origins r)) then r
         else markCc r)
      rows.

Definition applyPreset (rows : list RecipientRow) (preset : RecipientPreset)
    (ctx : Identity.OutlookMessageContext) (myEmailLower : jsstring)
  : list RecipientRow :=
  let from := normalizeEmailCandidate (Identity.fromEmail ctx) in
  let rows := map resetRow rows in
  let rows :=
    match preset with
    | presetReply | presetReplyAll => markSender ctx from myEmailLower rows
    | presetCustom => rows
    end in
  match preset with
  | presetReplyAll => markHeaders from myEmailLower rows
  | _ => rows
  end.

(** The effect that runs when the identity changes. *)
Definition initRows (ctx : Identity.OutlookMessageContext) (myEmailLower : jsstring)
  : list RecipientRow :=
  applyPreset (buildHeaderRows ctx myEmailLower) presetReply ctx myEmailLower.

(** The updater of the body-scan effect for one address found. *)
Definition harvestOne (myEmailLower : jsstring) (rows : list RecipientRow)
    (e : jsstring) : list RecipientRow :=
  if truthy myEmailLower && bool_decide (e = myEmailLower) then rows
  else
    match find (hasEmail e) rows with
    | Some _ =>
        updFirst (hasEmail e)
          (fun existing => setOrigins (mergeOrigins (origins existing) [originBody]) existing)
          rows
    | None =>
        rows ++ [ {| email := e; name := None; origins := [originBody];
                     include := false; role := roleCc |} ]
    end.

(** The body-scan effect. *)
Definition harvestBody (includeBodyEmails : bool) (rawBody body myEmailLower : jsstring)
    (rows : list RecipientRow) : list RecipientRow :=
  if negb includeBodyEmails then rows
  else
    let src := if truthy rawBody then rawBody else body in
    if negb (truthy src) then rows
    else
      let found := extractEmailsFromText (Some src) in
      match found with
      | [] => rows
      | _ => fold_left (harvestOne myEmailLower) found rows
      end.

Definition onToggleInclude (emailAddr : jsstring) (checked : bool)
    (rows : list RecipientRow) : list RecipientRow :=
  map (fun r => if bool_decide (email r = emailAddr) then setInclude checked r else r) rows.

Definition onChangeRole (emailAddr : jsstring) (x : RecipientRole)
    (rows : list RecipientRow) : list RecipientRow :=
  map (fun r => if bool_decide (email r = emailAddr) then setRole x r else r) rows.

Definition addManualRecipient (addEmail : jsstring) (addRole : RecipientRole)
    (rows : list RecipientRow) : list RecipientRow :=
  let e := normalizeEmailCandidate (Some addEmail) in
  if negb (truthy e) then rows
  else
    match find (hasEmail e) rows with
    | Some _ =>
        updFirst (hasEmail e)
          (fun existing =>
             setRole addRole
               (setInclude true
                  (setOrigins (mergeOrigins (origins existing) [originManual]) existing)))
          rows
    | None =>
        rows ++ [ {| email := e; name := None; origins := [originManual];
                     include := true; role := addRole |} ]
    end.

(** Every way the panel changes the rows of one email. *)
Inductive RowOp :=
  | OpHarvest (includeBodyEmails : bool) (rawBody body : jsstring)
  | OpPreset (preset : RecipientPreset)
  | OpToggleInclude (emailAddr : jsstring) (checked : bool)
  | OpChangeRole (emailAddr : jsstring) (x : RecipientRole)
  | OpAddManual (addEmail : jsstring) (addRole : RecipientRole).

Definition applyOp (ctx : Identity.OutlookMessageContext) (myEmailLower : jsstring)
    (rows : list RecipientRow) (op : RowOp) : list RecipientRow :=
  match op with
  | OpHarvest inc rawBody body => harvestBody inc rawBody body myEmailLower rows
  | OpPreset preset => applyPreset rows preset ctx myEmailLower
  | OpToggleInclude a c => onToggleInclude a c rows
  | OpChangeRole a x => onChangeRole a x rows
  | OpAddManual a x => addManualRecipient a x rows
  end.

(** [groupedRecipientsFromRows]: the three address lists handed to the
    compose forms. *)
Record Grouped := {
  g_to : list jsstring;
  g_cc : list jsstring;
  g_bcc : list jsstring;
}.

Definition roleName (x : RecipientRole) : jsstring :=
  match x with
  | roleTo => js "to"
  | roleCc => js "cc"
  | roleBcc => js "bcc"
  end.

Definition pushRole (x : RecipientRole) (e : jsstring) (g : Grouped) : Grouped :=
  match x with
  | roleTo => {| g_to := g_to g ++ [e]; g_cc := g_cc g; g_bcc := g_bcc g |}
  | roleCc => {| g_to := g_to g; g_cc := g_cc g ++ [e]; g_bcc := g_bcc g |}
  | roleBcc => {| g_to := g_to g; g_cc := g_cc g; g_bcc := g_bcc g ++ [e] |}
  end.

(** One round of the loop; [seen] holds the keys [role:address]. *)
Definition groupStep (acc : Grouped * list jsstring) (r : RecipientRow)
  : Grouped * list jsstring :=
  if negb (include r) then acc
  else
    let e := normalizeEmailCandidate (Some (email r)) in
    if negb (truthy e) then acc
    else
      let key := roleName (role r) ++ js ":" ++ e in
      if bool_decide (key ∈ acc.2) then acc
      else (pushRole (role r) e acc.1, key :: acc.2).

Definition groupedRecipientsFromRows (rows : list RecipientRow) : Grouped :=
  (fold_left groupStep rows ({| g_to := []; g_cc := []; g_bcc := [] |}, [])).1.

End Engine.

End Recipients.

(** ** Generation lifecycle controller *)

Module Lifecycle.

Import Store.

Record ResultSlot := { html : jsstring; text : jsstring; ts : Z }.

Definition emptySlot : ResultSlot := {| html := []; text := []; ts := 0 |}.

Definition makeEmptySlots : list ResultSlot := [emptySlot; emptySlot; emptySlot].

(** The messages [run] passes to [setNotice]. *)
Inductive Notice :=
  | NoticeNone              (* "" *)
  | NoticeSummaryUpdated    (* "Resumo atualizado." *)
  | NoticeSavedToPrevious.  (* "O email mudou durante a geracao; o resultado
                               ficou guardado no email anterior." *)

Inductive Sheet :=
  | SheetNone | SheetOptions | SheetCompose | SheetRewrite | SheetRecipients
  | SheetContext | SheetReminder.

(** The props and the React state one render of [AiPanel] sees.  The
    functions a render creates ([run], [setHtmlOut], [setTextOut]) close
    over these values: they keep them for as long as they run, whatever the
    component renders afterwards. *)
Record View := {
  v_emailKey : jsstring;
  v_conversationId : option jsstring;
  v_subject : option jsstring;
  v_activeOption : nat;
  v_resultSlots : list ResultSlot;
  v_resultView : ResultView;
  v_tplPickId : jsstring;
  v_composeNotes : jsstring;
  v_rewriteText : jsstring;
  v_recipientPreset : RecipientPreset;
  v_replyAll : bool;
  v_includeBodyEmails : bool;
  v_attachOriginalItem : bool;
  v_busy : bool;
  v_err : jsstring;
  v_notice : Notice;
  v_sheet : Sheet;
}.

(** The live component: its current props and state, the browser storage
    and the [icc-summary-updated] events dispatched so far. *)
Record World := {
  w_view : View;
  w_storage : LocalStorage;
  w_events : list SummaryUpdated;
}.

Definition withView (f : View -> View) (w : World) : World :=
  {| w_view := f (w_view w); w_storage := w_storage w; w_events := w_events w |}.

Definition setErr (x : jsstring) (v : View) : View :=
  {| v_emailKey := v_emailKey v; v_conversationId := v_conversationId v;
     v_subject := v_subject v; v_activeOption := v_activeOption v;
     v_resultSlots := v_resultSlots v; v_resultView := v_resultView v;
     v_tplPickId := v_tplPickId v; v_composeNotes := v_composeNotes v;
     v_rewriteText := v_rewriteText v; v_recipientPreset := v_recipientPreset v;
     v_replyAll := v_replyAll v; v_includeBodyEmails := v_includeBodyEmails v;
     v_attachOriginalItem := v_attachOriginalItem v; v_busy := v_busy v;
     v_err := x; v_notice := v_notice v; v_sheet := v_sheet v |}.

Definition setNotice (x : Notice) (v : View) : View :=
  {| v_emailKey := v_emailKey v; v_conversationId := v_conversationId v;
     v_subject := v_subject v; v_activeOption := v_activeOption v;
     v_resultSlots := v_resultSlots v; v_resultView := v_resultView v;
     v_tplPickId := v_tplPickId v; v_composeNotes := v_composeNotes v;
     v_rewriteText := v_rewriteText v; v_recipientPreset := v_recipientPreset v;
     v_replyAll := v_replyAll v; v_includeBodyEmails := v_includeBodyEmails v;
     v_attachOriginalItem := v_attachOriginalItem v; v_busy := v_busy v;
     v_err := v_err v; v_notice := x; v_sheet := v_sheet v |}.

Definition setBusy (x : bool) (v : View) : View :=
  {| v_emailKey := v_emailKey v; v_conversationId := v_conversationId v;
     v_subject := v_subject v; v_activeOption := v_activeOption v;
     v_resultSlots := v_resultSlots v; v_resultView := v_resultView v;
     v_tplPickId := v_tplPickId v; v_composeNotes := v_composeNotes v;
     v_rewriteText := v_rewriteText v; v_recipientPreset := v_recipientPreset v;
     v_replyAll := v_replyAll v; v_includeBodyEmails := v_includeBodyEmails v;
     v_attachOriginalItem := v_attachOriginalItem v; v_busy := x;
     v_err := v_err v; v_notice := v_notice v; v_sheet := v_sheet v |}.

Definition setSheet (x : Sheet) (v : View) : View :=
  {| v_emailKey := v_emailKey v; v_conversationId := v_conversationId v;
     v_subject := v_subject v; v_activeOption := v_activeOption v;
     v_resultSlots := v_resultSlots v; v_resultView := v_resultView v;
     v_tplPickId := v_tplPickId v; v_composeNotes := v_composeNotes v;
     v_rewriteText := v_rewriteText v; v_recipientPreset := v_recipientPreset v;
     v_replyAll := v_replyAll v; v_includeBodyEmails := v_includeBodyEmails v;
     v_attachOriginalItem := v_attachOriginalItem v; v_busy := v_busy v;
     v_err := v_err v; v_notice := v_notice v; v_sheet := x |}.

Definition setResultView (x : ResultView) (v : View) : View :=
  {| v_emailKey := v_emailKey v; v_conversationId := v_conversationId v;
     v_subject := v_subject v; v_activeOption := v_activeOption v;
     v_resultSlots := v_resultSlots v; v_resultView := x;
     v_tplPickId := v_tplPickId v; v_composeNotes := v_composeNotes v;
     v_rewriteText := v_rewriteText v; v_recipientPreset := v_recipientPreset v;
     v_replyAll := v_replyAll v; v_includeBodyEmails := v_includeBodyEmails v;
     v_attachOriginalItem := v_attachOriginalItem v; v_busy := v_busy v;
     v_err := v_err v; v_notice := v_notice v; v_sheet := v_sheet v |}.

(** [setResultSlots(updater)]: the updater receives the state of the live
    component, not the state the calling render saw. *)
Definition setResultSlots (updater : list ResultSlot -> list ResultSlot) (v : View) : View :=
  {| v_emailKey := v_emailKey v; v_conversationId := v_conversationId v;
     v_subject := v_subject v; v_activeOption := v_activeOption v;
     v_resultSlots := updater (v_resultSlots v); v_resultView := v_resultView v;
     v_tplPickId := v_tplPickId v; v_composeNotes := v_composeNotes v;
     v_rewriteText := v_rewriteText v; v_recipientPreset := v_recipientPreset v;
     v_replyAll := v_replyAll v; v_includeBodyEmails := v_includeBodyEmails v;
     v_attachOriginalItem := v_attachOriginalItem v; v_busy := v_busy v;
     v_err := v_err v; v_notice := v_notice v; v_sheet := v_sheet v |}.

(** [next[i] = x] on an array: in range it overwrites; past the end
    JavaScript extends the array, the holes reading as empty slots. *)
Definition assignAt (i : nat) (x : ResultSlot) (l : list ResultSlot) : list ResultSlot :=
  if (i <? length l)%nat then <[i := x]> l
  else l ++ replicate (i - length l) emptySlot ++ [x].

(** The updaters of [setHtmlOut] and [setTextOut], as created by a render
    whose [activeOption] is [i]. *)
Definition htmlUpdater (i : nat) (now : Z) (v : jsstring) (prev : list ResultSlot)
  : list ResultSlot :=
  let next := match prev with [] => makeEmptySlots | _ => prev end in
  let cur := default emptySlot (next !! i) in
  assignAt i {| html := v; text := text cur; ts := now |} next.

Definition textUpdater (i : nat) (now : Z) (v : jsstring) (prev : list ResultSlot)
  : list ResultSlot :=
  let next := match prev with [] => makeEmptySlots | _ => prev end in
  let cur := default emptySlot (next !! i) in
  assignAt i {| html := html cur; text := v; ts := now |} next.

(** [s || undefined] *)
Definition nonEmpty (s : jsstring) : option jsstring :=
  if truthy s then Some s else None.

(** What the generator resolves with. *)
Record AiResult := { ai_html : option jsstring; ai_text : option jsstring }.

(** The constants [run] binds before its [await]. *)
Record RunLocals := { runEmailKey : jsstring; runConversationId : jsstring }.

Section Run.

(** [sanitizeAiHtml] walks a DOM tree and [stripHtml] applies four regular
    expressions; both only compute a string from a string. *)
Variable sanitizeAiHtml : jsstring -> jsstring.
Variable stripHtml : jsstring -> jsstring.

(** [run(action)] up to its [await], called on the closure of the render
    [env] while the component is in state [w]. *)
Definition run_begin (env : View) (action : Action) (now : Z) (w : World)
  : World * RunLocals :=
  let w := withView (setErr []) w in
  let w := withView (setNotice NoticeNone) w in
  let w := withView (setBusy true) w in
  let locals := {| runEmailKey := v_emailKey env;
                   runConversationId := strOrEmpty (v_conversationId env) |} in
  let w :=
    if bool_decide (action <> summarize) then
      let w := withView (setResultSlots (htmlUpdater (v_activeOption env) now [])) w in
      withView (setResultSlots (textUpdater (v_activeOption env) now [])) w
    else w in
  (w, locals).

(** The [finally] block. *)
Definition run_finally (w : World) : World := withView (setBusy false) w.

(** The workspace record written when the identity test fails. *)
Definition backgroundWorkspace (env : View) (locals : RunLocals) (now : Z)
    (summary safeHtml plainTxt : jsstring) : EmailWorkspace :=
  {| ws_key := runEmailKey locals; ws_ts := Some now; ws_updatedAt := Some now;
     ws_conversationId := Some (runConversationId locals);
     ws_subject := v_subject env; ws_summary := nonEmpty summary;
     ws_tplPickId := nonEmpty (v_tplPickId env);
     ws_composeNotes := nonEmpty (v_composeNotes env);
     ws_replyAll := Some (v_replyAll env);
     ws_rewriteText := nonEmpty (v_rewriteText env);
     ws_recipientPreset := Some (v_recipientPreset env);
     ws_includeBodyEmails := Some (v_includeBodyEmails env);
     ws_attachOriginalItem := Some (v_attachOriginalItem env);
     ws_activeOption := None; ws_results := None;
     ws_htmlOut := nonEmpty safeHtml; ws_textOut := nonEmpty plainTxt;
     ws_resultView := None |}.

(** [run(action)] from the point where [aiGenerate] resolved with [r]: the
    same closure [env] and the constants [locals] it bound, continuing in
    whatever state [w] the component has reached meanwhile. *)
Definition run_resolved (env : View) (locals : RunLocals) (action : Action)
    (r : AiResult) (now : Z) (w : World) : World :=
  let safeHtml := sanitizeAiHtml (strOrEmpty (ai_html r)) in
  let plainTxt :=
    let t := trim (strOrEmpty (ai_text r)) in
    if truthy t then t else stripHtml safeHtml in
  if bool_decide (action = summarize) then
    let w :=
      if truthy (runEmailKey locals) && truthy plainTxt then
        let '(ls, evs) :=
          upsertSummary (w_storage w) now (runEmailKey locals) plainTxt
            (runConversationId locals) in
        withView (setNotice NoticeSummaryUpdated)
          {| w_view := w_view w; w_storage := ls; w_events := w_events w ++ evs |}
      else w in
    run_finally (withView (setSheet SheetNone) w)
  else if negb (bool_decide (runEmailKey locals = v_emailKey env)) then
    let summary := (loadSummary (w_storage w) now (runEmailKey locals)).1 in
    let ls :=
      saveWorkspace (w_storage w) now
        (backgroundWorkspace env locals now summary safeHtml plainTxt) in
    let w := {| w_view := w_view w; w_storage := ls; w_events := w_events w |} in
    let w := withView (setNotice NoticeSavedToPrevious) w in
    run_finally (withView (setSheet SheetNone) w)
  else
    let w := withView (setResultSlots (htmlUpdater (v_activeOption env) now safeHtml)) w in
    let w := withView (setResultSlots (textUpdater (v_activeOption env) now plainTxt)) w in
    let w := withView (setResultView (if truthy safeHtml then viewHtml else viewText)) w in
    run_finally (withView (setSheet SheetNone) w).

(** [run(action)] from the point where [aiGenerate] rejected with an error
    whose message is [msg]. *)
Definition run_rejected (msg : jsstring) (w : World) : World :=
  run_finally (withView (setErr msg) w).

End Run.

(** Restoring the three slots from a workspace record, as the effect keyed
    on [emailKey] does. *)
Definition restoreSlot (v : option StoredSlot) : ResultSlot :=
  match v with
  | Some s =>
      if truthy (strOrEmpty (rj_html s)) || truthy (strOrEmpty (rj_text s))
      then {| html := strOrEmpty (rj_html s); text := strOrEmpty (rj_text s);
              ts := default 0 (rj_ts s) |}
      else emptySlot
  | None => emptySlot
  end.

Definition slotFilled (x : ResultSlot) : bool := truthy (html x) || truthy (text x).

Definition restoreSlots (ws : EmailWorkspace) : list ResultSlot :=
  let wsSlots := default [] (ws_results ws) in
  let slots := [ restoreSlot (wsSlots !! 0%nat); restoreSlot (wsSlots !! 1%nat);
                 restoreSlot (wsSlots !! 2%nat) ] in
  if existsb slotFilled slots then slots
  else [ {| html := strOrEmpty (ws_htmlOut ws); text := strOrEmpty (ws_textOut ws);
            ts := default 0 (ws_ts ws) |}; emptySlot; emptySlot ].

(** The host selects another message: new props, then the effects keyed on
    [emailKey] of the render that follows.  The restore effect does nothing
    for an empty key; the effect that rebuilds the recipient rows runs after
    it and sets the preset to [reply]. *)
Definition selectEmail (key : jsstring) (conv subj : option jsstring) (now : Z)
    (w : World) : World :=
  let v := w_view w in
  if negb (truthy key) then
    {| w_view :=
         {| v_emailKey := key; v_conversationId := conv; v_subject := subj;
            v_activeOption := v_activeOption v;
            v_resultSlots := v_resultSlots v; v_resultView := v_resultView v;
            v_tplPickId := v_tplPickId v; v_composeNotes := v_composeNotes v;
            v_rewriteText := v_rewriteText v; v_recipientPreset := presetReply;
            v_replyAll := v_replyAll v;
            v_includeBodyEmails := v_includeBodyEmails v;
            v_attachOriginalItem := v_attachOriginalItem v;
            v_busy := v_busy v; v_err := v_err v; v_notice := v_notice v;
            v_sheet := v_sheet v |};
       w_storage := w_storage w; w_events := w_events w |}
  else
    let '(ws, ls) := loadWorkspace (w_storage w) now key in
    {| w_view :=
         {| v_emailKey := key; v_conversationId := conv; v_subject := subj;
            v_activeOption :=
              match ws_activeOption ws with
              | Some n => Z.to_nat (Z.max 0 (Z.min 2 n))
              | None => 0%nat
              end;
            v_resultSlots := restoreSlots ws; v_resultView := v_resultView v;
            v_tplPickId := strOrEmpty (ws_tplPickId ws);
            v_composeNotes := strOrEmpty (ws_composeNotes ws);
            v_rewriteText := strOrEmpty (ws_rewriteText ws);
            v_recipientPreset := presetReply;
            v_replyAll := default false (ws_replyAll ws);
            v_includeBodyEmails :=
              default (v_includeBodyEmails v) (ws_includeBodyEmails ws);
            v_attachOriginalItem := default false (ws_attachOriginalItem ws);
            v_busy := v_busy v; v_err := v_err v; v_notice := v_notice v;
            v_sheet := v_sheet v |};
       w_storage := ls; w_events := w_events w |}.

(** The debounced effect that writes the visible state into the workspace
    of the current identity. *)
Definition persistWorkspace (now : Z) (w : World) : World :=
  let v := w_view w in
  let cur := default emptySlot (v_resultSlots v !! v_activeOption v) in
  let ws :=
    {| ws_key := v_emailKey v; ws_ts := Some now; ws_updatedAt := Some now;
       ws_conversationId := v_conversationId v; ws_subject := v_subject v;
       ws_summary := nonEmpty (loadSummary (w_storage w) now (v_emailKey v)).1;
       ws_tplPickId := nonEmpty (v_tplPickId v);
       ws_composeNotes := nonEmpty (v_composeNotes v);
       ws_replyAll := Some (v_replyAll v);
       ws_rewriteText := nonEmpty (v_rewriteText v);
       ws_recipientPreset := Some (v_recipientPreset v);
       ws_includeBodyEmails := Some (v_includeBodyEmails v);
       ws_attachOriginalItem := Some (v_attachOriginalItem v);
       ws_activeOption := Some (Z.of_nat (v_activeOption v));
       ws_results :=
         Some (map (fun s => {| rj_html := nonEmpty (html s);
                                rj_text := nonEmpty (text s);
                                rj_ts := if ts s =? 0 then None else Some (ts s) |})
                 (v_resultSlots v));
       ws_htmlOut := nonEmpty (html cur); ws_textOut := nonEmpty (text cur);
       ws_resultView := None |} in
  if truthy (v_emailKey v)
  then {| w_view := v; w_storage := saveWorkspace (w_storage w) now ws;
          w_events := w_events w |}
  else w.

End Lifecycle.

(** ** The effects that follow a run *)

(** Of the effects of [AiPanel], two depend on state that [run] writes
    ([err], [notice], [busy], [sheet], [resultView], [resultSlots]): the
    history effect, on [htmlOut] and [textOut], and the persist effect, on
    [resultSlots], [htmlOut] and [textOut].  The others run once or depend
    on the identity of the email, on the body, on the templates or on the
    recipient switches only. *)

Module Effects.

Import Store Lifecycle.

(** [resultSlots[activeOption]?.html || ""] *)
Definition htmlOut (v : View) : jsstring :=
  html (default emptySlot (v_resultSlots v !! v_activeOption v)).

(** [resultSlots[activeOption]?.text || ""] *)
Definition textOut (v : View) : jsstring :=
  text (default emptySlot (v_resultSlots v !! v_activeOption v)).

(** The mounted panel between two renders:
    - [p_world]: props, state, storage and dispatched events;
    - [p_aiHistory]: the state [aiHistory];
    - [p_restoring]: [restoringRef.current];
    - [p_slotsId]: the identity of the array held in [resultSlots], which
      React compares by reference; the updaters of [setHtmlOut] and
      [setTextOut] return a new array at every call;
    - [p_timer]: the 250 ms timer of the persist effect while it is
      pending, with the render its callback closes over. *)
Record Panel := {
  p_world : World;
  p_aiHistory : list AiHistoryEntry;
  p_restoring : bool;
  p_slotsId : nat;
  p_timer : option View;
}.

(** State updates and storage writes made by a function of the panel,
    [newArrays] of them being calls of [setResultSlots]. *)
Definition onWorld (f : World -> World) (newArrays : nat) (p : Panel) : Panel :=
  {| p_world := f (p_world p); p_aiHistory := p_aiHistory p;
     p_restoring := p_restoring p; p_slotsId := (p_slotsId p + newArrays)%nat;
     p_timer := p_timer p |}.

(** The dependency list of the history effect:
    [[htmlOut, textOut, ctx.conversationId, emailKey]] *)
Definition historyDeps (p : Panel)
  : jsstring * jsstring * option jsstring * jsstring :=
  let v := w_view (p_world p) in
  (htmlOut v, textOut v, v_conversationId v, v_emailKey v).

(** The dependency list of the persist effect. *)
Definition persistDeps (p : Panel) :=
  let v := w_view (p_world p) in
  (v_emailKey v, v_conversationId v, v_subject v, v_tplPickId v, v_composeNotes v,
   v_rewriteText v, v_recipientPreset v, v_replyAll v, v_includeBodyEmails v,
   v_attachOriginalItem v, v_activeOption v, p_slotsId p, htmlOut v, textOut v).

(** A slot as the persist effect stores it:
    [{ html: s.html || undefined, text: s.text || undefined,
       ts: s.ts || undefined }] *)
Definition storedSlot (s : ResultSlot) : StoredSlot :=
  {| rj_html := nonEmpty (html s); rj_text := nonEmpty (text s);
     rj_ts := if ts s =? 0 then None else Some (ts s) |}.

(** The timer callback of the persist effect: [saveWorkspace] with the
    values of the render that armed it, on the storage as it is when the
    timer fires. *)
Definition persistTimer (now : Z) (p : Panel) : Panel :=
  match p_timer p with
  | None => p
  | Some v =>
      let w := p_world p in
      let saved :=
        persistWorkspace now
          {| w_view := v; w_storage := w_storage w; w_events := w_events w |} in
      {| p_world := {| w_view := w_view w; w_storage := w_storage saved;
                       w_events := w_events w |};
         p_aiHistory := p_aiHistory p; p_restoring := p_restoring p;
         p_slotsId := p_slotsId p; p_timer := None |}
  end.

(** The persist effect: the cleanup of its previous run clears the timer,
    then the body arms a new one unless the key is empty.  The ref
    [restoringWsRef] is raised and lowered inside the restore effect, so it
    is down whenever this body runs. *)
Definition persistEffect (p : Panel) : Panel :=
  let v := w_view (p_world p) in
  {| p_world := p_world p; p_aiHistory := p_aiHistory p;
     p_restoring := p_restoring p; p_slotsId := p_slotsId p;
     p_timer := if negb (truthy (v_emailKey v)) then None else Some v |}.

Section Commit.

Variable sanitizeAiHtml : jsstring -> jsstring.
Variable stripHtml : jsstring -> jsstring.

(** [Number.prototype.toString], as a template literal applies it. *)
Variable numberToString : Z -> jsstring.

(** The entry the history effect builds. *)
Definition historyEntry (now : Z) (v : View) : AiHistoryEntry :=
  {| h_id := v_emailKey v ++ js "-" ++ numberToString now;
     h_ts := Some now;
     h_emailKey := Some (v_emailKey v);
     h_conversationId := Some (strOrEmpty (v_conversationId v));
     h_subject := Some (strOrEmpty (v_subject v));
     h_html := nonEmpty (htmlOut v);
     h_text := nonEmpty (textOut v) |}.

(** The history effect, with the updater it passes to [setAiHistory]. *)
Definition historyEffect (now : Z) (p : Panel) : Panel :=
  let w := p_world p in
  let v := w_view w in
  if negb (truthy (strOrEmpty (v_conversationId v))) then p
  else if p_restoring p then p
  else if negb (truthy (htmlOut v)) && negb (truthy (textOut v)) then p
  else
    let next := p_aiHistory p ++ [historyEntry now v] in
    {| p_world := {| w_view := v; w_storage := saveAiHistory (w_storage w) now next;
                     w_events := w_events w |};
       p_aiHistory := next; p_restoring := p_restoring p;
       p_slotsId := p_slotsId p; p_timer := p_timer p |}.

(** React commits the render that follows a batch of state updates: [prev]
    is the panel at the previous render and [p] the panel after the
    updates.  The effects whose dependencies changed run in the order of
    their declaration, the history effect at time [now]. *)
Definition commit (prev : Panel) (now : Z) (p : Panel) : Panel :=
  let p1 :=
    if bool_decide (historyDeps prev = historyDeps p) then p
    else historyEffect now p in
  if bool_decide (persistDeps prev = persistDeps p) then p1 else persistEffect p1.

(** [run(action)] up to its [await]: [setHtmlOut("")] and [setTextOut("")]
    are the two calls of [setResultSlots]. *)
Definition begin (env : View) (action : Action) (now : Z) (p : Panel)
  : Panel * RunLocals :=
  (onWorld (fun w => (run_begin env action now w).1)
     (if bool_decide (action <> summarize) then 2 else 0) p,
   (run_begin env action now (p_world p)).2).

(** [run(action)] after [aiGenerate] resolved: [setHtmlOut(safeHtml)] and
    [setTextOut(plainTxt)] are called in the last branch only. *)
Definition resolved (env : View) (locals : RunLocals) (action : Action)
    (r : AiResult) (now : Z) (p : Panel) : Panel :=
  onWorld (run_resolved sanitizeAiHtml stripHtml env locals action r now)
    (if bool_decide (action = summarize) then 0
     else if negb (bool_decide (runEmailKey locals = v_emailKey env)) then 0
     else 2) p.

(** [run(action)] after [aiGenerate] rejected. *)
Definition rejected (msg : jsstring) (p : Panel) : Panel :=
  onWorld (run_rejected msg) 0 p.

(** A run whose generation fails.  The synchronous part of [run] is one
    batch and the [catch] and [finally] blocks another, each followed by a
    render; the persist timer armed by the first render fires either
    before the failure or after it. *)
Definition failedRun (timerFirst : bool) (env : View) (action : Action)
    (msg : jsstring) (tStart tEffect1 tEffect2 tTimer : Z) (p0 : Panel) : Panel :=
  let p1 := commit p0 tEffect1 (begin env action tStart p0).1 in
  if timerFirst then
    let p2 := persistTimer tTimer p1 in
    commit p2 tEffect2 (rejected msg p2)
  else
    let p2 := commit p1 tEffect2 (rejected msg p1) in
    persistTimer tTimer p2.

(** A run whose generation succeeds at [tDone].  The timer armed by the
    first render fires while [run] awaits when [tEarly] is given, and the
    one armed by the render that shows the result fires at [tTimer]. *)
Definition completedRun (env : View) (action : Action) (r : AiResult)
    (tStart tEffect1 : Z) (tEarly : option Z) (tDone tEffect2 tTimer : Z)
    (p0 : Panel) : Panel :=
  let started := begin env action tStart p0 in
  let p1 := commit p0 tEffect1 started.1 in
  let p1 := match tEarly with Some t => persistTimer t p1 | None => p1 end in
  let p2 := commit p1 tEffect2 (resolved env started.2 action r tDone p1) in
  persistTimer tTimer p2.

End Commit.

End Effects.

(** ** Automatic summary: throttle and in-flight guard *)

Module AutoSummary.

(** One entry of [autoSummaryStateRef.current]; an [inflight] that was
    never assigned reads falsy. *)
Record KeyState := { inflight : bool; lastAttempt : option Z }.

Definition noState : KeyState := {| inflight := false; lastAttempt := None |}.

(** The dependencies of the effect, as the render that runs it sees them. *)
Record Deps := {
  d_conversationId : option jsstring;
  d_emailKey : jsstring;
  d_rawBody : jsstring;
  d_body : jsstring;
}.

(** The effect machinery around [run("summarize")]:
    - [a_ref]: [autoSummaryStateRef.current];
    - [a_current]: [currentEmailKeyRef.current];
    - [a_timer]: the pending 350 ms timer, with its [keyAtSchedule];
    - [a_cleanup]: the cleanup function the last effect run returned, with
      its [keyAtSchedule];
    - [a_running]: the [keyAtSchedule] of every timer callback that is
      awaiting [run("summarize")];
    - [a_attempts]: every attempt started so far, newest first, with the
      time written to [lastAttempt]. *)
Record Auto := {
  a_ref : gmap (list Z) KeyState;
  a_current : jsstring;
  a_timer : option jsstring;
  a_cleanup : option jsstring;
  a_running : list jsstring;
  a_attempts : list (jsstring * Z);
}.

(** The machinery of a panel that has just been mounted: both refs are
    new. *)
Definition initial : Auto :=
  {| a_ref := ∅; a_current := []; a_timer := None; a_cleanup := None;
     a_running := []; a_attempts := [] |}.

(** [const st2 = (ref[k] ||= {}); st2.inflight = false] *)
Definition clearInflight (k : jsstring) (ref : gmap (list Z) KeyState)
  : gmap (list Z) KeyState :=
  <[k := {| inflight := false; lastAttempt := lastAttempt (default noState (ref !! k)) |}]> ref.

(** The cleanup returned by an effect run that scheduled a timer. *)
Definition runCleanup (a : Auto) : Auto :=
  match a_cleanup a with
  | None => a
  | Some k =>
      {| a_ref := clearInflight k (a_ref a); a_current := a_current a;
         a_timer := None; a_cleanup := None;
         a_running := a_running a; a_attempts := a_attempts a |}
  end.

(** [st.lastAttempt && now - st.lastAttempt < 30000] *)
Definition throttled (now : Z) (st : KeyState) : bool :=
  match lastAttempt st with
  | Some l => negb (l =? 0) && (now - l <? 30000)
  | None => false
  end.

(** The body of the effect. An early [return] registers no cleanup. *)
Definition effectBody (ls : Store.LocalStorage) (now : Z) (d : Deps) (a : Auto) : Auto :=
  let idle (ref : gmap (list Z) KeyState) :=
    {| a_ref := ref; a_current := a_current a; a_timer := a_timer a;
       a_cleanup := None; a_running := a_running a; a_attempts := a_attempts a |} in
  if negb (truthy (strOrEmpty (d_conversationId d))) then idle (a_ref a)
  else if negb (truthy (d_emailKey d)) then idle (a_ref a)
  else if truthy (Store.loadSummary ls now (d_emailKey d)).1 then idle (a_ref a)
  else if negb (truthy (trim (if truthy (d_rawBody d) then d_rawBody d else d_body d)))
  then idle (a_ref a)
  else
    let st := default noState (a_ref a !! d_emailKey d) in
    let ref1 := <[d_emailKey d := st]> (a_ref a) in
    if inflight st then idle ref1
    else if throttled now st then idle ref1
    else
      {| a_ref := <[d_emailKey d := {| inflight := true; lastAttempt := Some now |}]> ref1;
         a_current := a_current a;
         a_timer := Some (d_emailKey d);
         a_cleanup := Some (d_emailKey d);
         a_running := a_running a;
         a_attempts := (d_emailKey d, now) :: a_attempts a |}.

(** A render whose dependencies changed: the previous cleanup, the effect
    that tracks the current key, then the body of the effect. *)
Definition rerender (ls : Store.LocalStorage) (now : Z) (d : Deps) (a : Auto) : Auto :=
  let a := runCleanup a in
  let a :=
    {| a_ref := a_ref a; a_current := d_emailKey d; a_timer := a_timer a;
       a_cleanup := a_cleanup a; a_running := a_running a;
       a_attempts := a_attempts a |} in
  effectBody ls now d a.

(** The timer fires: either the user has left the email and the callback
    returns through its [finally], or it calls [run("summarize")] and
    waits. *)
Definition timerFires (a : Auto) : Auto :=
  match a_timer a with
  | None => a
  | Some k =>
      if bool_decide (a_current a = k) then
        {| a_ref := a_ref a; a_current := a_current a; a_timer := None;
           a_cleanup := a_cleanup a; a_running := k :: a_running a;
           a_attempts := a_attempts a |}
      else
        {| a_ref := clearInflight k (a_ref a); a_current := a_current a;
           a_timer := None; a_cleanup := a_cleanup a;
           a_running := a_running a; a_attempts := a_attempts a |}
  end.

Fixpoint removeOne (k : jsstring) (l : list jsstring) : list jsstring :=
  match l with
  | [] => []
  | x :: l' => if bool_decide (x = k) then l' else x :: removeOne k l'
  end.

(** [run("summarize")] returned for the callback scheduled for [k]: its
    [finally] block runs. *)
Definition runSettles (k : jsstring) (a : Auto) : Auto :=
  if bool_decide (k ∈ a_running a) then
    {| a_ref := clearInflight k (a_ref a); a_current := a_current a;
       a_timer := a_timer a; a_cleanup := a_cleanup a;
       a_running := removeOne k (a_running a); a_attempts := a_attempts a |}
  else a.

Inductive Event :=
  | Rerender (ls : Store.LocalStorage) (now : Z) (d : Deps)
  | TimerFires
  | RunSettles (k : jsstring).

Definition step (a : Auto) (e : Event) : Auto :=
  match e with
  | Rerender ls now d => rerender ls now d a
  | TimerFires => timerFires a
  | RunSettles k => runSettles k a
  end.

(** The times at which renders happen are positive and do not go back. *)
Fixpoint clockOk (last : Z) (es : list Event) : Prop :=
  match es with
  | [] => True
  | Rerender _ now _ :: es' => 0 < now /\ last <= now /\ clockOk now es'
  | _ :: es' => clockOk last es'
  end.

End AutoSummary.

(** ** Draft composition and insertion *)

Module Insertion.

Definition AI_BLOCK_START : jsstring := js "<!--ICC_AI_START-->".
Definition AI_BLOCK_END : jsstring := js "<!--ICC_AI_END-->".

Definition DIV_OPEN : jsstring := js "<div data-icc-ai=" ++ [34] ++ js "1" ++ [34] ++ js ">".
Definition DIV_CLOSE : jsstring := js "</div>".

Definition wrapAiBlock (innerHtml : jsstring) : jsstring :=
  AI_BLOCK_START ++ DIV_OPEN ++ innerHtml ++ DIV_CLOSE ++ AI_BLOCK_END.

(** [s.startsWith(p)] *)
Fixpoint startsWith (p s : jsstring) : bool :=
  match p, s with
  | [], _ => true
  | _ :: _, [] => false
  | a :: p', b :: s' => (a =? b) && startsWith p' s'
  end.

(** [s.includes(sep)] *)
Fixpoint includes (sep s : jsstring) : bool :=
  startsWith sep s
  || match s with
     | [] => false
     | _ :: s' => includes sep s'
     end.

(** [s.split(sep)] for a non-empty [sep], in one pass: [cur] is the segment
    being read, reversed, and [skip] counts the code units of a separator
    just matched that are still to be passed over. *)
Fixpoint splitFrom (sep : jsstring) (skip : nat) (cur s : jsstring) : list jsstring :=
  match s with
  | [] => [rev cur]
  | c :: s' =>
      match skip with
      | S k => splitFrom sep k cur s'
      | O =>
          if startsWith sep s
          then rev cur :: splitFrom sep (length sep - 1) [] s'
          else splitFrom sep 0 (c :: cur) s'
      end
  end.

Definition split (sep s : jsstring) : list jsstring := splitFrom sep 0 [] s.

(** Number of positions at which [sep] occurs in [s]. *)
Fixpoint countOcc (sep s : jsstring) : nat :=
  (if startsWith sep s then 1 else 0)
  + match s with
    | [] => 0
    | _ :: s' => countOcc sep s'
    end.

(** What the host lets the add-in do with the body of the draft:
    [h_api] says that [Office], [item.body], [getAsync] and [setAsync]
    exist; the other fields say whether each asynchronous call succeeds and
    whether [prependAsync] exists. *)
Record Host := {
  h_api : bool;
  h_getOk : bool;
  h_setOk : bool;
  h_hasPrepend : bool;
  h_prependOk : bool;
}.

(** [replaceOrInsertAiBlock]: the promised boolean and the body of the
    draft afterwards.  A successful [setAsync(x)] makes the body [x] and a
    successful [prependAsync(x)] puts [x] in front of it; a failed call
    leaves it as it was. *)
Definition replaceOrInsertAiBlock (h : Host) (current htmlBlock : jsstring)
  : bool * jsstring :=
  if negb (h_api h) then (false, current)
  else if negb (h_getOk h) then (false, current)
  else
    let doSet (nextHtml : jsstring) :=
      if h_setOk h then (true, nextHtml) else (false, current) in
    if includes AI_BLOCK_START current && includes AI_BLOCK_END current then
      let before := default [] (split AI_BLOCK_START current !! 0%nat) in
      let after := default [] (split AI_BLOCK_END current !! 1%nat) in
      doSet (before ++ htmlBlock ++ after)
    else if h_hasPrepend h then
      (if h_prependOk h then (true, htmlBlock ++ current) else (false, current))
    else doSet (htmlBlock ++ current).

End Insertion.

(** ** The task pane shell ([ui/App.tsx]) *)

Module AppView.

Import Store.

#[export] Instance SummaryRow_eq_dec : EqDecision SummaryRow.
Proof. solve_decision. Defined.

Definition SUMMARY_KEEP_MS : Z := 5 * 24 * 60 * 60 * 1000.

(** The test of the pruning loop,
    [v && typeof v.ts === "number" && typeof v.text === "string" &&
    now - v.ts <= SUMMARY_KEEP_MS], on a [SummaryRow].  The text of a
    [SummaryRow] is a string, as in every row [upsertSummary] writes, so
    the third conjunct is true of it and the test comes down to the two on
    the timestamp; a stored row whose text is of another type, which the
    code prunes, is not a [SummaryRow]. *)
Definition rowValid (now : Z) (v : SummaryRow) : bool :=
  match s_ts v with
  | Some ts => now - ts <=? SUMMARY_KEEP_MS
  | None => false
  end.

(** [loadSummary] of the shell: the text it passes to [setSummaryTxt] and
    the storage afterwards.  The two [JSON.stringify] texts differ exactly
    when the pruned object lost an entry. *)
Definition loadSummary (ls : LocalStorage) (now : Z) (emailKey : jsstring)
  : jsstring * LocalStorage :=
  match ls_summary ls with
  | Corrupt => ([], ls)
  | st =>
      let obj := match st with Parsed m => m | _ => ∅ end in
      let pruned :=
        filter (fun kv : list Z * SummaryRow => rowValid now kv.2 = true) obj in
      let txt := match pruned !! emailKey with Some v => s_text v | None => [] end in
      if bool_decide (pruned <> obj)
      then (if ls_full ls then ([], ls) else (txt, set_summary ls (Parsed pruned)))
      else (txt, ls)
  end.

(** The listener for [icc-summary-updated] of a shell that shows
    [emailKey]: the summary text it displays afterwards. *)
Definition onSummaryUpdated (emailKey : jsstring) (ev : SummaryUpdated)
    (ls : LocalStorage) (summaryTxt : jsstring) : jsstring :=
  let k := ev_emailKey ev in
  if negb (truthy k) || negb (bool_decide (k = emailKey)) then summaryTxt
  else
    match ls_summary ls with
    | Corrupt => summaryTxt
    | Absent => []
    | Parsed obj => match obj !! k with Some v => s_text v | None => [] end
    end.

(** [loadContextAndLinks]: every call takes the next request number; each
    continuation after an [await] applies its result only if no later call
    has started.  [l_shown] is the number of the request whose context is
    displayed and [l_applied] lists, newest first, the requests whose
    results were applied. *)
Section Loader.

Variable Link : Type.

Record LoadState := {
  l_seq : nat;
  l_ctx : Identity.OutlookMessageContext;
  l_links : list Link;
  l_msg : option jsstring;
  l_showThread : bool;
  l_applied : list nat;
}.

Inductive LoadEvent :=
  | Called
  | CtxResolved (reqId : nat) (c : Identity.OutlookMessageContext)
  | CtxRejected (reqId : nat) (message : jsstring)
  | LinksResolved (reqId : nat) (l : list Link)
  | LinksRejected (reqId : nat) (message : jsstring).

(** The message shown when the item has no conversation. *)
Variable noItemMessage : jsstring.

Definition loadStep (s : LoadState) (e : LoadEvent) : LoadState :=
  match e with
  | Called =>
      {| l_seq := S (l_seq s); l_ctx := l_ctx s; l_links := l_links s;
         l_msg := l_msg s; l_showThread := l_showThread s;
         l_applied := l_applied s |}
  | CtxResolved reqId c =>
      if negb (reqId =? l_seq s)%nat then s
      else if negb (truthy (strOrEmpty (Identity.conversationId c))) then
        {| l_seq := l_seq s; l_ctx := c; l_links := [];
           l_msg := Some noItemMessage; l_showThread := false;
           l_applied := reqId :: l_applied s |}
      else
        {| l_seq := l_seq s; l_ctx := c; l_links := l_links s;
           l_msg := None; l_showThread := false;
           l_applied := reqId :: l_applied s |}
  | CtxRejected reqId message =>
      if negb (reqId =? l_seq s)%nat then s
      else
        {| l_seq := l_seq s; l_ctx := l_ctx s; l_links := l_links s;
           l_msg := Some message; l_showThread := l_showThread s;
           l_applied := reqId :: l_applied s |}
  | LinksResolved reqId l =>
      if negb (reqId =? l_seq s)%nat then s
      else
        {| l_seq := l_seq s; l_ctx := l_ctx s; l_links := l;
           l_msg := l_msg s; l_showThread := l_showThread s;
           l_applied := reqId :: l_applied s |}
  | LinksRejected reqId message =>
      if negb (reqId =? l_seq s)%nat then s
      else
        {| l_seq := l_seq s; l_ctx := l_ctx s; l_links := l_links s;
           l_msg := Some message; l_showThread := l_showThread s;
           l_applied := reqId :: l_applied s |}
  end.

End Loader.

(** The [useMemo] that holds [emailKey] in [AiPanel]: the key is computed
    again only when one of the five listed dependencies changed since the
    render that computed it. *)
Definition memoDeps (c : Identity.AnyCtx) :=
  (Identity.a_conversationId c, Identity.a_internetMessageId c,
   Identity.a_itemId c, Identity.a_id c, Identity.a_subject c).

Definition memoEmailKey (toLowerCase : jsstring -> jsstring)
    (computedFor : option Identity.AnyCtx) (c : Identity.AnyCtx) : jsstring :=
  match computedFor with
  | Some c0 =>
      if bool_decide (memoDeps c0 = memoDeps c)
      then Identity.makeEmailKey toLowerCase c0
      else Identity.makeEmailKey toLowerCase c
  | None => Identity.makeEmailKey toLowerCase c
  end.

End AppView.

(** ** Text helpers of the panel *)

Module Compose.

(** [s.replace(/c/g, rep)] for a pattern that is one code unit. *)
Definition replaceAll1 (c : Z) (rep : jsstring) (s : jsstring) : jsstring :=
  List.flat_map (fun x => if x =? c then rep else [x]) s.

(** [escapeHtml]: five replacements, one after the other. *)
Definition escapeHtml (s : jsstring) : jsstring :=
  replaceAll1 39 (js "&#039;")
    (replaceAll1 34 (js "&quot;")
       (replaceAll1 62 (js "&gt;")
          (replaceAll1 60 (js "&lt;")
             (replaceAll1 38 (js "&amp;") s)))).

Definition PRE_OPEN : jsstring :=
  js "<pre style=" ++ [34] ++ js "white-space:pre-wrap;font-family:inherit" ++ [34]
  ++ js ">".
Definition PRE_CLOSE : jsstring := js "</pre>".

(** [buildHtmlForInsert], on the outputs of the active slot. *)
Definition buildHtmlForInsert (htmlOut textOut : jsstring) : jsstring :=
  if truthy htmlOut then htmlOut
  else if truthy textOut then PRE_OPEN ++ escapeHtml textOut ++ PRE_CLOSE
  else [].

(** Canonicalisation of a code unit by a regular expression with the [i]
    flag: upper case, where a code unit outside ASCII never becomes an
    ASCII one; on the letters and the colon of the patterns below this is
    ASCII upper-casing. *)
Definition canonicalize (c : Z) : Z :=
  if (97 <=? c) && (c <=? 122) then c - 32 else c.

Fixpoint startsWithCI (p s : jsstring) : bool :=
  match p, s with
  | [], _ => true
  | _ :: _, [] => false
  | a :: p', b :: s' => (canonicalize a =? canonicalize b) && startsWithCI p' s'
  end.

(** [/^\s*p\s*/i.test(s)] for a literal [p] that begins with a letter. *)
Definition testPrefix (p s : jsstring) : bool :=
  startsWithCI p (dropWhile isWhiteSpace s).

Definition makeReplySubject (subject : option jsstring) : jsstring :=
  let s := trim (strOrEmpty subject) in
  if negb (truthy s) then []
  else if testPrefix (js "re:") s then s
  else js "RE: " ++ s.

Definition makeForwardSubject (subject : option jsstring) : jsstring :=
  let s := trim (strOrEmpty subject) in
  if negb (truthy s) then []
  else if testPrefix (js "fw:") s || testPrefix (js "fwd:") s then s
  else js "FW: " ++ s.

End Compose.

(** ** Inserting the result into the open draft *)

Module Draft.

Import Insertion Compose.

Inductive SigMode := SigOff | SigText | SigHtml | SigImage.

(** The signature settings the panel holds in its state. *)
Record Signature := {
  sigMode : SigMode;
  sigText : jsstring;
  sigHtml : jsstring;
  sigImgUrl : jsstring;
  sigImgDataUrl : jsstring;
  sigImgMaxW : jsstring;
}.

Definition SIG_HTML_OPEN : jsstring :=
  js "<div class=" ++ [34] ++ js "icc-sig" ++ [34] ++ js ">".

Definition SIG_TEXT_OPEN : jsstring :=
  js "<div class=" ++ [34] ++ js "icc-sig" ++ [34] ++ js " style=" ++ [34]
  ++ js "white-space:pre-wrap" ++ [34] ++ js "><br/>".

Definition SIG_IMG_OPEN : jsstring :=
  js "<div class=" ++ [34] ++ js "icc-sig" ++ [34] ++ js "><br/><img src=" ++ [34].

Definition SIG_IMG_MID : jsstring :=
  [34] ++ js " alt=" ++ [34; 34] ++ js " style=" ++ [34] ++ js "max-width:".

Definition SIG_IMG_CLOSE : jsstring :=
  js "px;height:auto;display:block;" ++ [34] ++ js "/></div>".

Definition SIG_CLOSE : jsstring := js "</div>".

(** What the host lets the add-in do with the open item.  A method that is
    missing is [None]; otherwise the boolean says whether the call made by
    [replaceOrInsertAiBlock] succeeds.  [mb_prependRetry] and [mb_setRetry]
    are the outcomes of the calls [insertIntoCurrentDraft] makes itself. *)
Record Mailbox := {
  mb_item : bool;
  mb_body : bool;
  mb_get : option bool;
  mb_set : option bool;
  mb_prepend : option bool;
  mb_selected : option bool;
  mb_append : option bool;
  mb_prependRetry : bool;
  mb_setRetry : bool;
}.

Definition toHost (m : Mailbox) : Host :=
  {| h_api := mb_item m && mb_body m && bool_decide (is_Some (mb_get m))
              && bool_decide (is_Some (mb_set m));
     h_getOk := bool_decide (mb_get m = Some true);
     h_setOk := bool_decide (mb_set m = Some true);
     h_hasPrepend := bool_decide (is_Some (mb_prepend m));
     h_prependOk := bool_decide (mb_prepend m = Some true) |}.

(** What the user is told. *)
Inductive Outcome :=
  | Silent
  | NoticeReplaced       (* "Conteudo inserido (substituido) no rascunho." *)
  | NoticeAtCursor       (* "Inserido no rascunho (no cursor)." *)
  | NoticeAtTop          (* "Inserido no rascunho (no topo)." *)
  | NoticeAtEnd          (* "Inserido no rascunho (no fim)." *)
  | NoticeBodyReplaced   (* "Inserido no rascunho (substituiu o corpo, ...)." *)
  | ErrNoItem
  | ErrNoBody
  | ErrCallFailed
  | ErrUnavailable.

Section Insert.

(** [parseInt(s, 10)], [None] for [NaN]; the decimal text of a number; and
    the draft after [setSelectedDataAsync] put a text at the cursor. *)
Variable parseInt10 : jsstring -> option Z.
Variable numberToString : Z -> jsstring.
Variable atCursor : jsstring -> jsstring -> jsstring.

Definition buildSignatureHtml (g : Signature) : jsstring :=
  match sigMode g with
  | SigOff => []
  | SigHtml =>
      let h := trim (sigHtml g) in
      if truthy h then SIG_HTML_OPEN ++ h ++ SIG_CLOSE else []
  | SigImage =>
      let data := trim (sigImgDataUrl g) in
      let url := trim (sigImgUrl g) in
      let src := if truthy data then data else url in
      if negb (truthy src) then []
      else
        let parsed :=
          match parseInt10 (if truthy (sigImgMaxW g) then sigImgMaxW g else js "260") with
          | Some v => if v =? 0 then 260 else v
          | None => 260
          end in
        let w := Z.max 120 (Z.min 600 parsed) in
        let safeSrc := if startsWith (js "data:") src then src else escapeHtml src in
        SIG_IMG_OPEN ++ safeSrc ++ SIG_IMG_MID ++ numberToString w ++ SIG_IMG_CLOSE
  | SigText =>
      let t := trim (sigText g) in
      if negb (truthy t) then []
      else SIG_TEXT_OPEN ++ escapeHtml t ++ SIG_CLOSE
  end.

(** [html] followed by the signature, as [insertIntoCurrentDraft] joins
    them. *)
Definition withSignature (g : Signature) (html : jsstring) : jsstring :=
  let sig := buildSignatureHtml g in
  if truthy sig then html ++ sig else html.

(** [insertIntoCurrentDraft]: what the user is told and the body of the
    draft afterwards. *)
Definition insertIntoCurrentDraft (m : Mailbox) (g : Signature)
    (htmlOut textOut current : jsstring) : Outcome * jsstring :=
  if negb (mb_item m) then (ErrNoItem, current)
  else
    let html := buildHtmlForInsert htmlOut textOut in
    if negb (truthy html) then (Silent, current)
    else
      let htmlWithSig := withSignature g html in
      let htmlBlock := wrapAiBlock htmlWithSig in
      let '(didReplace, body1) := replaceOrInsertAiBlock (toHost m) current htmlBlock in
      if didReplace then (NoticeReplaced, body1)
      else if negb (mb_body m) then (ErrNoBody, body1)
      else
        match mb_selected m with
        | Some ok =>
            if ok then (NoticeAtCursor, atCursor body1 htmlWithSig)
            else (ErrCallFailed, body1)
        | None =>
            match mb_prepend m with
            | Some _ =>
                if mb_prependRetry m then (NoticeAtTop, htmlWithSig ++ body1)
                else (ErrCallFailed, body1)
            | None =>
                match mb_append m with
                | Some ok =>
                    if ok then (NoticeAtEnd, body1 ++ htmlWithSig)
                    else (ErrCallFailed, body1)
                | None =>
                    match mb_set m with
                    | Some _ =>
                        if mb_setRetry m then (NoticeBodyReplaced, htmlWithSig)
                        else (ErrCallFailed, body1)
                    | None => (ErrUnavailable, body1)
                    end
                end
            end
        end.

End Insert.

End Draft.

(** ** Body text sent to the generator *)

Module Body.

(** [s.indexOf(sub)]; [None] stands for [-1]. *)
Fixpoint indexOf (sub s : jsstring) : option nat :=
  if Insertion.startsWith sub s then Some 0%nat
  else match s with
       | [] => None
       | _ :: s' => option_map S (indexOf sub s')
       end.

(** The signature delimiter: a line that holds two dashes and a space. *)
Definition SIG : jsstring := [10] ++ js "-- " ++ [10].

(** [const sig = s.indexOf(SIG); if (sig > 0) s = s.slice(0, sig)] *)
Definition cutSignature (s : jsstring) : jsstring :=
  match indexOf SIG s with
  | Some (S n) => firstn (S n) s
  | _ => s
  end.

Definition trimEmailBodyFull (raw : jsstring) : jsstring :=
  if negb (truthy raw) then []
  else trim (firstn (Z.to_nat 9000) (cutSignature raw)).

Section Quote.

(** [s.match(rx)?.index] for each of the eight quote markers, in order. *)
Variable markers : list (jsstring -> option nat).

Definition MIN_QUOTE_INDEX : nat := 220.

Definition cutAt (s : jsstring) : nat :=
  fold_left
    (fun cut rx =>
       match rx s with
       | None => cut
       | Some idx => if (idx <? MIN_QUOTE_INDEX)%nat then cut else Nat.min cut idx
       end)
    markers (length s).

Definition trimEmailBody (raw : jsstring) : jsstring :=
  if negb (truthy raw) then []
  else trim (firstn (Z.to_nat 4500) (cutSignature (firstn (cutAt raw) raw))).

End Quote.

End Body.

(** ** Language of the reply *)

Module Locale.

Inductive AppLocale := ptPT | esES | enGB | itIT | deDE.

#[export] Instance AppLocale_eq_dec : EqDecision AppLocale.
Proof. solve_decision. Defined.

Definition localeName (l : AppLocale) : jsstring :=
  match l with
  | ptPT => js "pt-PT"
  | esES => js "es-ES"
  | enGB => js "en-GB"
  | itIT => js "it-IT"
  | deDE => js "de-DE"
  end.

(** ["auto" | AppLocale] *)
Inductive LangOption := LangAuto | LangOf (l : AppLocale).

(** The keys of [scores], in the order [Object.keys] lists them. *)
Definition ALL_LOCALES : list AppLocale := [ptPT; esES; enGB; itIT; deDE].

Definition phrases (l : AppLocale) : list jsstring :=
  match l with
  | ptPT => [ js " bom dia"; js " obrigado"; js " por favor"; js " cumprimentos";
              js " nao "; js " pode "; js " preciso " ]
  | esES => [ js " hola"; js " gracias"; js " por favor"; js " saludos";
              js " necesito"; js " presupuesto"; js " podria" ]
  | enGB => [ js " hello"; js " thank"; js " thanks"; js " please"; js " regards";
              js " best regards"; js " could you"; js " quotation" ]
  | itIT => [ js " buongiorno"; js " grazie"; js " per favore"; js " cordiali";
              js " saluti"; js " preventivo"; js " potresti" ]
  | deDE => [ js " hallo"; js " danke"; js " bitte"; js " mit freundlichen";
              js " angebot"; js " konnten sie"; js " grusse"; js " gruessen" ]
  end.

(** [phrases.reduce((acc, p) => (t.includes(p) ? acc + 1 : acc), 0)] *)
Definition score (t : jsstring) (ps : list jsstring) : Z :=
  fold_left (fun acc p => if Insertion.includes p t then acc + 1 else acc) ps 0.

Section Detect.

(** [stripDiacritics(String(text || "").toLowerCase())]: Unicode case
    folding and normalisation, provided by the runtime. *)
Variable fold : jsstring -> jsstring.

Definition scores (text : option jsstring) (l : AppLocale) : Z :=
  score (fold (strOrEmpty text)) (phrases l).

Definition detectLocaleFromText (text : option jsstring) : AppLocale :=
  (fold_left
     (fun (acc : AppLocale * Z) k =>
        if scores text k >? acc.2 then (k, scores text k) else acc)
     ALL_LOCALES (ptPT, -1)).1.

Definition resolveLocale (lang : LangOption) (textForDetection : option jsstring)
    (fallback : AppLocale) : AppLocale :=
  match lang with
  | LangOf l => l
  | LangAuto =>
      let detected := detectLocaleFromText textForDetection in
      if truthy (localeName detected) then detected else fallback
  end.

End Detect.

End Locale.

(** ** Reading the recipients of the open item ([office.ts]) *)

Module OfficeItem.

(** An entry of [item.to] or [item.cc] as the host gives it. *)
Record EmailAddressDetails := {
  displayName : option jsstring;
  emailAddress : option jsstring;
}.

(** [normalizeRecipients]; [None] is a value that is not an array. *)
Definition normalizeRecipients (arr : option (list EmailAddressDetails))
  : list Identity.Recipient :=
  match arr with
  | None => []
  | Some l =>
      List.filter (fun r => truthy (Identity.rc_email r))
        (map (fun r => {| Identity.rc_name := trim (strOrEmpty (displayName r));
                          Identity.rc_email := trim (strOrEmpty (emailAddress r)) |})
           l)
  end.

End OfficeItem.

(** * Properties *)

(** ** Identity resolver *)

Section IdentityFacts.

Import Identity.

Variable toLowerCase : jsstring -> jsstring.

Lemma ToInt32_mod (x : Z) : ToInt32 x mod 2 ^ 32 = x mod 2 ^ 32.
Proof.
  unfold ToInt32. cbv zeta.
  destruct (x mod 2 ^ 32 <? 2 ^ 31).
  - apply Z.mod_mod. lia.
  - replace (x mod 2 ^ 32 - 2 ^ 32) with (x mod 2 ^ 32 + (-1) * 2 ^ 32) by lia.
    rewrite Z.mod_add by lia. apply Z.mod_mod. lia.
Qed.

Lemma lxor_mod32 (a b : Z) :
  Z.lxor a b mod 2 ^ 32 = Z.lxor (a mod 2 ^ 32) (b mod 2 ^ 32).
Proof.
  apply Z.bits_inj'. intros n Hn.
  destruct (Z_lt_le_dec n 32) as [Hlt | Hge].
  - rewrite Z.mod_pow2_bits_low by lia.
    rewrite !Z.lxor_spec. rewrite !Z.mod_pow2_bits_low by lia. reflexivity.
  - rewrite Z.mod_pow2_bits_high by lia.
    rewrite Z.lxor_spec. rewrite !Z.mod_pow2_bits_high by lia. reflexivity.
Qed.

Lemma xor32_mod (h c : Z) :
  xor32 h c mod 2 ^ 32 = Z.lxor (h mod 2 ^ 32) (c mod 2 ^ 32).
Proof.
  unfold xor32. rewrite ToInt32_mod, lxor_mod32, !ToInt32_mod. reflexivity.
Qed.

Lemma shl32_mod (x k : Z) :
  0 <= k -> shl32 x k mod 2 ^ 32 = (x mod 2 ^ 32 * 2 ^ k) mod 2 ^ 32.
Proof.
  intros Hk. unfold shl32. rewrite ToInt32_mod, Z.shiftl_mul_pow2 by lia.
  rewrite <- (Z.mul_mod_idemp_l (ToInt32 x)) by lia.
  rewrite ToInt32_mod. reflexivity.
Qed.

Lemma add_mod32_congr (a a' b b' : Z) :
  a mod 2 ^ 32 = a' mod 2 ^ 32 -> b mod 2 ^ 32 = b' mod 2 ^ 32 ->
  (a + b) mod 2 ^ 32 = (a' + b') mod 2 ^ 32.
Proof.
  intros Ha Hb. rewrite Z.add_mod by lia. rewrite Ha, Hb.
  rewrite <- Z.add_mod by lia. reflexivity.
Qed.

(** One round of the source loop is one round of FNV-1a modulo 2^32: the
    five shifts and the addition multiply by the FNV prime. *)
Lemma fnv1a_round_mod (h c : Z) :
  fnv1a_round h c mod 2 ^ 32
  = (Z.lxor (h mod 2 ^ 32) (c mod 2 ^ 32) * FNV_PRIME) mod 2 ^ 32.
Proof.
  unfold fnv1a_round. cbv zeta.
  rewrite <- (xor32_mod h c).
  set (h1 := xor32 h c). set (m := h1 mod 2 ^ 32).
  transitivity ((m + (m * 2 ^ 1 + m * 2 ^ 4 + m * 2 ^ 7 + m * 2 ^ 8 + m * 2 ^ 24))
                mod 2 ^ 32).
  - apply add_mod32_congr; [unfold m; rewrite Z.mod_mod by lia; reflexivity |].
    repeat apply add_mod32_congr;
      rewrite shl32_mod by lia; reflexivity.
  - f_equal. unfold FNV_PRIME. lia.
Qed.

Lemma spec_round_mod (h c : Z) :
  (Z.lxor h c * FNV_PRIME) mod 2 ^ 32
  = (Z.lxor (h mod 2 ^ 32) (c mod 2 ^ 32) * FNV_PRIME) mod 2 ^ 32.
Proof.
  rewrite <- lxor_mod32. rewrite Z.mul_mod_idemp_l by lia. reflexivity.
Qed.

Lemma fnv1a_fold_refines (str : jsstring) (h hs : Z) :
  h mod 2 ^ 32 = hs mod 2 ^ 32 ->
  fold_left fnv1a_round str h mod 2 ^ 32
  = fold_left (fun a c => (Z.lxor a c * FNV_PRIME) mod 2 ^ 32) str hs mod 2 ^ 32.
Proof.
  revert h hs. induction str as [| c str IH]; intros h hs Heq; simpl.
  - exact Heq.
  - apply IH. rewrite fnv1a_round_mod, Z.mod_mod by lia.
    rewrite (spec_round_mod hs c). rewrite Heq. reflexivity.
Qed.

Lemma fnv1a32_spec_range (data : jsstring) : 0 <= fnv1a32_spec data < 2 ^ 32.
Proof.
  unfold fnv1a32_spec.
  assert (H0 : 0 <= FNV_OFFSET_BASIS < 2 ^ 32) by (unfold FNV_OFFSET_BASIS; lia).
  revert H0. generalize FNV_OFFSET_BASIS.
  induction data as [| c data IH]; intros z Hz; simpl.
  - exact Hz.
  - apply IH. apply Z.mod_pos_bound. lia.
Qed.

(** The digest the source computes with signed shifts is the unsigned
    FNV-1a digest. *)
Lemma fnv1a_loop_refines (str : jsstring) :
  ToUint32 (fnv1a_loop str) = fnv1a32_spec str.
Proof.
  unfold ToUint32, fnv1a_loop.
  rewrite (fnv1a_fold_refines str 2166136261 FNV_OFFSET_BASIS) by reflexivity.
  apply Z.mod_small. apply fnv1a32_spec_range.
Qed.

Lemma strOrEmpty_orElse_empty (v : option jsstring) :
  strOrEmpty (orElse v (Some [])) = strOrEmpty v.
Proof. destruct v as [[| c s] |]; reflexivity. Qed.

(** C2. For every metadata input [makeEmailKey] returns [thread::message]
    when a thread and a message identifier are present, else [thread::item]
    when a thread and an item identifier are present, and otherwise
    [nocid::h] followed by the hexadecimal unsigned 32-bit FNV-1a digest of
    the pipe-joined tuple (subject lower-cased with white space collapsed,
    sender lower-cased, primary recipient lower-cased). *)
Theorem makeEmailKey_refines_resolve_spec (ctx : AnyCtx) :
  makeEmailKey toLowerCase ctx = resolve_spec toLowerCase ctx.
Proof.
  unfold makeEmailKey, resolve_spec, present, fallback_tuple_spec, normEmail, normStr.
  cbv zeta.
  destruct (truthy (trim (strOrEmpty (a_conversationId ctx)))
            && truthy (trim (strOrEmpty (a_internetMessageId ctx)))); [reflexivity |].
  destruct (truthy (trim (strOrEmpty (a_conversationId ctx)))
            && truthy (trim (strOrEmpty (orElse (a_itemId ctx) (a_id ctx)))));
    [reflexivity |].
  unfold fnv1a. rewrite fnv1a_loop_refines, strOrEmpty_orElse_empty. reflexivity.
Qed.

(** C10. Two host contexts that both take the fallback branch and agree on
    subject and sender address get the same key whatever their To and Cc
    lists are: the third hashed component is read from [toEmail], which
    [OutlookMessageContext] does not have, so it is the lower-cased empty
    string. *)
Theorem fallback_key_ignores_recipients (c1 c2 : OutlookMessageContext) :
  in_fallback (asAny c1) = true ->
  in_fallback (asAny c2) = true ->
  subject c1 = subject c2 ->
  fromEmail c1 = fromEmail c2 ->
  makeEmailKey toLowerCase (asAny c1) = makeEmailKey toLowerCase (asAny c2)
  /\ makeEmailKey toLowerCase (asAny c1)
     = js "nocid::h"
       ++ fnv1a (join (js "|")
                   [ toLowerCase (collapseWs (normStr (subject c1)));
                     normEmail toLowerCase (fromEmail c1);
                     toLowerCase [] ]).
Proof.
  assert (Hfb : forall c, in_fallback (asAny c) = true ->
            makeEmailKey toLowerCase (asAny c)
            = js "nocid::h"
              ++ fnv1a (join (js "|")
                          [ toLowerCase (collapseWs (normStr (subject c)));
                            normEmail toLowerCase (fromEmail c);
                            toLowerCase [] ])).
  { intros c Hc. unfold in_fallback, present in Hc.
    apply andb_prop in Hc as [H1 H2].
    apply negb_true_iff in H1. apply negb_true_iff in H2.
    unfold makeEmailKey, normEmail, normStr.
    cbn [asAny a_conversationId a_internetMessageId
      a_itemId a_id a_subject a_fromEmail a_from a_toEmail] in *.
    cbv zeta. rewrite H1, H2.
    replace (strOrEmpty (orElse (fromEmail c) None)) with (strOrEmpty (fromEmail c))
      by (destruct (fromEmail c) as [[| x s] |]; reflexivity).
    reflexivity. }
  intros F1 F2 Hs Hf. split.
  - rewrite (Hfb c1 F1), (Hfb c2 F2), Hs, Hf. reflexivity.
  - apply Hfb, F1.
Qed.

(** Every key holds a colon (code unit 58): it names no property that an
    object inherits, such as [constructor] or [toString]. *)
Lemma makeEmailKey_colon (c : AnyCtx) : In 58 (makeEmailKey toLowerCase c).
Proof.
  unfold makeEmailKey. cbv zeta.
  destruct (truthy (normStr (a_conversationId c)) && truthy (normStr (a_internetMessageId c)));
    [apply in_or_app; right; left; reflexivity |].
  destruct (truthy (normStr (a_conversationId c))
            && truthy (normStr (orElse (a_itemId c) (a_id c))));
    [apply in_or_app; right; left; reflexivity |].
  apply in_or_app. left. vm_compute. tauto.
Qed.

End IdentityFacts.

(** The two scenarios of the specification, evaluated. *)
Example makeEmailKey_thread_message :
  Identity.makeEmailKey asciiLower
    {| Identity.a_conversationId := Some (js "T1");
       Identity.a_internetMessageId := Some (js "M1");
       Identity.a_itemId := None; Identity.a_id := None;
       Identity.a_subject := Some (js "Quote");
       Identity.a_fromEmail := Some (js "a@x.com");
       Identity.a_from := None; Identity.a_toEmail := None |}
  = js "T1::M1".
Proof. vm_compute. reflexivity. Qed.

Example makeEmailKey_fallback :
  Identity.makeEmailKey asciiLower
    {| Identity.a_conversationId := None;
       Identity.a_internetMessageId := None;
       Identity.a_itemId := None; Identity.a_id := None;
       Identity.a_subject := Some (js "Hello");
       Identity.a_fromEmail := Some (js "Bob@Example.com ");
       Identity.a_from := None; Identity.a_toEmail := None |}
  = js "nocid::h" ++ Identity.fnv1a (js "hello|bob@example.com|").
Proof. vm_compute. reflexivity. Qed.

Example fnv1a_empty : Identity.fnv1a [] = js "811c9dc5".
Proof. vm_compute. reflexivity. Qed.

Example fnv1a_a : Identity.fnv1a (js "a") = js "e40c292c".
Proof. vm_compute. reflexivity. Qed.

Definition ctx_no_ids (to : list Identity.Recipient) : Identity.OutlookMessageContext :=
  {| Identity.subject := Some (js "Hello");
     Identity.fromEmail := Some (js "bob@example.com");
     Identity.fromName := None;
     Identity.internetMessageId := None;
     Identity.conversationId := None;
     Identity.itemId := None;
     Identity.receivedDateTimeIso := None;
     Identity.toRecipients := Some to;
     Identity.ccRecipients := None |}.

Lemma fallback_key_ignores_recipients_witness :
  Identity.makeEmailKey asciiLower
    (Identity.asAny (ctx_no_ids [ {| Identity.rc_name := js "Ann";
                                     Identity.rc_email := js "ann@x.com" |} ]))
  = Identity.makeEmailKey asciiLower
      (Identity.asAny (ctx_no_ids [ {| Identity.rc_name := js "Zed";
                                       Identity.rc_email := js "zed@y.org" |} ])).
Proof.
  apply (fallback_key_ignores_recipients asciiLower
           (ctx_no_ids [ {| Identity.rc_name := js "Ann";
                            Identity.rc_email := js "ann@x.com" |} ])
           (ctx_no_ids [ {| Identity.rc_name := js "Zed";
                            Identity.rc_email := js "zed@y.org" |} ]));
    reflexivity.
Defined.

(** ** Time-boxed stores *)

Section StoreFacts.

Import Store.

(** A stored namespace holds no row that the prune test would delete. *)
Definition summaries_pruned (now : Z) (ls : LocalStorage) : Prop :=
  forall m k row, ls_summary ls = Parsed m -> m !! k = Some row ->
    summaryFresh now row = true.

Definition workspaces_pruned (now : Z) (ls : LocalStorage) : Prop :=
  forall m k v, ls_workspace ls = Parsed m -> m !! k = Some v ->
    is_Some (reviveWorkspace now k v).

Definition history_pruned (now : Z) (ls : LocalStorage) : Prop :=
  forall l x, ls_historyV2 ls = Parsed l -> In x l -> historyFresh now x = true.

Lemma KEEP_pos : 0 < WORKSPACE_KEEP_MS.
Proof. unfold WORKSPACE_KEEP_MS. lia. Qed.

Lemma upsertSummary_stored (ls : LocalStorage) (T : Z) (k text cid : jsstring) :
  ls_summary ls <> Corrupt -> ls_full ls = false -> T <> 0 ->
  exists m, ls_summary (upsertSummary ls T k text cid).1 = Parsed m
    /\ m !! k = Some {| s_ts := Some T; s_text := text; s_conversationId := Some cid |}
    /\ (forall k' row, m !! k' = Some row -> summaryFresh T row = true).
Proof.
  intros Hc Hf HT. unfold upsertSummary. rewrite Hf.
  destruct (ls_summary ls) as [| | m0] eqn:E; [| congruence |]; cbn.
  all: eexists; split; [reflexivity |]; split.
  all: try (intros k' row Hrow; apply map_lookup_filter_Some in Hrow as [_ Hfr];
            exact Hfr).
  all: apply map_lookup_filter_Some; split; [apply lookup_insert_eq |].
  all: unfold summaryFresh; cbn.
  all: replace (T - T) with 0 by lia.
  all: destruct (Z.eqb_spec T 0); [contradiction | reflexivity].
Qed.

Lemma loadSummary_of_row (ls : LocalStorage) (m : gmap (list Z) SummaryRow)
    (k text : jsstring) (cid : option jsstring) (T now : Z) :
  ls_summary ls = Parsed m ->
  m !! k = Some {| s_ts := Some T; s_text := text; s_conversationId := cid |} ->
  (loadSummary ls now k).1 = if now - T >? WORKSPACE_KEEP_MS then [] else text.
Proof.
  intros Hm Hk. unfold loadSummary. rewrite Hm, Hk. cbn.
  destruct (now - T >? WORKSPACE_KEEP_MS); reflexivity.
Qed.

Lemma size_map_imap_le {A B} (f : list Z -> A -> option B) (m : gmap (list Z) A) :
  (size (map_imap f m) <= size m)%nat.
Proof.
  induction m as [| i x m Hi IH] using map_ind.
  - rewrite map_imap_empty. rewrite !map_size_empty. lia.
  - rewrite map_imap_insert. rewrite (map_size_insert_None i x m Hi).
    assert (Hn : map_imap f m !! i = None)
      by (rewrite map_lookup_imap, Hi; reflexivity).
    destruct (f i x) as [y |].
    + rewrite (map_size_insert_None i y _ Hn). lia.
    + rewrite delete_id by exact Hn. lia.
Qed.

Lemma size_map_imap_eq {A B} (f : list Z -> A -> option B) (m : gmap (list Z) A) :
  size (map_imap f m) = size m ->
  forall k v, m !! k = Some v -> is_Some (f k v).
Proof.
  induction m as [| i x m Hi IH] using map_ind; intros Hsz k v Hk.
  - rewrite lookup_empty in Hk. discriminate.
  - rewrite map_imap_insert in Hsz. rewrite (map_size_insert_None i x m Hi) in Hsz.
    assert (Hn : map_imap f m !! i = None)
      by (rewrite map_lookup_imap, Hi; reflexivity).
    pose proof (size_map_imap_le f m) as Hle.
    destruct (f i x) as [y |] eqn:Efx.
    + rewrite (map_size_insert_None i y _ Hn) in Hsz.
      destruct (decide (i = k)) as [-> | Hne].
      * rewrite lookup_insert_eq in Hk. injection Hk as <-. rewrite Efx. eauto.
      * rewrite lookup_insert_ne in Hk by exact Hne. apply IH; [lia | exact Hk].
    + rewrite delete_id in Hsz by exact Hn. lia.
Qed.

Lemma reviveWorkspace_idem (now : Z) (k : list Z) (v v' : EmailWorkspace) :
  reviveWorkspace now k v = Some v' -> reviveWorkspace now k v' = Some v'.
Proof.
  unfold reviveWorkspace.
  destruct (match ws_updatedAt v with Some u => Some u | None => ws_ts v end)
    as [u |]; [| discriminate].
  destruct ((u =? 0) || (now - u >? WORKSPACE_KEEP_MS)) eqn:E; [discriminate |].
  intros [= <-]. cbn. rewrite E. reflexivity.
Qed.

Lemma reviveWorkspace_written (now T : Z) (ws : EmailWorkspace) :
  ws_updatedAt ws = Some T -> T <> 0 ->
  reviveWorkspace now (ws_key ws) ws
  = if now - T >? WORKSPACE_KEEP_MS then None else Some ws.
Proof.
  intros Hu HT. unfold reviveWorkspace. rewrite Hu.
  destruct (Z.eqb_spec T 0); [contradiction |]. cbn.
  destruct (now - T >? WORKSPACE_KEEP_MS); [reflexivity |].
  destruct ws; cbn in *. subst. reflexivity.
Qed.

Lemma loadWorkspaces_full (ls : LocalStorage) (now : Z) :
  ls_full (loadWorkspaces ls now).2 = ls_full ls.
Proof.
  unfold loadWorkspaces.
  destruct (ls_workspace ls) as [| | m]; cbn; try reflexivity.
  destruct (size (map_imap (reviveWorkspace now) m) =? size m)%nat; cbn;
    [reflexivity |].
  destruct (ls_full ls) eqn:E; cbn; [exact E | exact E].
Qed.

Lemma loadWorkspaces_parsed (ls : LocalStorage) (now : Z)
    (data : gmap (list Z) EmailWorkspace) :
  ls_full ls = false -> ls_workspace ls = Parsed data ->
  (loadWorkspaces ls now).1 = map_imap (reviveWorkspace now) data.
Proof.
  intros Hf Hd. unfold loadWorkspaces. rewrite Hd, Hf.
  destruct (size (map_imap (reviveWorkspace now) data) =? size data)%nat;
    reflexivity.
Qed.

Lemma loadWorkspaces_pruned (ls : LocalStorage) (now : Z) :
  ls_full ls = false -> workspaces_pruned now (loadWorkspaces ls now).2.
Proof.
  intros Hf m k v Hm Hk. unfold loadWorkspaces in Hm.
  destruct (ls_workspace ls) as [| | data] eqn:Ed; cbn in Hm.
  - rewrite map_imap_empty, map_size_empty in Hm. cbn in Hm. congruence.
  - congruence.
  - rewrite Hf in Hm.
    destruct (Nat.eqb_spec (size (map_imap (reviveWorkspace now) data)) (size data))
      as [Hsz | Hsz]; cbn in Hm.
    + rewrite Ed in Hm. injection Hm as <-.
      exact (size_map_imap_eq _ _ Hsz k v Hk).
    + injection Hm as <-. rewrite map_lookup_imap in Hk.
      destruct (data !! k) as [v0 |]; [| discriminate]. cbn in Hk.
      rewrite (reviveWorkspace_idem _ _ _ _ Hk). eauto.
Qed.

Lemma saveWorkspace_stored (ls : LocalStorage) (now : Z) (ws : EmailWorkspace) :
  ls_full ls = false ->
  ls_full (saveWorkspace ls now ws) = false
  /\ ls_workspace (saveWorkspace ls now ws)
     = Parsed (<[ws_key ws := ws]> (loadWorkspaces ls now).1).
Proof.
  intros Hf. unfold saveWorkspace.
  pose proof (loadWorkspaces_full ls now) as Hfull.
  destruct (loadWorkspaces ls now) as [all ls1]. cbn in *.
  rewrite Hfull, Hf. cbn. rewrite Hfull. split; [exact Hf | reflexivity].
Qed.

Lemma loadWorkspace_after_save (ls : LocalStorage) (T now : Z) (ws : EmailWorkspace) :
  ls_full ls = false -> ws_updatedAt ws = Some T -> T <> 0 ->
  (loadWorkspace (saveWorkspace ls T ws) now (ws_key ws)).1
  = if now - T >? WORKSPACE_KEEP_MS then freshWorkspace (ws_key ws) now else ws.
Proof.
  intros Hf Hu HT.
  destruct (saveWorkspace_stored ls T ws Hf) as [Hf' Hst].
  unfold loadWorkspace.
  pose proof (loadWorkspaces_parsed _ now _ Hf' Hst) as Hall.
  destruct (loadWorkspaces (saveWorkspace ls T ws) now) as [all ls1].
  cbn in Hall. subst all.
  rewrite map_lookup_imap, lookup_insert_eq. cbn.
  rewrite (reviveWorkspace_written now T ws Hu HT).
  destruct (now - T >? WORKSPACE_KEEP_MS); reflexivity.
Qed.

Lemma In_lastN {A} (n : nat) (l : list A) (x : A) : In x (lastN n l) -> In x l.
Proof.
  unfold lastN. intros H.
  rewrite <- (firstn_skipn (length l - n) l). apply in_or_app. right. exact H.
Qed.

Lemma In_lastN_snoc {A} (n : nat) (l : list A) (x : A) :
  (0 < n)%nat -> In x (lastN n (l ++ [x])).
Proof.
  intros Hn. unfold lastN. rewrite skipn_app. apply in_or_app. right.
  rewrite length_app. cbn [length].
  replace (length l + 1 - n - length l)%nat with 0%nat by lia.
  cbn. left. reflexivity.
Qed.

Lemma historyFresh_migrate (now : Z) (x : AiHistoryEntry) :
  historyFresh now (migrateEntry x) = historyFresh now x.
Proof. reflexivity. Qed.

Lemma loadAiHistory_parsed (ls : LocalStorage) (now : Z) (arr : list AiHistoryEntry) :
  ls_full ls = false -> ls_historyV2 ls = Parsed arr ->
  (loadAiHistory ls now).1 = map migrateEntry (List.filter (historyFresh now) arr).
Proof. intros Hf Hv. unfold loadAiHistory. rewrite Hv, Hf. reflexivity. Qed.

Lemma loadAiHistory_pruned (ls : LocalStorage) (now : Z) :
  ls_full ls = false -> ls_historyV2 ls <> Corrupt -> ls_historyV1 ls <> Corrupt ->
  history_pruned now (loadAiHistory ls now).2.
Proof.
  intros Hf H2 H1 l x Hl Hx. unfold loadAiHistory in Hl. rewrite Hf in Hl.
  assert (Hgen : forall arr, In x (map migrateEntry (List.filter (historyFresh now) arr)) ->
            historyFresh now x = true).
  { intros arr Hin. apply in_map_iff in Hin as (y & <- & Hy).
    apply filter_In in Hy as [_ Hy]. rewrite historyFresh_migrate. exact Hy. }
  destruct (ls_historyV2 ls) as [| | arr2]; [| congruence |].
  - destruct (ls_historyV1 ls) as [| | arr1]; [| congruence |]; cbn in Hl;
      injection Hl as <-; [destruct Hx | exact (Hgen _ Hx)].
  - cbn in Hl. injection Hl as <-. exact (Hgen _ Hx).
Qed.

Lemma loadWorkspaces_result (ls : LocalStorage) (now : Z) :
  (loadWorkspaces ls now).1 = ∅
  \/ exists data, ls_workspace ls = Parsed data
       /\ (loadWorkspaces ls now).1 = map_imap (reviveWorkspace now) data.
Proof.
  unfold loadWorkspaces. destruct (ls_workspace ls) as [| | data]; cbn.
  - rewrite map_imap_empty. cbn. left. reflexivity.
  - left. reflexivity.
  - destruct (negb _); [destruct (ls_full ls); cbn |]; eauto.
Qed.

Lemma loadWorkspaces_revived (ls : LocalStorage) (now : Z) (k : list Z)
    (v : EmailWorkspace) :
  (loadWorkspaces ls now).1 !! k = Some v -> reviveWorkspace now k v = Some v.
Proof.
  destruct (loadWorkspaces_result ls now) as [-> | (data & _ & ->)].
  - rewrite lookup_empty. discriminate.
  - rewrite map_lookup_imap. destruct (data !! k) as [v0 |]; [| discriminate].
    cbn. apply reviveWorkspace_idem.
Qed.

(** What [saveWorkspace] leaves in the workspace namespace is pruned: the
    entries it read back through [loadWorkspaces] and the record it adds. *)
Lemma saveWorkspace_pruned (ls : LocalStorage) (T : Z) (ws : EmailWorkspace) :
  ls_full ls = false -> ws_updatedAt ws = Some T -> T <> 0 ->
  workspaces_pruned T (saveWorkspace ls T ws).
Proof.
  intros Hf Hu HT m k v Hm Hk.
  destruct (saveWorkspace_stored ls T ws Hf) as [_ Hst].
  rewrite Hst in Hm. injection Hm as <-.
  destruct (decide (ws_key ws = k)) as [<- | Hne].
  - rewrite lookup_insert_eq in Hk. injection Hk as <-.
    rewrite (reviveWorkspace_written T T ws Hu HT).
    destruct (Z.gtb_spec (T - T) WORKSPACE_KEEP_MS); [pose proof KEEP_pos; lia | eauto].
  - rewrite lookup_insert_ne in Hk by exact Hne.
    rewrite (loadWorkspaces_revived ls T k v Hk). eauto.
Qed.

(** C3, as amended. With a working storage, in each of the three namespaces
    a record written at time [T] is returned by every read at a time [t] with
    [t - T <= KEEP] (so at [T + KEEP - 1]) and by no read with
    [t - T > KEEP] (so at [T + KEEP + 1]); the writes [upsertSummary],
    [saveWorkspace], [saveAiHistory] and the reads [loadWorkspaces],
    [loadAiHistory] leave no expired record in the namespace they store,
    while the read [loadSummary] leaves the storage exactly as it found
    it. *)
Theorem retention_window (ls : LocalStorage) (T : Z)
    (k text cid : jsstring) (ws : EmailWorkspace)
    (prev : list AiHistoryEntry) (e : AiHistoryEntry) :
  ls_full ls = false ->
  ls_summary ls <> Corrupt ->
  ls_historyV2 ls <> Corrupt -> ls_historyV1 ls <> Corrupt ->
  T <> 0 ->
  ws_updatedAt ws = Some T ->
  h_ts e = Some T ->
  let lsS := (upsertSummary ls T k text cid).1 in
  let lsW := saveWorkspace ls T ws in
  let lsH := saveAiHistory ls T (prev ++ [e]) in
  (forall t, t - T <= WORKSPACE_KEEP_MS -> (loadSummary lsS t k).1 = text)
  /\ (forall t, t - T > WORKSPACE_KEEP_MS -> (loadSummary lsS t k).1 = [])
  /\ (forall t, t - T <= WORKSPACE_KEEP_MS ->
        (loadWorkspace lsW t (ws_key ws)).1 = ws)
  /\ (forall t, t - T > WORKSPACE_KEEP_MS ->
        (loadWorkspace lsW t (ws_key ws)).1 = freshWorkspace (ws_key ws) t)
  /\ (forall t, t - T <= AI_HISTORY_KEEP_MS ->
        In (migrateEntry e) (loadAiHistory lsH t).1)
  /\ (forall t x, t - T > AI_HISTORY_KEEP_MS ->
        In x (loadAiHistory lsH t).1 -> h_ts x <> Some T)
  /\ summaries_pruned T lsS
  /\ workspaces_pruned T lsW
  /\ history_pruned T lsH
  /\ (forall t, workspaces_pruned t (loadWorkspaces ls t).2)
  /\ (forall t, history_pruned t (loadAiHistory ls t).2)
  /\ (forall t k', (loadSummary ls t k').2 = ls).
Proof.
  intros Hf Hc Hc2 Hc1 HT Hu Hts lsS lsW lsH.
  destruct (upsertSummary_stored ls T k text cid Hc Hf HT) as (m & Hm & Hk & Hall).
  assert (HlsH : ls_full lsH = false
                 /\ ls_historyV2 lsH
                    = Parsed (lastN 300 (List.filter (historyFresh T) (prev ++ [e])))).
  { unfold lsH, saveAiHistory. rewrite Hf. cbn. split; [exact Hf | reflexivity]. }
  destruct HlsH as [HfH HvH].
  assert (Hfe : historyFresh T e = true).
  { unfold historyFresh. rewrite Hts. replace (T - T) with 0 by lia. reflexivity. }
  repeat split.
  - intros t Ht. unfold lsS. rewrite (loadSummary_of_row _ m k text _ T t Hm Hk).
    destruct (Z.gtb_spec (t - T) WORKSPACE_KEEP_MS); [lia | reflexivity].
  - intros t Ht. unfold lsS. rewrite (loadSummary_of_row _ m k text _ T t Hm Hk).
    destruct (Z.gtb_spec (t - T) WORKSPACE_KEEP_MS); [reflexivity | lia].
  - intros t Ht. unfold lsW. rewrite (loadWorkspace_after_save ls T t ws Hf Hu HT).
    destruct (Z.gtb_spec (t - T) WORKSPACE_KEEP_MS); [lia | reflexivity].
  - intros t Ht. unfold lsW. rewrite (loadWorkspace_after_save ls T t ws Hf Hu HT).
    destruct (Z.gtb_spec (t - T) WORKSPACE_KEEP_MS); [reflexivity | lia].
  - intros t Ht. rewrite (loadAiHistory_parsed lsH t _ HfH HvH).
    apply in_map. apply filter_In. split.
    + rewrite List.filter_app. cbn. rewrite Hfe. apply In_lastN_snoc. lia.
    + unfold historyFresh. rewrite Hts. apply Z.leb_le. exact Ht.
  - intros t x Ht Hx. rewrite (loadAiHistory_parsed lsH t _ HfH HvH) in Hx.
    apply in_map_iff in Hx as (y & <- & Hy). apply filter_In in Hy as [_ Hy].
    cbn. unfold historyFresh in Hy. intros Heq. rewrite Heq in Hy.
    apply Z.leb_le in Hy. lia.
  - intros m' k' row Hm' Hrow. unfold lsS in Hm'. rewrite Hm in Hm'.
    injection Hm' as <-. exact (Hall k' row Hrow).
  - exact (saveWorkspace_pruned ls T ws Hf Hu HT).
  - intros l x Hl Hx. rewrite HvH in Hl. injection Hl as <-.
    apply In_lastN in Hx. apply filter_In in Hx as [_ Hx]. exact Hx.
  - intros t. apply loadWorkspaces_pruned. exact Hf.
  - intros t. apply loadAiHistory_pruned; assumption.
  - intros t k'. unfold loadSummary.
    destruct (ls_summary ls) as [| | m0]; try reflexivity.
    destruct (m0 !! k') as [row |]; [| reflexivity].
    destruct (s_ts row) as [ts |]; [| reflexivity].
    destruct (t - ts >? WORKSPACE_KEEP_MS); reflexivity.
Qed.

End StoreFacts.

(** Sample storage contents. *)
Definition ls_empty : Store.LocalStorage :=
  {| Store.ls_summary := Store.Absent; Store.ls_workspace := Store.Absent;
     Store.ls_historyV1 := Store.Absent; Store.ls_historyV2 := Store.Absent;
     Store.ls_full := false |}.

Definition old_summary : Store.SummaryRow :=
  {| Store.s_ts := Some 1000; Store.s_text := js "old";
     Store.s_conversationId := None |}.

Definition ls_old_summary : Store.LocalStorage :=
  Store.set_summary ls_empty (Store.Parsed {[ js "T1::M1" := old_summary ]}).

Definition sample_entry : Store.AiHistoryEntry :=
  {| Store.h_id := js "T1::M1-1000"; Store.h_ts := Some 1000;
     Store.h_emailKey := Some (js "T1::M1");
     Store.h_conversationId := Some (js "T1"); Store.h_subject := None;
     Store.h_html := Some (js "<p>x</p>"); Store.h_text := None |}.

Lemma retention_window_witness :
  (Store.loadSummary
     (Store.upsertSummary ls_empty 1000 (js "T1::M1") (js "sum") (js "T1")).1
     (1000 + Store.WORKSPACE_KEEP_MS - 1) (js "T1::M1")).1 = js "sum"
  /\ (Store.loadSummary
        (Store.upsertSummary ls_empty 1000 (js "T1::M1") (js "sum") (js "T1")).1
        (1000 + Store.WORKSPACE_KEEP_MS + 1) (js "T1::M1")).1 = []
  /\ (Store.loadWorkspace
        (Store.saveWorkspace ls_empty 1000 (Store.freshWorkspace (js "T1::M1") 1000))
        (1000 + Store.WORKSPACE_KEEP_MS - 1) (js "T1::M1")).1
     = Store.freshWorkspace (js "T1::M1") 1000
  /\ (Store.loadWorkspace
        (Store.saveWorkspace ls_empty 1000 (Store.freshWorkspace (js "T1::M1") 1000))
        (1000 + Store.WORKSPACE_KEEP_MS + 1) (js "T1::M1")).1
     = Store.freshWorkspace (js "T1::M1") (1000 + Store.WORKSPACE_KEEP_MS + 1)
  /\ workspaces_pruned 1000
       (Store.saveWorkspace ls_empty 1000 (Store.freshWorkspace (js "T1::M1") 1000)).
Proof.
  pose proof (retention_window ls_empty 1000 (js "T1::M1") (js "sum") (js "T1")
                (Store.freshWorkspace (js "T1::M1") 1000) [] sample_entry
                eq_refl ltac:(discriminate) ltac:(discriminate) ltac:(discriminate)
                ltac:(lia) eq_refl eq_refl)
    as (H1 & H2 & H3 & H4 & _ & _ & _ & H8 & _).
  split; [apply H1; unfold Store.WORKSPACE_KEEP_MS; lia |].
  split; [apply H2; unfold Store.WORKSPACE_KEEP_MS; lia |].
  split; [apply H3; unfold Store.WORKSPACE_KEEP_MS; lia |].
  split; [apply H4; unfold Store.WORKSPACE_KEEP_MS; lia |].
  exact H8.
Defined.

(** C3 as stated fails for reads of the summaries namespace: at a time when
    the stored row is older than the retention window, [loadSummary] hides
    it but the row is still in the storage after the read. *)
Lemma loadSummary_keeps_expired_row :
  (Store.loadSummary ls_old_summary (1000 + Store.WORKSPACE_KEEP_MS + 1)
     (js "T1::M1")).1 = []
  /\ Store.summaryFresh (1000 + Store.WORKSPACE_KEEP_MS + 1) old_summary = false
  /\ exists m,
       Store.ls_summary
         (Store.loadSummary ls_old_summary (1000 + Store.WORKSPACE_KEEP_MS + 1)
            (js "T1::M1")).2 = Store.Parsed m
       /\ m !! js "T1::M1" = Some old_summary.
Proof.
  split; [vm_compute; reflexivity |]. split; [vm_compute; reflexivity |].
  eexists. split; [reflexivity |]. apply lookup_singleton_eq.
Qed.

(** ** Recipient rows *)

Section RecipientFacts.

Import Recipients.

Variable toLowerCase : jsstring -> jsstring.
Variable scanEmails : jsstring -> list jsstring.
Variable ctx : Identity.OutlookMessageContext.
Variable myEmailLower : jsstring.

Lemma hasEmail_true (e : jsstring) (r : RecipientRow) :
  hasEmail e r = true <-> email r = e.
Proof. unfold hasEmail. apply bool_decide_eq_true. Qed.

Lemma updFirst_map_email p f rows :
  (forall r, email (f r) = email r) ->
  map email (updFirst p f rows) = map email rows.
Proof.
  intros Hf. induction rows as [| r rs IH]; cbn; [reflexivity |].
  destruct (p r); cbn; [rewrite Hf | rewrite IH]; reflexivity.
Qed.

Lemma updFirst_split p f rows :
  existsb p rows = true ->
  exists l1 r l2, rows = l1 ++ r :: l2 /\ p r = true
    /\ (forall x, In x l1 -> p x = false)
    /\ updFirst p f rows = l1 ++ f r :: l2.
Proof.
  induction rows as [| r rs IH]; cbn; [discriminate |].
  destruct (p r) eqn:E.
  - intros _. exists [], r, rs. cbn. repeat split; [exact E | intros x []].
  - cbn. intros H. destruct (IH H) as (l1 & r0 & l2 & -> & Hp & Hl1 & Hu).
    exists (r :: l1), r0, l2. cbn. rewrite Hu. repeat split; [exact Hp |].
    intros x [<- | Hx]; [exact E | apply Hl1, Hx].
Qed.

Lemma find_existsb (p : RecipientRow -> bool) rows :
  existsb p rows = match find p rows with Some _ => true | None => false end.
Proof.
  induction rows as [| r rs IH]; cbn; [reflexivity |].
  destruct (p r); [reflexivity | exact IH].
Qed.

Lemma resetRow_idem r : resetRow (resetRow r) = resetRow r.
Proof. reflexivity. Qed.

Lemma resetRow_markTo r : resetRow (markTo r) = resetRow r.
Proof. reflexivity. Qed.

Lemma markTo_resetRow_new (e : jsstring) n o :
  markTo (resetRow {| email := e; name := n; origins := o;
                      include := true; role := roleTo |})
  = {| email := e; name := n; origins := o; include := true; role := roleTo |}.
Proof. reflexivity. Qed.

Lemma map_reset_updFirst p f rows :
  (forall r, resetRow (f r) = resetRow r) ->
  map resetRow (updFirst p f rows) = map resetRow rows.
Proof.
  intros Hf. induction rows as [| r rs IH]; cbn; [reflexivity |].
  destruct (p r); cbn; [rewrite Hf | rewrite IH]; reflexivity.
Qed.

Lemma map_reset_idem rows : map resetRow (map resetRow rows) = map resetRow rows.
Proof. rewrite map_map. apply map_ext. intros r. apply resetRow_idem. Qed.

Lemma map_reset_markHeaders from rows :
  map resetRow (markHeaders from myEmailLower rows) = map resetRow rows.
Proof.
  unfold markHeaders. rewrite map_map. apply map_ext. intros r. cbv zeta.
  destruct (_ || _); [reflexivity |].
  destruct (negb _); reflexivity.
Qed.

Lemma find_map_reset e rows :
  match find (hasEmail e) (map resetRow rows) with Some _ => true | None => false end
  = match find (hasEmail e) rows with Some _ => true | None => false end.
Proof.
  rewrite <- !find_existsb. induction rows as [| r rs IH]; cbn; [reflexivity |].
  rewrite IH. reflexivity.
Qed.

(** Marking the sender again after a reset gives the same rows. *)
Lemma markSender_reset_markSender from rows :
  markSender ctx from myEmailLower
    (map resetRow (markSender ctx from myEmailLower (map resetRow rows)))
  = markSender ctx from myEmailLower (map resetRow rows).
Proof.
  unfold markSender. destruct (senderUsable from myEmailLower); [| apply map_reset_idem].
  destruct (find (hasEmail from) (map resetRow rows)) as [r0 |] eqn:Efind.
  - rewrite (map_reset_updFirst _ _ _ resetRow_markTo), map_reset_idem.
    rewrite Efind. reflexivity.
  - cbn [map find]. unfold hasEmail at 1. cbn [resetRow setRole setInclude email].
    rewrite bool_decide_eq_true_2 by reflexivity.
    cbn [updFirst]. unfold hasEmail at 1. cbn [resetRow setRole setInclude email].
    rewrite bool_decide_eq_true_2 by reflexivity.
    rewrite map_reset_idem. reflexivity.
Qed.

Lemma applyPreset_reply_unfold rows :
  applyPreset toLowerCase rows presetReply ctx myEmailLower
  = markSender ctx (normalizeEmailCandidate toLowerCase (Identity.fromEmail ctx))
      myEmailLower (map resetRow rows).
Proof. reflexivity. Qed.

Lemma applyPreset_replyAll_unfold rows :
  applyPreset toLowerCase rows presetReplyAll ctx myEmailLower
  = markHeaders (normalizeEmailCandidate toLowerCase (Identity.fromEmail ctx))
      myEmailLower
      (markSender ctx (normalizeEmailCandidate toLowerCase (Identity.fromEmail ctx))
         myEmailLower (map resetRow rows)).
Proof. reflexivity. Qed.

Lemma include_reset_false rows :
  forall x, In x (map resetRow rows) -> include x = false.
Proof. intros x Hx. apply in_map_iff in Hx as (r & <- & _). reflexivity. Qed.

(** C7, as amended. [applyPreset] with [reply] is idempotent, and [replyAll]
    followed by [reply] gives exactly what [reply] alone gives.  In that
    result, when the sender's address normalises to a non-empty address that
    is not the local user's own, the first row with that address has
    [include = true] and [role = to] (it was put in front if absent) and
    every other row has [include = false]; when the sender is unusable or
    is the local user, no row is included and none is inserted. *)
Theorem applyPreset_reply_laws (rows : list RecipientRow) :
  let from := normalizeEmailCandidate toLowerCase (Identity.fromEmail ctx) in
  let once := applyPreset toLowerCase rows presetReply ctx myEmailLower in
  let after :=
    applyPreset toLowerCase
      (applyPreset toLowerCase rows presetReplyAll ctx myEmailLower)
      presetReply ctx myEmailLower in
  applyPreset toLowerCase once presetReply ctx myEmailLower = once
  /\ after = once
  /\ (senderUsable from myEmailLower = true ->
      exists l1 r l2, after = l1 ++ r :: l2
        /\ email r = from /\ include r = true /\ role r = roleTo
        /\ (forall x, In x l1 -> email x <> from)
        /\ (forall x, In x (l1 ++ l2) -> include x = false))
  /\ (senderUsable from myEmailLower = false ->
      after = map resetRow rows /\ forall x, In x after -> include x = false).
Proof.
  cbv zeta. set (from := normalizeEmailCandidate toLowerCase (Identity.fromEmail ctx)).
  assert (Hidem : applyPreset toLowerCase
                    (applyPreset toLowerCase rows presetReply ctx myEmailLower)
                    presetReply ctx myEmailLower
                  = applyPreset toLowerCase rows presetReply ctx myEmailLower).
  { rewrite !applyPreset_reply_unfold. apply markSender_reset_markSender. }
  assert (Hafter : applyPreset toLowerCase
                     (applyPreset toLowerCase rows presetReplyAll ctx myEmailLower)
                     presetReply ctx myEmailLower
                   = applyPreset toLowerCase rows presetReply ctx myEmailLower).
  { rewrite applyPreset_replyAll_unfold, !applyPreset_reply_unfold.
    rewrite map_reset_markHeaders. apply markSender_reset_markSender. }
  split; [exact Hidem |]. split; [exact Hafter |]. rewrite Hafter.
  rewrite applyPreset_reply_unfold. fold from. unfold markSender. split.
  - intros Hg. rewrite Hg.
    destruct (find (hasEmail from) (map resetRow rows)) as [r0 |] eqn:Efind.
    + assert (Hex : existsb (hasEmail from) (map resetRow rows) = true)
        by (rewrite find_existsb, Efind; reflexivity).
      destruct (updFirst_split _ markTo _ Hex) as (l1 & r & l2 & Hrows & Hp & Hl1 & Hu).
      exists l1, (markTo r), l2. rewrite Hu. split; [reflexivity |].
      apply hasEmail_true in Hp. repeat split; try assumption.
      * intros x Hx Heq. apply hasEmail_true in Heq. rewrite (Hl1 x Hx) in Heq.
        discriminate.
      * intros x Hx. apply (include_reset_false rows). rewrite Hrows.
        apply in_app_or in Hx as [Hx | Hx]; apply in_or_app;
          [left; exact Hx | right; right; exact Hx].
    + eexists [], _, (map resetRow rows). cbn. split; [reflexivity |].
      repeat split; [intros x [] | apply include_reset_false].
  - intros Hg. rewrite Hg. split; [reflexivity | apply include_reset_false].
Qed.

(** *** One row per address, origins only grow *)

(** An address is normalised when it is a trimmed string, lower-cased. *)
Definition normalized (e : jsstring) : Prop := exists s, e = toLowerCase (trim s).

Definition rows_unique (rows : list RecipientRow) : Prop :=
  NoDup (map email rows) /\ Forall normalized (map email rows).

(** Every row of [rows] is still in [rows'], with at least its origins. *)
Definition origins_grow (rows rows' : list RecipientRow) : Prop :=
  forall r, In r rows ->
    exists r', In r' rows' /\ email r' = email r /\ incl (origins r) (origins r').

Lemma origins_grow_refl rows : origins_grow rows rows.
Proof. intros r Hr. exists r. repeat split; [exact Hr | apply incl_refl]. Qed.

Lemma origins_grow_trans a b c :
  origins_grow a b -> origins_grow b c -> origins_grow a c.
Proof.
  intros Hab Hbc r Hr. destruct (Hab r Hr) as (r1 & H1 & E1 & I1).
  destruct (Hbc r1 H1) as (r2 & H2 & E2 & I2).
  exists r2. repeat split; [exact H2 | congruence | eapply incl_tran; eassumption].
Qed.

Lemma origins_grow_map g rows :
  (forall r, email (g r) = email r /\ origins (g r) = origins r) ->
  origins_grow rows (map g rows).
Proof.
  intros Hg r Hr. exists (g r). destruct (Hg r) as [He Ho].
  repeat split; [apply in_map, Hr | exact He | rewrite Ho; apply incl_refl].
Qed.

Lemma origins_grow_updFirst p f rows :
  (forall r, email (f r) = email r /\ incl (origins r) (origins (f r))) ->
  origins_grow rows (updFirst p f rows).
Proof.
  intros Hf. induction rows as [| r rs IH]; intros x Hx; [destruct Hx |].
  cbn. destruct (p r).
  - destruct Hx as [<- | Hx].
    + exists (f r). destruct (Hf r) as [He Ho]. repeat split; [left; reflexivity | exact He | exact Ho].
    + exists x. repeat split; [right; exact Hx | apply incl_refl].
  - destruct Hx as [<- | Hx].
    + exists r. repeat split; [left; reflexivity | apply incl_refl].
    + destruct (IH x Hx) as (x' & Hx' & E & I). exists x'.
      repeat split; [right; exact Hx' | exact E | exact I].
Qed.

Lemma origins_grow_snoc rows r0 : origins_grow rows (rows ++ [r0]).
Proof.
  intros r Hr. exists r. repeat split; [apply in_or_app; left; exact Hr | apply incl_refl].
Qed.

Lemma origins_grow_cons rows r0 : origins_grow rows (r0 :: rows).
Proof. intros r Hr. exists r. repeat split; [right; exact Hr | apply incl_refl]. Qed.

Lemma uniq_fold_In (l acc : list RecipientOrigin) (x : RecipientOrigin) :
  In x acc \/ In x l ->
  In x (fold_left (fun acc y => if bool_decide (y ∈ acc) then acc else acc ++ [y]) l acc).
Proof.
  revert acc. induction l as [| y l IH]; intros acc H; cbn.
  - destruct H as [H | []]. exact H.
  - apply IH. destruct H as [H | [<- | H]].
    + left. destruct (bool_decide (y ∈ acc)); [exact H | apply in_or_app; left; exact H].
    + left. destruct (bool_decide (y ∈ acc)) eqn:E.
      * apply bool_decide_eq_true in E. apply list_elem_of_In. exact E.
      * apply in_or_app. right. left. reflexivity.
    + right. exact H.
Qed.

Lemma mergeOrigins_incl a b : incl a (mergeOrigins a b).
Proof.
  intros x Hx. unfold mergeOrigins, uniq. apply uniq_fold_In. right.
  apply in_or_app. left. exact Hx.
Qed.

Lemma find_hasEmail_None e rows :
  find (hasEmail e) rows = None -> ~ In e (map email rows).
Proof.
  intros Hf Hin. apply in_map_iff in Hin as (r & He & Hr).
  pose proof (find_none _ _ Hf r Hr) as Hn.
  apply hasEmail_true in He. congruence.
Qed.

Lemma rows_unique_snoc rows r0 :
  rows_unique rows -> ~ In (email r0) (map email rows) -> normalized (email r0) ->
  rows_unique (rows ++ [r0]).
Proof.
  intros [Hnd Hn] Hfresh Hr0. unfold rows_unique. rewrite map_app. cbn. split.
  - apply NoDup_app. repeat split; [exact Hnd | | apply NoDup_singleton].
    intros x Hx Hx'. apply list_elem_of_In in Hx. apply list_elem_of_In in Hx'.
    destruct Hx' as [<- | []]. contradiction.
  - apply Forall_app. split; [exact Hn | constructor; [exact Hr0 | constructor]].
Qed.

Lemma rows_unique_cons rows r0 :
  rows_unique rows -> ~ In (email r0) (map email rows) -> normalized (email r0) ->
  rows_unique (r0 :: rows).
Proof.
  intros [Hnd Hn] Hfresh Hr0. split; cbn.
  - constructor; [| exact Hnd]. intros H. apply list_elem_of_In in H. contradiction.
  - constructor; assumption.
Qed.

Lemma rows_unique_same_emails rows rows' :
  map email rows' = map email rows -> rows_unique rows -> rows_unique rows'.
Proof. unfold rows_unique. intros ->. tauto. Qed.

(** The find-then-update-or-append step shared by [push], the body scan and
    the manual add. *)
Lemma upsert_unique e f r0 rows :
  (forall r, email (f r) = email r) -> email r0 = e -> normalized e ->
  rows_unique rows ->
  rows_unique (match find (hasEmail e) rows with
               | Some _ => updFirst (hasEmail e) f rows
               | None => rows ++ [r0]
               end).
Proof.
  intros Hf He Hn Hu. destruct (find (hasEmail e) rows) eqn:Efind.
  - eapply rows_unique_same_emails; [apply updFirst_map_email, Hf | exact Hu].
  - apply rows_unique_snoc; [exact Hu | | rewrite He; exact Hn].
    rewrite He. apply find_hasEmail_None, Efind.
Qed.

Lemma upsert_grows e f r0 rows :
  (forall r, email (f r) = email r /\ incl (origins r) (origins (f r))) ->
  origins_grow rows (match find (hasEmail e) rows with
                     | Some _ => updFirst (hasEmail e) f rows
                     | None => rows ++ [r0]
                     end).
Proof.
  intros Hf. destruct (find (hasEmail e) rows) as [r1 |].
  - apply origins_grow_updFirst, Hf.
  - apply origins_grow_snoc.
Qed.

Lemma normalizeEmailCandidate_normalized raw :
  truthy (normalizeEmailCandidate toLowerCase raw) = true ->
  normalized (normalizeEmailCandidate toLowerCase raw).
Proof.
  unfold normalizeEmailCandidate. cbv zeta.
  destruct (negb _ || _); [discriminate |]. intros _. eexists. reflexivity.
Qed.

Lemma extractEmailsFromText_normalized text :
  Forall (fun e => truthy e = true /\ normalized e)
    (extractEmailsFromText toLowerCase scanEmails text).
Proof.
  unfold extractEmailsFromText. cbv zeta.
  match goal with
  | |- Forall ?P (fold_left ?f ?out []) =>
      enough (H : forall clean, Forall P clean -> Forall P (fold_left f out clean))
        by (apply H; constructor)
  end.
  induction (scanEmails (strOrEmpty text)) as [| x out IH]; intros clean Hc; cbn;
    [exact Hc |].
  apply IH.
  destruct (truthy (normalizeEmailCandidate toLowerCase (Some x))) eqn:Et; cbn;
    [| exact Hc].
  destruct (bool_decide _); [exact Hc |].
  apply Forall_app. split; [exact Hc |]. constructor; [| constructor].
  split; [exact Et | apply normalizeEmailCandidate_normalized, Et].
Qed.

Lemma push_unique rows email0 name0 origin :
  rows_unique rows ->
  rows_unique (push toLowerCase myEmailLower rows email0 name0 origin).
Proof.
  intros Hu. unfold push. cbv zeta.
  destruct (truthy (normalizeEmailCandidate toLowerCase email0)) eqn:Et; cbn;
    [| exact Hu].
  destruct (_ && _); [exact Hu |].
  apply upsert_unique;
    [| reflexivity | apply normalizeEmailCandidate_normalized, Et | exact Hu].
  intros r. destruct (_ && _); reflexivity.
Qed.

Lemma push_grows rows email0 name0 origin :
  origins_grow rows (push toLowerCase myEmailLower rows email0 name0 origin).
Proof.
  unfold push. cbv zeta.
  destruct (negb _); [apply origins_grow_refl |].
  destruct (_ && _); [apply origins_grow_refl |].
  apply upsert_grows. intros r.
  destruct (_ && _); cbn; (split; [reflexivity | apply mergeOrigins_incl]).
Qed.

Lemma fold_push_unique (o : RecipientOrigin) (l : list Identity.Recipient) rows :
  rows_unique rows ->
  rows_unique
    (fold_left (fun rows r => push toLowerCase myEmailLower rows
                                (Some (Identity.rc_email r))
                                (Some (Identity.rc_name r)) (Some o)) l rows).
Proof.
  revert rows. induction l as [| r l IH]; intros rows Hu; cbn; [exact Hu |].
  apply IH, push_unique, Hu.
Qed.

Lemma buildHeaderRows_unique :
  rows_unique (buildHeaderRows toLowerCase ctx myEmailLower).
Proof.
  unfold buildHeaderRows. cbv zeta.
  apply fold_push_unique, fold_push_unique, push_unique.
  split; constructor.
Qed.

Lemma markSender_unique from rows :
  (truthy from = true -> normalized from) ->
  rows_unique rows -> rows_unique (markSender ctx from myEmailLower rows).
Proof.
  intros Hn Hu. unfold markSender.
  destruct (senderUsable from myEmailLower) eqn:Eg; [| exact Hu].
  apply andb_prop in Eg as [Et _].
  destruct (find (hasEmail from) rows) eqn:Efind.
  - eapply rows_unique_same_emails; [| exact Hu].
    apply updFirst_map_email. reflexivity.
  - apply rows_unique_cons; [exact Hu | apply find_hasEmail_None, Efind | apply Hn, Et].
Qed.

Lemma markSender_grows from rows :
  origins_grow rows (markSender ctx from myEmailLower rows).
Proof.
  unfold markSender. destruct (senderUsable from myEmailLower);
    [| apply origins_grow_refl].
  destruct (find (hasEmail from) rows) as [r0 |].
  - apply origins_grow_updFirst. intros r. split; [reflexivity | apply incl_refl].
  - apply origins_grow_cons.
Qed.

Lemma markHeaders_emails from rows :
  map email (markHeaders from myEmailLower rows) = map email rows.
Proof.
  unfold markHeaders. rewrite map_map. apply map_ext. intros r. cbv zeta.
  destruct (_ || _); [reflexivity |]. destruct (negb _); reflexivity.
Qed.

Lemma markHeaders_grows from rows :
  origins_grow rows (markHeaders from myEmailLower rows).
Proof.
  unfold markHeaders. apply origins_grow_map. intros r. cbv zeta.
  destruct (_ || _); [split; reflexivity |].
  destruct (negb _); split; reflexivity.
Qed.

Lemma applyPreset_unique rows preset :
  rows_unique rows -> rows_unique (applyPreset toLowerCase rows preset ctx myEmailLower).
Proof.
  intros Hu.
  assert (Hr : rows_unique (map resetRow rows)).
  { eapply rows_unique_same_emails; [| exact Hu]. rewrite map_map. reflexivity. }
  assert (Hm : rows_unique
                 (markSender ctx
                    (normalizeEmailCandidate toLowerCase (Identity.fromEmail ctx))
                    myEmailLower (map resetRow rows))).
  { apply markSender_unique; [apply normalizeEmailCandidate_normalized | exact Hr]. }
  unfold applyPreset. cbv zeta. destruct preset; [exact Hm | | exact Hr].
  eapply rows_unique_same_emails; [apply markHeaders_emails | exact Hm].
Qed.

Lemma applyPreset_grows rows preset :
  origins_grow rows (applyPreset toLowerCase rows preset ctx myEmailLower).
Proof.
  assert (Hr : origins_grow rows (map resetRow rows))
    by (apply origins_grow_map; intros r; split; reflexivity).
  unfold applyPreset. cbv zeta. destruct preset; [| | exact Hr].
  - eapply origins_grow_trans; [exact Hr | apply markSender_grows].
  - eapply origins_grow_trans; [exact Hr |].
    eapply origins_grow_trans; [apply markSender_grows | apply markHeaders_grows].
Qed.

Lemma harvestOne_unique rows e :
  normalized e -> rows_unique rows -> rows_unique (harvestOne myEmailLower rows e).
Proof.
  intros Hn Hu. unfold harvestOne. destruct (_ && _); [exact Hu |].
  apply upsert_unique; [reflexivity | reflexivity | exact Hn | exact Hu].
Qed.

Lemma harvestOne_grows rows e : origins_grow rows (harvestOne myEmailLower rows e).
Proof.
  unfold harvestOne. destruct (_ && _); [apply origins_grow_refl |].
  apply upsert_grows. intros r. split; [reflexivity | apply mergeOrigins_incl].
Qed.

Lemma fold_harvest found rows :
  Forall (fun e => truthy e = true /\ normalized e) found ->
  (rows_unique rows -> rows_unique (fold_left (harvestOne myEmailLower) found rows))
  /\ origins_grow rows (fold_left (harvestOne myEmailLower) found rows).
Proof.
  intros Hf. revert rows.
  induction Hf as [| e found [_ Hn] _ IH]; intros rows; cbn.
  - split; [tauto | apply origins_grow_refl].
  - destruct (IH (harvestOne myEmailLower rows e)) as [IHu IHg]. split.
    + intros Hu. apply IHu, harvestOne_unique; assumption.
    + eapply origins_grow_trans; [apply harvestOne_grows | exact IHg].
Qed.

Lemma harvestBody_facts inc rawBody body rows :
  (rows_unique rows ->
   rows_unique (harvestBody toLowerCase scanEmails inc rawBody body myEmailLower rows))
  /\ origins_grow rows
       (harvestBody toLowerCase scanEmails inc rawBody body myEmailLower rows).
Proof.
  unfold harvestBody. cbv zeta.
  destruct (negb inc); [split; [tauto | apply origins_grow_refl] |].
  destruct (negb _); [split; [tauto | apply origins_grow_refl] |].
  pose proof (extractEmailsFromText_normalized
                (Some (if truthy rawBody then rawBody else body))) as Hf.
  destruct (extractEmailsFromText _ _ _) as [| e found] eqn:E;
    [split; [tauto | apply origins_grow_refl] |].
  apply fold_harvest, Hf.
Qed.

Lemma toggles_facts (g : RecipientRow -> RecipientRow) rows :
  (forall r, email (g r) = email r /\ origins (g r) = origins r) ->
  (rows_unique rows -> rows_unique (map g rows)) /\ origins_grow rows (map g rows).
Proof.
  intros Hg. split; [| apply origins_grow_map, Hg].
  apply rows_unique_same_emails. rewrite map_map. apply map_ext. intros r.
  apply (Hg r).
Qed.

Lemma addManualRecipient_facts addEmail addRole rows :
  (rows_unique rows -> rows_unique (addManualRecipient toLowerCase addEmail addRole rows))
  /\ origins_grow rows (addManualRecipient toLowerCase addEmail addRole rows).
Proof.
  unfold addManualRecipient. cbv zeta.
  destruct (truthy (normalizeEmailCandidate toLowerCase (Some addEmail))) eqn:Et; cbn;
    [| split; [tauto | apply origins_grow_refl]].
  split.
  - apply upsert_unique;
      [reflexivity | reflexivity | apply normalizeEmailCandidate_normalized, Et].
  - apply upsert_grows. intros r. split; [reflexivity | apply mergeOrigins_incl].
Qed.

Lemma applyOp_facts rows op :
  (rows_unique rows ->
   rows_unique (applyOp toLowerCase scanEmails ctx myEmailLower rows op))
  /\ origins_grow rows (applyOp toLowerCase scanEmails ctx myEmailLower rows op).
Proof.
  destruct op as [inc rawBody body | preset | a c | a x | a x]; cbn [applyOp].
  - apply harvestBody_facts.
  - split; [apply applyPreset_unique | apply applyPreset_grows].
  - apply toggles_facts. intros r. destruct (bool_decide _); split; reflexivity.
  - apply toggles_facts. intros r. destruct (bool_decide _); split; reflexivity.
  - apply addManualRecipient_facts.
Qed.

Lemma fold_applyOp_facts ops rows :
  (rows_unique rows ->
   rows_unique (fold_left (applyOp toLowerCase scanEmails ctx myEmailLower) ops rows))
  /\ origins_grow rows
       (fold_left (applyOp toLowerCase scanEmails ctx myEmailLower) ops rows).
Proof.
  revert rows. induction ops as [| op ops IH]; intros rows; cbn.
  - split; [tauto | apply origins_grow_refl].
  - destruct (applyOp_facts rows op) as [Hu Hg].
    destruct (IH (applyOp toLowerCase scanEmails ctx myEmailLower rows op)) as [IHu IHg].
    split; [intros H; apply IHu, Hu, H | eapply origins_grow_trans; eassumption].
Qed.

(** C8. Starting from the header build and whatever sequence of body scans,
    preset applications, include and role toggles and manual additions
    follows, the rows hold at most one row per address, every address is a
    trimmed lower-cased string, and each operation keeps every row with at
    least the origins it had. *)
Theorem rows_unique_origins_grow (ops : list RowOp) (op : RowOp) :
  let rows :=
    fold_left (applyOp toLowerCase scanEmails ctx myEmailLower) ops
      (initRows toLowerCase ctx myEmailLower) in
  rows_unique (buildHeaderRows toLowerCase ctx myEmailLower)
  /\ rows_unique rows
  /\ origins_grow (buildHeaderRows toLowerCase ctx myEmailLower) rows
  /\ origins_grow rows (applyOp toLowerCase scanEmails ctx myEmailLower rows op)
  /\ rows_unique (applyOp toLowerCase scanEmails ctx myEmailLower rows op).
Proof.
  cbv zeta.
  pose proof buildHeaderRows_unique as Hb.
  assert (Hi : rows_unique (initRows toLowerCase ctx myEmailLower))
    by (apply applyPreset_unique, Hb).
  destruct (fold_applyOp_facts ops (initRows toLowerCase ctx myEmailLower)) as [Hu Hg].
  destruct (applyOp_facts
              (fold_left (applyOp toLowerCase scanEmails ctx myEmailLower) ops
                 (initRows toLowerCase ctx myEmailLower)) op) as [Hu1 Hg1].
  repeat split; try (apply Hb || apply Hu, Hi || apply Hu1, Hu, Hi).
  - eapply origins_grow_trans; [apply applyPreset_grows | exact Hg].
  - exact Hg1.
Qed.

End RecipientFacts.

(** Sample messages: one received from Bob with Ann in To, and one the
    local user sent to Ann. *)
Definition ann : Identity.Recipient :=
  {| Identity.rc_name := js "Ann"; Identity.rc_email := js "Ann@X.com" |}.

Definition ctx_from (sender : string) : Identity.OutlookMessageContext :=
  {| Identity.subject := Some (js "Quote");
     Identity.fromEmail := Some (js sender);
     Identity.fromName := Some (js "Sender");
     Identity.internetMessageId := Some (js "M1");
     Identity.conversationId := Some (js "T1");
     Identity.itemId := None;
     Identity.receivedDateTimeIso := None;
     Identity.toRecipients := Some [ann];
     Identity.ccRecipients := None |}.

Definition me : jsstring := js "me@x.com".

Definition rows_received : list Recipients.RecipientRow :=
  Recipients.buildHeaderRows asciiLower (ctx_from "Bob@Example.com") me.

Definition rows_sent : list Recipients.RecipientRow :=
  Recipients.buildHeaderRows asciiLower (ctx_from "me@x.com") me.

Example rows_received_value :
  rows_received
  = [ {| Recipients.email := js "bob@example.com";
         Recipients.name := Some (js "Sender");
         Recipients.origins := [originFrom];
         Recipients.include := false; Recipients.role := roleCc |};
      {| Recipients.email := js "ann@x.com";
         Recipients.name := Some (js "Ann");
         Recipients.origins := [originTo];
         Recipients.include := false; Recipients.role := roleCc |} ].
Proof. vm_compute. reflexivity. Qed.

Lemma applyPreset_reply_laws_witness :
  exists l1 r l2,
    Recipients.applyPreset asciiLower
      (Recipients.applyPreset asciiLower rows_received presetReplyAll
         (ctx_from "Bob@Example.com") me)
      presetReply (ctx_from "Bob@Example.com") me
    = l1 ++ r :: l2
    /\ Recipients.email r = js "bob@example.com"
    /\ Recipients.include r = true
    /\ Recipients.role r = roleTo.
Proof.
  destruct (applyPreset_reply_laws asciiLower (ctx_from "Bob@Example.com") me
              rows_received) as (_ & _ & H & _).
  destruct (H eq_refl) as (l1 & r & l2 & E & He & Hi & Hr & _).
  exists l1, r, l2. repeat split; [exact E | exact He | exact Hi | exact Hr].
Defined.

(** C7 as stated fails when the sender is the local user: after [replyAll]
    then [reply] no row carries the sender's address and no row is
    included, so the sender's row was neither inserted nor marked. *)
Lemma reply_skips_own_address :
  existsb (Recipients.hasEmail (js "me@x.com"))
    (Recipients.applyPreset asciiLower
       (Recipients.applyPreset asciiLower rows_sent presetReplyAll
          (ctx_from "me@x.com") me)
       presetReply (ctx_from "me@x.com") me) = false
  /\ existsb Recipients.include
       (Recipients.applyPreset asciiLower
          (Recipients.applyPreset asciiLower rows_sent presetReplyAll
             (ctx_from "me@x.com") me)
          presetReply (ctx_from "me@x.com") me) = false.
Proof. split; vm_compute; reflexivity. Qed.

(** ** Generation lifecycle *)

Section LifecycleFacts.

Import Store Lifecycle.

Variable sanitizeAiHtml : jsstring -> jsstring.
Variable stripHtml : jsstring -> jsstring.

(** The text [run] derives from a generator result. *)
Definition plainTxtOf (r : AiResult) : jsstring :=
  let t := trim (strOrEmpty (ai_text r)) in
  if truthy t then t else stripHtml (sanitizeAiHtml (strOrEmpty (ai_html r))).

Definition safeHtmlOf (r : AiResult) : jsstring :=
  sanitizeAiHtml (strOrEmpty (ai_html r)).

Lemma run_begin_locals (env : View) (action : Action) (now : Z) (w : World) :
  (run_begin env action now w).2
  = {| runEmailKey := v_emailKey env;
       runConversationId := strOrEmpty (v_conversationId env) |}.
Proof. reflexivity. Qed.

Lemma run_begin_world (env : View) (action : Action) (now : Z) (w : World) :
  w_storage (run_begin env action now w).1 = w_storage w
  /\ w_events (run_begin env action now w).1 = w_events w
  /\ v_emailKey (w_view (run_begin env action now w).1) = v_emailKey (w_view w)
  /\ v_busy (w_view (run_begin env action now w).1) = true
  /\ v_resultSlots (w_view (run_begin env action now w).1)
     = if bool_decide (action <> summarize)
       then textUpdater (v_activeOption env) now []
              (htmlUpdater (v_activeOption env) now [] (v_resultSlots (w_view w)))
       else v_resultSlots (w_view w).
Proof.
  unfold run_begin. cbv zeta. destruct (bool_decide (action <> summarize));
    repeat split; reflexivity.
Qed.

Lemma run_rejected_world (msg : jsstring) (w : World) :
  v_err (w_view (run_rejected msg w)) = msg
  /\ v_busy (w_view (run_rejected msg w)) = false
  /\ v_resultSlots (w_view (run_rejected msg w)) = v_resultSlots (w_view w)
  /\ v_emailKey (w_view (run_rejected msg w)) = v_emailKey (w_view w)
  /\ w_storage (run_rejected msg w) = w_storage w
  /\ w_events (run_rejected msg w) = w_events w.
Proof. repeat split; reflexivity. Qed.

(** Clearing the active slot of a three-slot array. *)
Lemma clear_active_slot (i : nat) (now : Z) (slots : list ResultSlot) :
  (i < length slots)%nat ->
  textUpdater i now [] (htmlUpdater i now [] slots)
  = <[i := {| html := []; text := []; ts := now |}]> slots.
Proof.
  intros Hi. destruct slots as [| s slots]; [cbn in Hi; lia |].
  unfold htmlUpdater. cbv zeta. unfold assignAt.
  destruct (Nat.ltb_spec i (length (s :: slots))); [| lia].
  unfold textUpdater. cbv zeta.
  assert (Hne : <[i := {| html := []; text := text (default emptySlot ((s :: slots) !! i));
                          ts := now |}]> (s :: slots) <> []).
  { intros Heq. apply (f_equal length) in Heq. rewrite length_insert in Heq.
    cbn in Heq. lia. }
  destruct (<[i := _]> (s :: slots)) as [| s1 rest] eqn:E; [congruence |].
  rewrite <- E. unfold assignAt. rewrite length_insert.
  destruct (Nat.ltb_spec i (length (s :: slots))); [| lia].
  rewrite list_lookup_insert_eq by assumption. cbn [default html].
  rewrite list_insert_insert_eq. reflexivity.
Qed.

(** C4. A summarize run never changes the visible result slots, neither
    when it starts nor when it completes, and it leaves the workspace and
    history namespaces alone; what it writes is the summaries namespace,
    under the identity the run captured when it started, whatever message
    is selected at completion; and exactly when that write goes through,
    one event carrying that identity is dispatched. *)
Theorem summarize_only_writes_summary (env : View) (r : AiResult) (t0 t1 : Z)
    (w0 wmid : World) :
  let w1 := (run_begin env summarize t0 w0).1 in
  let locals := (run_begin env summarize t0 w0).2 in
  let w2 := run_resolved sanitizeAiHtml stripHtml env locals summarize r t1 wmid in
  let ev := {| ev_emailKey := v_emailKey env;
               ev_conversationId := strOrEmpty (v_conversationId env) |} in
  v_resultSlots (w_view w1) = v_resultSlots (w_view w0)
  /\ w_storage w1 = w_storage w0
  /\ v_resultSlots (w_view w2) = v_resultSlots (w_view wmid)
  /\ v_resultView (w_view w2) = v_resultView (w_view wmid)
  /\ ls_workspace (w_storage w2) = ls_workspace (w_storage wmid)
  /\ ls_historyV1 (w_storage w2) = ls_historyV1 (w_storage wmid)
  /\ ls_historyV2 (w_storage w2) = ls_historyV2 (w_storage wmid)
  /\ v_busy (w_view w2) = false
  /\ ((w_storage w2 = w_storage wmid /\ w_events w2 = w_events wmid)
      \/ (w_events w2 = w_events wmid ++ [ev]
          /\ exists m, ls_summary (w_storage w2) = Parsed m
               /\ (t1 <> 0 ->
                   m !! v_emailKey env
                   = Some {| s_ts := Some t1; s_text := plainTxtOf r;
                             s_conversationId
                             := Some (strOrEmpty (v_conversationId env)) |})))
  /\ (truthy (v_emailKey env) = true -> truthy (plainTxtOf r) = true ->
      ls_summary (w_storage wmid) <> Corrupt -> ls_full (w_storage wmid) = false ->
      w_events w2 = w_events wmid ++ [ev]).
Proof.
  cbv zeta. rewrite run_begin_locals.
  destruct (run_begin_world env summarize t0 w0) as (Hs & _ & _ & _ & Hsl).
  rewrite bool_decide_eq_false_2 in Hsl by (intros H; apply H; reflexivity).
  split; [exact Hsl |]. split; [exact Hs |].
  unfold run_resolved. cbv zeta. rewrite bool_decide_eq_true_2 by reflexivity.
  cbn [runEmailKey runConversationId]. fold (plainTxtOf r).
  destruct (truthy (v_emailKey env) && truthy (plainTxtOf r)) eqn:Eg.
  - unfold upsertSummary.
    destruct (ls_summary (w_storage wmid)) as [| | m0] eqn:Es.
    + destruct (ls_full (w_storage wmid)) eqn:Ef; cbn.
      * rewrite app_nil_r. repeat split; try reflexivity; try (left; split; reflexivity).
        intros _ _ _ H. discriminate.
      * repeat split; try reflexivity. right. split; [reflexivity |].
        eexists. split; [reflexivity |]. intros Ht.
        apply map_lookup_filter_Some. split; [apply lookup_insert_eq |].
        unfold summaryFresh. cbn. replace (t1 - t1) with 0 by lia.
        destruct (Z.eqb_spec t1 0); [contradiction | reflexivity].
    + cbn. rewrite app_nil_r. repeat split; try reflexivity;
        try (left; split; reflexivity).
      intros _ _ H. congruence.
    + destruct (ls_full (w_storage wmid)) eqn:Ef; cbn.
      * rewrite app_nil_r. repeat split; try reflexivity; try (left; split; reflexivity).
        intros _ _ _ H. discriminate.
      * repeat split; try reflexivity. right. split; [reflexivity |].
        eexists. split; [reflexivity |]. intros Ht.
        apply map_lookup_filter_Some. split; [apply lookup_insert_eq |].
        unfold summaryFresh. cbn. replace (t1 - t1) with 0 by lia.
        destruct (Z.eqb_spec t1 0); [contradiction | reflexivity].
  - cbn. repeat split; try reflexivity; try (left; split; reflexivity).
    intros H1 H2. rewrite H1, H2 in Eg. discriminate.
Qed.

(** The identity test of [run] compares the key the closure bound before
    the [await] with the key of the same closure: it never fails, so a
    completed non-summarize run always takes the branch that writes the
    slots of the live component, and never the one that saves a workspace. *)
Lemma run_resolved_same_closure (env : View) (action : Action) (r : AiResult)
    (t0 t1 : Z) (w0 wmid : World) :
  action <> summarize ->
  let locals := (run_begin env action t0 w0).2 in
  let w2 := run_resolved sanitizeAiHtml stripHtml env locals action r t1 wmid in
  v_resultSlots (w_view w2)
  = textUpdater (v_activeOption env) t1 (plainTxtOf r)
      (htmlUpdater (v_activeOption env) t1 (safeHtmlOf r) (v_resultSlots (w_view wmid)))
  /\ w_storage w2 = w_storage wmid
  /\ v_emailKey (w_view w2) = v_emailKey (w_view wmid)
  /\ v_notice (w_view w2) = v_notice (w_view wmid).
Proof.
  intros Ha. cbv zeta. rewrite run_begin_locals. unfold run_resolved. cbv zeta.
  rewrite bool_decide_eq_false_2 by exact Ha.
  cbn [runEmailKey]. rewrite bool_decide_eq_true_2 by reflexivity.
  cbn [negb]. repeat split; reflexivity.
Qed.

(** What the statements of a failing run do by themselves, before any
    effect: the message is shown, the busy flag is down, nothing is written
    or dispatched, and for every action but summarize the active slot is
    empty. *)
Lemma run_rejected_after_begin (env : View) (action : Action) (msg : jsstring)
    (t0 : Z) (w0 : World) :
  let w1 := (run_begin env action t0 w0).1 in
  let w2 := run_rejected msg w1 in
  v_err (w_view w2) = msg
  /\ v_busy (w_view w2) = false
  /\ w_storage w2 = w_storage w0
  /\ w_events w2 = w_events w0
  /\ (action = summarize -> v_resultSlots (w_view w2) = v_resultSlots (w_view w0))
  /\ (action <> summarize ->
      (v_activeOption env < length (v_resultSlots (w_view w0)))%nat ->
      v_resultSlots (w_view w2)
      = <[v_activeOption env := {| html := []; text := []; ts := t0 |}]>
          (v_resultSlots (w_view w0))).
Proof.
  cbv zeta.
  destruct (run_rejected_world msg (run_begin env action t0 w0).1)
    as (He & Hb & Hsl & _ & Hst & Hev).
  destruct (run_begin_world env action t0 w0) as (Hst1 & Hev1 & _ & _ & Hsl1).
  rewrite Hsl, Hst, Hev, Hsl1, Hst1, Hev1.
  repeat split; try assumption.
  - intros ->. rewrite bool_decide_eq_false_2 by (intros H; apply H; reflexivity).
    reflexivity.
  - intros Ha Hi. rewrite bool_decide_eq_true_2 by exact Ha.
    apply clear_active_slot, Hi.
Qed.

End LifecycleFacts.

(** Sample session: message A = [T1::M1] is open, message B = [T1::M2] has
    a stored workspace whose first slot holds an earlier result. *)
Definition keyA : jsstring := js "T1::M1".
Definition keyB : jsstring := js "T1::M2".

Definition slotB : Lifecycle.ResultSlot :=
  {| Lifecycle.html := js "<p>B</p>"; Lifecycle.text := js "B"; Lifecycle.ts := 500 |}.

Definition workspaceB : Store.EmailWorkspace :=
  {| Store.ws_key := keyB; Store.ws_ts := Some 500; Store.ws_updatedAt := Some 500;
     Store.ws_conversationId := Some (js "T1"); Store.ws_subject := Some (js "Quote");
     Store.ws_summary := None; Store.ws_tplPickId := None;
     Store.ws_composeNotes := None; Store.ws_replyAll := Some false;
     Store.ws_rewriteText := None; Store.ws_recipientPreset := Some presetReply;
     Store.ws_includeBodyEmails := Some true;
     Store.ws_attachOriginalItem := Some false;
     Store.ws_activeOption := Some 0;
     Store.ws_results :=
       Some [ {| Store.rj_html := Some (js "<p>B</p>"); Store.rj_text := Some (js "B");
                 Store.rj_ts := Some 500 |} ];
     Store.ws_htmlOut := Some (js "<p>B</p>"); Store.ws_textOut := Some (js "B");
     Store.ws_resultView := None |}.

Definition viewA (slots : list Lifecycle.ResultSlot) : Lifecycle.View :=
  {| Lifecycle.v_emailKey := keyA; Lifecycle.v_conversationId := Some (js "T1");
     Lifecycle.v_subject := Some (js "Quote"); Lifecycle.v_activeOption := 0%nat;
     Lifecycle.v_resultSlots := slots; Lifecycle.v_resultView := viewHtml;
     Lifecycle.v_tplPickId := []; Lifecycle.v_composeNotes := [];
     Lifecycle.v_rewriteText := []; Lifecycle.v_recipientPreset := presetReply;
     Lifecycle.v_replyAll := false; Lifecycle.v_includeBodyEmails := true;
     Lifecycle.v_attachOriginalItem := false; Lifecycle.v_busy := false;
     Lifecycle.v_err := []; Lifecycle.v_notice := Lifecycle.NoticeNone;
     Lifecycle.v_sheet := Lifecycle.SheetNone |}.

Definition worldA (slots : list Lifecycle.ResultSlot) : Lifecycle.World :=
  {| Lifecycle.w_view := viewA slots;
     Lifecycle.w_storage := Store.set_workspace ls_empty (Store.Parsed {[ keyB := workspaceB ]});
     Lifecycle.w_events := [] |}.

Definition slotOld : Lifecycle.ResultSlot :=
  {| Lifecycle.html := js "<p>old</p>"; Lifecycle.text := js "old"; Lifecycle.ts := 900 |}.

Definition resultA : Lifecycle.AiResult :=
  {| Lifecycle.ai_html := Some (js "<p>A</p>"); Lifecycle.ai_text := Some (js "A") |}.

Definition noSanitize (s : jsstring) : jsstring := s.

Lemma summarize_only_writes_summary_witness :
  Lifecycle.w_events
    (Lifecycle.run_resolved noSanitize noSanitize (viewA Lifecycle.makeEmptySlots)
       (Lifecycle.run_begin (viewA Lifecycle.makeEmptySlots) summarize 1000
          (worldA Lifecycle.makeEmptySlots)).2
       summarize resultA 3000
       (Lifecycle.selectEmail keyB (Some (js "T1")) (Some (js "Quote")) 2000
          (worldA Lifecycle.makeEmptySlots)))
  = [ {| Store.ev_emailKey := keyA; Store.ev_conversationId := js "T1" |} ].
Proof.
  apply (summarize_only_writes_summary noSanitize noSanitize
           (viewA Lifecycle.makeEmptySlots) resultA 1000 3000
           (worldA Lifecycle.makeEmptySlots)
           (Lifecycle.selectEmail keyB (Some (js "T1")) (Some (js "Quote")) 2000
              (worldA Lifecycle.makeEmptySlots)));
    [vm_compute; reflexivity | vm_compute; reflexivity
    | vm_compute; discriminate | vm_compute; reflexivity].
Defined.

(** C6 as stated fails for a reply: the slot that showed the previous
    result is empty after the failed run. *)
Lemma failed_reply_clears_slot :
  Lifecycle.v_resultSlots (viewA [slotOld; slotB; Lifecycle.emptySlot]) !! 0%nat
  = Some slotOld
  /\ Lifecycle.v_resultSlots
       (Lifecycle.w_view
          (Lifecycle.run_rejected (js "Failed to fetch")
             (Lifecycle.run_begin (viewA [slotOld; slotB; Lifecycle.emptySlot]) reply 1000
                (worldA [slotOld; slotB; Lifecycle.emptySlot])).1)) !! 0%nat
     = Some {| Lifecycle.html := []; Lifecycle.text := []; Lifecycle.ts := 1000 |}.
Proof. split; vm_compute; reflexivity. Qed.

(** C1 on the code: a reply is started for A, the user selects B before the
    generator resolves, and the completed run puts A's output into the
    visible slot that showed B's result; nothing is saved under A.  The
    debounced persist that follows then stores A's output in B's
    workspace. *)
Theorem reply_result_lands_in_other_email :
  let w0 := worldA Lifecycle.makeEmptySlots in
  let started := Lifecycle.run_begin (Lifecycle.w_view w0) reply 1000 w0 in
  let w2 := Lifecycle.selectEmail keyB (Some (js "T1")) (Some (js "Quote")) 2000 started.1 in
  let w3 := Lifecycle.run_resolved noSanitize noSanitize (Lifecycle.w_view w0) started.2
              reply resultA 3000 w2 in
  let w4 := Lifecycle.persistWorkspace 3250 w3 in
  Lifecycle.v_emailKey (Lifecycle.w_view w2) = keyB
  /\ Lifecycle.v_resultSlots (Lifecycle.w_view w2)
     = [slotB; Lifecycle.emptySlot; Lifecycle.emptySlot]
  /\ Lifecycle.v_emailKey (Lifecycle.w_view w3) = keyB
  /\ Lifecycle.v_resultSlots (Lifecycle.w_view w3)
     = [ {| Lifecycle.html := js "<p>A</p>"; Lifecycle.text := js "A";
            Lifecycle.ts := 3000 |}; Lifecycle.emptySlot; Lifecycle.emptySlot ]
  /\ Lifecycle.w_storage w3 = Lifecycle.w_storage w2
  /\ (Store.loadWorkspaces (Lifecycle.w_storage w3) 3000).1 !! keyA = None
  /\ Store.ws_htmlOut (Store.loadWorkspace (Lifecycle.w_storage w4) 3250 keyB).1
     = Some (js "<p>A</p>").
Proof. cbv zeta. repeat split; vm_compute; reflexivity. Qed.

(** ** Automatic summary *)

Section AutoSummaryFacts.

Import AutoSummary.

(** The body text the effect tests. *)
Definition bodyNow (d : Deps) : jsstring :=
  trim (if truthy (d_rawBody d) then d_rawBody d else d_body d).

(** The effect starts an attempt only for an email that has a thread, with
    no cached unexpired summary and a non-blank body, whose in-flight flag
    is down and whose last attempt is at least 30 s old. *)
Lemma effectBody_gate (ls : Store.LocalStorage) (now : Z) (d : Deps) (a : Auto) :
  a_attempts (effectBody ls now d a) = a_attempts a
  \/ (a_attempts (effectBody ls now d a) = (d_emailKey d, now) :: a_attempts a
      /\ (Store.loadSummary ls now (d_emailKey d)).1 = []
      /\ truthy (bodyNow d) = true
      /\ inflight (default noState (a_ref a !! d_emailKey d)) = false
      /\ throttled now (default noState (a_ref a !! d_emailKey d)) = false).
Proof.
  unfold effectBody, bodyNow. cbv zeta.
  destruct (negb (truthy (strOrEmpty (d_conversationId d)))); [left; reflexivity |].
  destruct (negb (truthy (d_emailKey d))); [left; reflexivity |].
  destruct (Store.loadSummary ls now (d_emailKey d)).1 as [| c s] eqn:Es;
    [| left; reflexivity].
  cbn [truthy].
  destruct (truthy (trim (if truthy (d_rawBody d) then d_rawBody d else d_body d)))
    eqn:Eb; [| left; reflexivity].
  cbn [negb].
  destruct (inflight (default noState (a_ref a !! d_emailKey d))) eqn:Ei;
    [left; reflexivity |].
  destruct (throttled now (default noState (a_ref a !! d_emailKey d))) eqn:Et;
    [left; reflexivity |].
  right. repeat split; reflexivity.
Qed.

(** Attempts for one email are at least 30 s apart, newest first. *)
Fixpoint spaced (log : list (jsstring * Z)) : Prop :=
  match log with
  | [] => True
  | (k, t) :: rest => (forall t1, In (k, t1) rest -> t1 + 30000 <= t) /\ spaced rest
  end.

Definition lastOf (a : Auto) (k : jsstring) : option Z :=
  lastAttempt (default noState (a_ref a !! k)).

Definition throttle_inv (last : Z) (a : Auto) : Prop :=
  spaced (a_attempts a)
  /\ forall k t, In (k, t) (a_attempts a) ->
       0 < t /\ exists tl, lastOf a k = Some tl /\ (t = tl \/ t + 30000 <= tl) /\ tl <= last.

Lemma lastOf_clearInflight (k k' : jsstring) (ref : gmap (list Z) KeyState) :
  lastAttempt (default noState (clearInflight k ref !! k'))
  = lastAttempt (default noState (ref !! k')).
Proof.
  unfold clearInflight. destruct (decide (k = k')) as [-> | Hne].
  - rewrite lookup_insert_eq. reflexivity.
  - rewrite lookup_insert_ne by exact Hne. reflexivity.
Qed.

Lemma throttle_inv_same (last : Z) (a a' : Auto) :
  a_attempts a' = a_attempts a ->
  (forall k, lastOf a' k = lastOf a k) ->
  throttle_inv last a -> throttle_inv last a'.
Proof.
  intros Ha Hl [Hs Hi]. unfold throttle_inv. rewrite Ha. split; [exact Hs |].
  intros k t Hin. destruct (Hi k t Hin) as (Ht & tl & Htl & Hor & Hle).
  split; [exact Ht |]. exists tl. rewrite Hl. auto.
Qed.

Lemma throttle_inv_mono (last last' : Z) (a : Auto) :
  last <= last' -> throttle_inv last a -> throttle_inv last' a.
Proof.
  intros Hle [Hs Hi]. split; [exact Hs |].
  intros k t Hin. destruct (Hi k t Hin) as (Ht & tl & Htl & Hor & Hle').
  split; [exact Ht |]. exists tl. repeat split; [exact Htl | exact Hor | lia].
Qed.

Lemma runCleanup_inv (last : Z) (a : Auto) :
  throttle_inv last a -> throttle_inv last (runCleanup a).
Proof.
  unfold runCleanup. destruct (a_cleanup a) as [k |]; [| tauto].
  apply throttle_inv_same; [reflexivity |].
  intros k'. unfold lastOf. cbn. apply lastOf_clearInflight.
Qed.

Lemma timerFires_inv (last : Z) (a : Auto) :
  throttle_inv last a -> throttle_inv last (timerFires a).
Proof.
  unfold timerFires. destruct (a_timer a) as [k |]; [| tauto].
  destruct (bool_decide (a_current a = k)).
  - apply throttle_inv_same; [reflexivity | reflexivity].
  - apply throttle_inv_same; [reflexivity |].
    intros k'. unfold lastOf. cbn. apply lastOf_clearInflight.
Qed.

Lemma runSettles_inv (last : Z) (k : jsstring) (a : Auto) :
  throttle_inv last a -> throttle_inv last (runSettles k a).
Proof.
  unfold runSettles. destruct (bool_decide (k ∈ a_running a)); [| tauto].
  apply throttle_inv_same; [reflexivity |].
  intros k'. unfold lastOf. cbn. apply lastOf_clearInflight.
Qed.

Lemma lookup_touch (k k' : jsstring) (ref : gmap (list Z) KeyState) :
  default noState (<[k := default noState (ref !! k)]> ref !! k')
  = default noState (ref !! k').
Proof.
  destruct (decide (k = k')) as [-> | Hne].
  - rewrite lookup_insert_eq. reflexivity.
  - rewrite lookup_insert_ne by exact Hne. reflexivity.
Qed.

Lemma effectBody_inv (last now : Z) (ls : Store.LocalStorage) (d : Deps) (a : Auto) :
  0 < now -> last <= now ->
  throttle_inv last a -> throttle_inv now (effectBody ls now d a).
Proof.
  intros Hpos Hle Hinv.
  assert (Hidle : forall ref,
            (forall k, lastAttempt (default noState (ref !! k)) = lastOf a k) ->
            throttle_inv now
              {| a_ref := ref; a_current := a_current a; a_timer := a_timer a;
                 a_cleanup := None; a_running := a_running a;
                 a_attempts := a_attempts a |}).
  { intros ref Href. apply (throttle_inv_mono last now); [exact Hle |].
    eapply throttle_inv_same; [| | exact Hinv]; [reflexivity | exact Href]. }
  unfold effectBody. cbv zeta.
  destruct (negb (truthy (strOrEmpty (d_conversationId d))));
    [apply Hidle; reflexivity |].
  destruct (negb (truthy (d_emailKey d))); [apply Hidle; reflexivity |].
  destruct (truthy (Store.loadSummary ls now (d_emailKey d)).1);
    [apply Hidle; reflexivity |].
  destruct (negb (truthy (trim _))); [apply Hidle; reflexivity |].
  set (key := d_emailKey d).
  assert (Htouch : forall k,
            lastAttempt (default noState
                           (<[key := default noState (a_ref a !! key)]> (a_ref a) !! k))
            = lastOf a k)
    by (intros k; unfold lastOf; rewrite lookup_touch; reflexivity).
  destruct (inflight (default noState (a_ref a !! key))); [apply Hidle, Htouch |].
  destruct (throttled now (default noState (a_ref a !! key))) eqn:Et;
    [apply Hidle, Htouch |].
  destruct Hinv as [Hs Hi].
  assert (Hold : forall t1, In (key, t1) (a_attempts a) -> t1 + 30000 <= now).
  { intros t1 Hin. destruct (Hi key t1 Hin) as (Ht1 & tl & Htl & Hor & _).
    unfold throttled in Et. unfold lastOf in Htl. rewrite Htl in Et.
    destruct (Z.eqb_spec tl 0) as [Hz | Hnz]; [lia |]. cbn in Et.
    apply Z.ltb_ge in Et. lia. }
  split; cbn [a_attempts].
  - cbn. split; [exact Hold | exact Hs].
  - intros k t [Heq | Hin].
    + injection Heq as <- <-. split; [exact Hpos |]. exists now.
      unfold lastOf. cbn [a_ref]. rewrite lookup_insert_eq. cbn.
      repeat split; [left; reflexivity | lia].
    + destruct (Hi k t Hin) as (Ht & tl & Htl & Hor & Hle').
      split; [exact Ht |].
      destruct (decide (key = k)) as [<- | Hne].
      * exists now. unfold lastOf. cbn [a_ref]. rewrite lookup_insert_eq. cbn.
        repeat split; [right; apply Hold, Hin | lia].
      * exists tl. unfold lastOf. cbn [a_ref].
        rewrite lookup_insert_ne by exact Hne.
        rewrite lookup_insert_ne by exact Hne.
        repeat split; [exact Htl | exact Hor | lia].
Qed.

Lemma rerender_inv (last now : Z) (ls : Store.LocalStorage) (d : Deps) (a : Auto) :
  0 < now -> last <= now ->
  throttle_inv last a -> throttle_inv now (rerender ls now d a).
Proof.
  intros Hpos Hle Hinv. unfold rerender. cbv zeta.
  apply (effectBody_inv last); [exact Hpos | exact Hle |].
  eapply throttle_inv_same; [| | apply (runCleanup_inv last a Hinv)]; reflexivity.
Qed.

(** Whatever the events, as long as the clock is positive and does not go
    back, two attempts for the same email are at least 30 s apart. *)
Lemma attempts_spaced (es : list Event) :
  clockOk 0 es -> spaced (a_attempts (fold_left step es initial)).
Proof.
  intros Hc.
  assert (H0 : throttle_inv 0 initial) by (split; [exact I | intros k t []]).
  enough (H : exists last, throttle_inv last (fold_left step es initial))
    by (destruct H as [last [Hs _]]; exact Hs).
  revert Hc H0. generalize initial, 0.
  induction es as [| e es IH]; intros a last Hc Hinv; cbn.
  - exists last. exact Hinv.
  - destruct e as [ls now d | | k]; cbn in Hc.
    + destruct Hc as (Hpos & Hle & Hc). apply (IH _ now Hc).
      apply (rerender_inv last); assumption.
    + apply (IH _ last Hc). apply timerFires_inv, Hinv.
    + apply (IH _ last Hc). apply runSettles_inv, Hinv.
Qed.

End AutoSummaryFacts.

(** The body of email A as first loaded, and after the user edited it in
    the context sheet. *)
Definition depsA (body : string) : AutoSummary.Deps :=
  {| AutoSummary.d_conversationId := Some (js "T1");
     AutoSummary.d_emailKey := keyA;
     AutoSummary.d_rawBody := js "Hello";
     AutoSummary.d_body := js body |}.

(** C5 on the code: an attempt starts for A at 1000 ms and its timer fires,
    so [run("summarize")] is waiting for the generator; at 40000 ms the body
    state changes, the cleanup of the effect lowers the in-flight flag of A
    although the call is still pending, and the effect starts a second
    attempt for A; when its timer fires two summarize calls for A are in
    flight. *)
Theorem second_attempt_while_in_flight :
  let a2 := fold_left AutoSummary.step
              [ AutoSummary.Rerender ls_empty 1000 (depsA "Hello");
                AutoSummary.TimerFires ] AutoSummary.initial in
  let a3 := AutoSummary.step a2 (AutoSummary.Rerender ls_empty 40000 (depsA "Hello!")) in
  let a4 := AutoSummary.step a3 AutoSummary.TimerFires in
  AutoSummary.a_attempts a2 = [(keyA, 1000)]
  /\ AutoSummary.a_running a2 = [keyA]
  /\ AutoSummary.a_attempts a3 = [(keyA, 40000); (keyA, 1000)]
  /\ AutoSummary.a_running a3 = [keyA]
  /\ AutoSummary.a_running a4 = [keyA; keyA].
Proof. cbv zeta. repeat split; vm_compute; reflexivity. Qed.

(** ** Marker block of the draft *)

Section InsertionFacts.

Import Insertion.

Definition Suffix (v s : jsstring) : Prop := exists u, s = u ++ v.

(** No occurrence of [sep] in [X ++ rest] starts inside [X]. *)
Definition noOccBefore (sep X rest : jsstring) : Prop :=
  forall v, v <> [] -> Suffix v X -> startsWith sep (v ++ rest) = false.

(** The first code unit of [sep] does not occur again in [sep]. *)
Definition headFree (sep : jsstring) : bool :=
  match sep with
  | h :: tl => negb (existsb (Z.eqb h) tl)
  | [] => false
  end.

(** [rest] is empty or begins with the first code unit of [sep]. *)
Definition nextIsHead (sep rest : jsstring) : bool :=
  match sep, rest with
  | _ :: _, [] => true
  | h :: _, c :: _ => c =? h
  | [], _ => false
  end.

(** [p] and [s] differ at a position both have. *)
Fixpoint mismatch (p s : jsstring) : bool :=
  match p, s with
  | a :: p', b :: s' => negb (a =? b) || mismatch p' s'
  | _, _ => false
  end.

Fixpoint tails (s : jsstring) : list jsstring :=
  match s with
  | [] => []
  | _ :: s' => s :: tails s'
  end.

Lemma Suffix_refl s : Suffix s s.
Proof. exists []. reflexivity. Qed.

Lemma Suffix_cons v c s : Suffix v s -> Suffix v (c :: s).
Proof. intros [u ->]. exists (c :: u). reflexivity. Qed.

Lemma Suffix_app_inv v a b :
  Suffix v (a ++ b) ->
  (exists va, va <> [] /\ Suffix va a /\ v = va ++ b) \/ Suffix v b.
Proof.
  induction a as [| c a IH]; intros Hs; [right; exact Hs |].
  destruct Hs as [[| c' u] Hu]; cbn in Hu.
  - left. exists (c :: a). repeat split; [discriminate | apply Suffix_refl | rewrite <- Hu; reflexivity].
  - injection Hu as _ Hu.
    destruct IH as [(va & Hne & Hva & ->) | Hb]; [exists u; exact Hu | |].
    + left. exists va. repeat split; [exact Hne | apply Suffix_cons, Hva].
    + right. exact Hb.
Qed.

Lemma noOcc_app sep a b rest :
  noOccBefore sep a (b ++ rest) -> noOccBefore sep b rest ->
  noOccBefore sep (a ++ b) rest.
Proof.
  intros Ha Hb v Hne Hs.
  destruct (Suffix_app_inv v a b Hs) as [(va & Hva & Hsa & ->) | Hsb].
  - rewrite <- List.app_assoc. apply Ha; assumption.
  - apply Hb; assumption.
Qed.

Lemma noOcc_suffix sep c X rest :
  noOccBefore sep (c :: X) rest -> noOccBefore sep X rest.
Proof. intros H v Hne Hs. apply H; [exact Hne | apply Suffix_cons, Hs]. Qed.

Lemma startsWith_app_self sep rest : startsWith sep (sep ++ rest) = true.
Proof.
  induction sep as [| c sep IH]; cbn; [reflexivity |].
  rewrite Z.eqb_refl. exact IH.
Qed.

Lemma startsWith_app_inv p x y :
  startsWith p (x ++ y) = true ->
  startsWith p x = true \/ exists p2, p = x ++ p2 /\ startsWith p2 y = true.
Proof.
  revert x. induction p as [| a p IH]; intros x H; [left; reflexivity |].
  destruct x as [| b x]; cbn in H.
  - right. exists (a :: p). split; [reflexivity | exact H].
  - apply andb_prop in H as [Hab H]. apply Z.eqb_eq in Hab. subst b.
    destruct (IH x H) as [Hl | (p2 & -> & Hp2)].
    + left. cbn. rewrite Z.eqb_refl. exact Hl.
    + right. exists p2. split; [reflexivity | exact Hp2].
Qed.

Lemma startsWith_includes sep s : startsWith sep s = true -> includes sep s = true.
Proof. intros H. destruct s; cbn in *; rewrite H; reflexivity. Qed.

Lemma includes_Suffix sep v s :
  Suffix v s -> includes sep v = true -> includes sep s = true.
Proof.
  intros [u ->] Hv. induction u as [| c u IH]; [exact Hv |].
  cbn. rewrite IH. apply orb_true_r.
Qed.

Lemma includes_mid sep a b : includes sep (a ++ sep ++ b) = true.
Proof.
  apply (includes_Suffix sep (sep ++ b)); [exists a; reflexivity |].
  apply startsWith_includes, startsWith_app_self.
Qed.

(** A piece that does not contain [sep] and is followed by the first code
    unit of [sep] (or by nothing) holds no start of an occurrence. *)
Lemma noOcc_free sep a rest :
  headFree sep = true -> nextIsHead sep rest = true -> includes sep a = false ->
  noOccBefore sep a rest.
Proof.
  intros Hh Hn Ha v Hne Hs.
  destruct (startsWith sep (v ++ rest)) eqn:E; [exfalso | reflexivity].
  assert (Hno : startsWith sep v = true -> False).
  { intros Hv. apply startsWith_includes in Hv.
    rewrite (includes_Suffix sep v a Hs Hv) in Ha. discriminate. }
  apply startsWith_app_inv in E as [E | (p2 & Hp & E)]; [exact (Hno E) |].
  destruct p2 as [| q p2].
  - apply Hno. rewrite Hp, app_nil_r.
    rewrite <- (app_nil_r v) at 2. apply startsWith_app_self.
  - destruct sep as [| h tl]; [discriminate |].
    destruct rest as [| c r]; [cbn in E; discriminate |].
    cbn in Hn, E. apply andb_prop in E as [Eq _].
    apply Z.eqb_eq in Eq. apply Z.eqb_eq in Hn. subst c q.
    destruct v as [| v0 v]; [contradiction |].
    cbn in Hp. injection Hp as _ ->.
    cbn in Hh. rewrite existsb_app in Hh. cbn in Hh.
    rewrite Z.eqb_refl in Hh. cbn in Hh. rewrite orb_true_r in Hh. discriminate.
Qed.

Lemma mismatch_startsWith p s t : mismatch p s = true -> startsWith p (s ++ t) = false.
Proof.
  revert s. induction p as [| a p IH]; intros s H; [destruct s; discriminate |].
  destruct s as [| b s]; [discriminate |]. cbn in *.
  destruct (a =? b); cbn in *; [apply IH, H | reflexivity].
Qed.

Lemma Suffix_in_tails v s : v <> [] -> Suffix v s -> In v (tails s).
Proof.
  intros Hne. induction s as [| c s IH]; intros [u Hu].
  - destruct u; destruct v; try discriminate. contradiction.
  - destruct u as [| c' u]; cbn in Hu.
    + subst v. left. reflexivity.
    + injection Hu as _ Hu. right. apply IH. exists u. exact Hu.
Qed.

(** A fixed piece none of whose tails can begin an occurrence. *)
Lemma noOcc_literal sep a rest :
  forallb (mismatch sep) (tails a) = true -> noOccBefore sep a rest.
Proof.
  intros H v Hne Hs. apply mismatch_startsWith.
  rewrite forallb_forall in H. apply H, Suffix_in_tails; assumption.
Qed.

Lemma splitFrom_skip sep x cur rest :
  splitFrom sep (length x) cur (x ++ rest) = splitFrom sep 0 cur rest.
Proof. induction x as [| c x IH]; [reflexivity | exact IH]. Qed.

(** Up to the first occurrence of the separator. *)
Lemma splitFrom_first sep X rest cur :
  sep <> [] -> noOccBefore sep X (sep ++ rest) ->
  splitFrom sep 0 cur (X ++ sep ++ rest) = (rev cur ++ X) :: splitFrom sep 0 [] rest.
Proof.
  intros Hsep. revert cur. induction X as [| c X IH]; intros cur Hno.
  - destruct sep as [| s0 sep]; [contradiction |].
    cbn [app]. change (s0 :: sep ++ rest) with ((s0 :: sep) ++ rest).
    cbn [splitFrom app]. change (s0 :: sep ++ rest) with ((s0 :: sep) ++ rest).
    rewrite startsWith_app_self. rewrite app_nil_r. f_equal.
    cbn [length]. replace (S (length sep) - 1)%nat with (length sep) by lia.
    apply splitFrom_skip.
  - cbn [app splitFrom].
    change (c :: X ++ sep ++ rest) with ((c :: X) ++ sep ++ rest).
    rewrite (Hno (c :: X)) by (discriminate || apply Suffix_refl).
    rewrite (IH (c :: cur)) by (eapply noOcc_suffix, Hno).
    cbn [rev]. rewrite <- List.app_assoc. reflexivity.
Qed.

Lemma splitFrom_none sep X cur :
  noOccBefore sep X [] -> splitFrom sep 0 cur X = [rev cur ++ X].
Proof.
  revert cur. induction X as [| c X IH]; intros cur Hno.
  - cbn. rewrite app_nil_r. reflexivity.
  - cbn [splitFrom].
    pose proof (Hno (c :: X) ltac:(discriminate) (Suffix_refl _)) as H.
    rewrite app_nil_r in H. rewrite H.
    rewrite (IH (c :: cur)) by (eapply noOcc_suffix, Hno).
    cbn [rev]. rewrite <- List.app_assoc. reflexivity.
Qed.

Lemma countOcc_noOcc sep X rest :
  noOccBefore sep X rest -> countOcc sep (X ++ rest) = countOcc sep rest.
Proof.
  induction X as [| c X IH]; intros Hno; [reflexivity |].
  cbn [app countOcc].
  change (c :: X ++ rest) with ((c :: X) ++ rest).
  rewrite (Hno (c :: X)) by (discriminate || apply Suffix_refl).
  cbn. apply IH. eapply noOcc_suffix, Hno.
Qed.

Lemma countOcc_self h tl rest :
  countOcc (h :: tl) ((h :: tl) ++ rest) = S (countOcc (h :: tl) (tl ++ rest)).
Proof.
  cbn [app countOcc]. change (h :: tl ++ rest) with ((h :: tl) ++ rest).
  rewrite startsWith_app_self. reflexivity.
Qed.

Ltac free_piece :=
  apply noOcc_free; [vm_compute; reflexivity | vm_compute; reflexivity | assumption].

Ltac literal_piece := apply noOcc_literal; vm_compute; reflexivity.

Lemma marked_form (pre inner post : jsstring) :
  pre ++ wrapAiBlock inner ++ post
  = pre ++ AI_BLOCK_START ++ DIV_OPEN ++ inner ++ DIV_CLOSE ++ AI_BLOCK_END ++ post.
Proof. unfold wrapAiBlock. rewrite <- !List.app_assoc. reflexivity. Qed.

Lemma marked_form_end (pre inner post : jsstring) :
  pre ++ AI_BLOCK_START ++ DIV_OPEN ++ inner ++ DIV_CLOSE ++ AI_BLOCK_END ++ post
  = (pre ++ AI_BLOCK_START ++ DIV_OPEN ++ inner ++ DIV_CLOSE) ++ AI_BLOCK_END ++ post.
Proof. rewrite <- !List.app_assoc. reflexivity. Qed.

Lemma no_END_before_END (pre inner post : jsstring) :
  includes AI_BLOCK_END pre = false -> includes AI_BLOCK_END inner = false ->
  noOccBefore AI_BLOCK_END (pre ++ AI_BLOCK_START ++ DIV_OPEN ++ inner ++ DIV_CLOSE)
    (AI_BLOCK_END ++ post).
Proof.
  intros Hpre Hin.
  apply noOcc_app; [free_piece |].
  apply noOcc_app; [literal_piece |].
  apply noOcc_app; [literal_piece |].
  apply noOcc_app; [free_piece | literal_piece].
Qed.

Lemma split_START_before (pre rest : jsstring) :
  includes AI_BLOCK_START pre = false ->
  split AI_BLOCK_START (pre ++ AI_BLOCK_START ++ rest) !! 0%nat = Some pre.
Proof.
  intros Hpre. unfold split.
  rewrite splitFrom_first; [reflexivity | discriminate | free_piece].
Qed.

Lemma split_END_after (pre inner post : jsstring) :
  includes AI_BLOCK_END pre = false -> includes AI_BLOCK_END inner = false ->
  includes AI_BLOCK_END post = false ->
  split AI_BLOCK_END
    (pre ++ AI_BLOCK_START ++ DIV_OPEN ++ inner ++ DIV_CLOSE ++ AI_BLOCK_END ++ post)
    !! 1%nat = Some post.
Proof.
  intros Hpre Hin Hpost. rewrite marked_form_end. unfold split.
  rewrite splitFrom_first; [| discriminate | apply no_END_before_END; assumption].
  rewrite splitFrom_none by free_piece. reflexivity.
Qed.

Lemma countOcc_START_self (rest : jsstring) :
  countOcc AI_BLOCK_START (AI_BLOCK_START ++ rest)
  = S (countOcc AI_BLOCK_START (List.tl AI_BLOCK_START ++ rest)).
Proof. exact (countOcc_self 60 (List.tl AI_BLOCK_START) rest). Qed.

Lemma countOcc_END_self (rest : jsstring) :
  countOcc AI_BLOCK_END (AI_BLOCK_END ++ rest)
  = S (countOcc AI_BLOCK_END (List.tl AI_BLOCK_END ++ rest)).
Proof. exact (countOcc_self 60 (List.tl AI_BLOCK_END) rest). Qed.

Lemma countOcc_free_end (sep post : jsstring) :
  headFree sep = true -> includes sep post = false -> countOcc sep post = 0%nat.
Proof.
  intros Hh Hp. rewrite <- (app_nil_r post).
  rewrite countOcc_noOcc.
  - destruct sep; [discriminate | reflexivity].
  - apply noOcc_free; [exact Hh | destruct sep; [discriminate | reflexivity] | exact Hp].
Qed.

Lemma one_START (pre inner post : jsstring) :
  includes AI_BLOCK_START pre = false -> includes AI_BLOCK_START inner = false ->
  includes AI_BLOCK_START post = false ->
  countOcc AI_BLOCK_START
    (pre ++ AI_BLOCK_START ++ DIV_OPEN ++ inner ++ DIV_CLOSE ++ AI_BLOCK_END ++ post)
  = 1%nat.
Proof.
  intros Hpre Hin Hpost.
  rewrite (countOcc_noOcc AI_BLOCK_START pre) by free_piece.
  rewrite countOcc_START_self. f_equal.
  rewrite (countOcc_noOcc AI_BLOCK_START (List.tl AI_BLOCK_START)) by literal_piece.
  rewrite (countOcc_noOcc AI_BLOCK_START DIV_OPEN) by literal_piece.
  rewrite (countOcc_noOcc AI_BLOCK_START inner) by free_piece.
  rewrite (countOcc_noOcc AI_BLOCK_START DIV_CLOSE) by literal_piece.
  rewrite (countOcc_noOcc AI_BLOCK_START AI_BLOCK_END) by literal_piece.
  apply countOcc_free_end; [vm_compute; reflexivity | exact Hpost].
Qed.

Lemma one_END (pre inner post : jsstring) :
  includes AI_BLOCK_END pre = false -> includes AI_BLOCK_END inner = false ->
  includes AI_BLOCK_END post = false ->
  countOcc AI_BLOCK_END
    (pre ++ AI_BLOCK_START ++ DIV_OPEN ++ inner ++ DIV_CLOSE ++ AI_BLOCK_END ++ post)
  = 1%nat.
Proof.
  intros Hpre Hin Hpost. rewrite marked_form_end.
  rewrite countOcc_noOcc by (apply no_END_before_END; assumption).
  rewrite countOcc_END_self. f_equal.
  rewrite (countOcc_noOcc AI_BLOCK_END (List.tl AI_BLOCK_END)) by literal_piece.
  apply countOcc_free_end; [vm_compute; reflexivity | exact Hpost].
Qed.

(** C9, as amended. The draft is read as the text [pre], one marked block
    from an earlier insertion with content [old], and the text [post]. When
    the host reads and writes the body, neither marker occurs in [pre] or
    [post], the earlier content holds no end marker and the new content
    holds neither marker, inserting again replaces that block: the new body
    is [pre], the new block and [post], and each marker occurs in it
    exactly once. *)
Theorem replace_marked_block (h : Host) (pre old post new : jsstring) :
  h_api h = true -> h_getOk h = true -> h_setOk h = true ->
  includes AI_BLOCK_START pre = false -> includes AI_BLOCK_END pre = false ->
  includes AI_BLOCK_END old = false ->
  includes AI_BLOCK_START post = false -> includes AI_BLOCK_END post = false ->
  includes AI_BLOCK_START new = false -> includes AI_BLOCK_END new = false ->
  replaceOrInsertAiBlock h (pre ++ wrapAiBlock old ++ post) (wrapAiBlock new)
  = (true, pre ++ wrapAiBlock new ++ post)
  /\ countOcc AI_BLOCK_START (pre ++ wrapAiBlock new ++ post) = 1%nat
  /\ countOcc AI_BLOCK_END (pre ++ wrapAiBlock new ++ post) = 1%nat.
Proof.
  intros Hapi Hget Hset HSpre HEpre HEold HSpost HEpost HSnew HEnew.
  split; [| split].
  - unfold replaceOrInsertAiBlock. rewrite Hapi, Hget, Hset. cbn [negb].
    rewrite (marked_form pre old post).
    rewrite (includes_mid AI_BLOCK_START pre).
    rewrite (split_START_before pre _ HSpre).
    rewrite (split_END_after pre old post HEpre HEold HEpost).
    rewrite marked_form_end at 1. rewrite includes_mid.
    cbn [andb default]. reflexivity.
  - rewrite marked_form. apply one_START; assumption.
  - rewrite marked_form. apply one_END; assumption.
Qed.

End InsertionFacts.

(** A host that lets the add-in read, write and prepend the body. *)
Definition host_ok : Insertion.Host :=
  {| Insertion.h_api := true; Insertion.h_getOk := true; Insertion.h_setOk := true;
     Insertion.h_hasPrepend := true; Insertion.h_prependOk := true |}.

Lemma replace_marked_block_witness :
  Insertion.replaceOrInsertAiBlock host_ok
    (js "<p>Hi</p>" ++ Insertion.wrapAiBlock (js "<p>one</p>") ++ js "<p>Bye</p>")
    (Insertion.wrapAiBlock (js "<p>two</p>"))
  = (true, js "<p>Hi</p>" ++ Insertion.wrapAiBlock (js "<p>two</p>") ++ js "<p>Bye</p>")
  /\ Insertion.countOcc Insertion.AI_BLOCK_START
       (js "<p>Hi</p>" ++ Insertion.wrapAiBlock (js "<p>two</p>") ++ js "<p>Bye</p>")
     = 1%nat
  /\ Insertion.countOcc Insertion.AI_BLOCK_END
       (js "<p>Hi</p>" ++ Insertion.wrapAiBlock (js "<p>two</p>") ++ js "<p>Bye</p>")
     = 1%nat.
Proof.
  apply (replace_marked_block host_ok (js "<p>Hi</p>") (js "<p>one</p>")
           (js "<p>Bye</p>") (js "<p>two</p>")); vm_compute; reflexivity.
Defined.

(** A draft whose marked block holds a result that itself contains the end
    marker (a comment node, which [sanitizeAiHtml] keeps). *)
Definition draft_with_marker_inside : jsstring :=
  js "<p>Hi</p>"
  ++ Insertion.wrapAiBlock (js "<p>one</p>" ++ Insertion.AI_BLOCK_END ++ js "<p>more</p>")
  ++ js "<p>Bye</p>".

(** C9 as stated fails on that draft: it contains both markers from the
    earlier insertion, yet inserting again does not keep the text after
    the block.  [split(AI_BLOCK_END)[1]] is the piece between the first and
    the second end marker, so the new body ends with the rest of the old
    content, and the text [<p>Bye</p>] that followed the block is lost. *)
Lemma end_marker_in_block_drops_tail :
  Insertion.includes Insertion.AI_BLOCK_START draft_with_marker_inside = true
  /\ Insertion.includes Insertion.AI_BLOCK_END draft_with_marker_inside = true
  /\ Insertion.replaceOrInsertAiBlock host_ok draft_with_marker_inside
       (Insertion.wrapAiBlock (js "<p>two</p>"))
     = (true, js "<p>Hi</p>" ++ Insertion.wrapAiBlock (js "<p>two</p>")
              ++ js "<p>more</p></div>")
  /\ Insertion.includes (js "<p>Bye</p>")
       (Insertion.replaceOrInsertAiBlock host_ok draft_with_marker_inside
          (Insertion.wrapAiBlock (js "<p>two</p>"))).2 = false.
Proof. repeat split; vm_compute; reflexivity. Qed.

(** Inserting twice in a row into a draft without markers leaves one
    block, holding the second content. *)
Example insert_twice_one_block :
  let first := Insertion.replaceOrInsertAiBlock host_ok (js "<p>draft</p>")
                 (Insertion.wrapAiBlock (js "<p>one</p>")) in
  let second := Insertion.replaceOrInsertAiBlock host_ok first.2
                  (Insertion.wrapAiBlock (js "<p>two</p>")) in
  second = (true, Insertion.wrapAiBlock (js "<p>two</p>") ++ js "<p>draft</p>")
  /\ Insertion.countOcc Insertion.AI_BLOCK_START second.2 = 1%nat.
Proof. cbv zeta. split; vm_compute; reflexivity. Qed.

(** * Further properties of the stores *)

Section StoreMore.

Import Store.

Lemma length_lastN {A} (n : nat) (l : list A) : (length (lastN n l) <= n)%nat.
Proof. unfold lastN. rewrite length_skipn. lia. Qed.

Lemma lastN_suffix {A} (n : nat) (l : list A) : exists pre, l = pre ++ lastN n l.
Proof.
  exists (firstn (length l - n) l). unfold lastN. symmetry. apply firstn_skipn.
Qed.

(** X1. [saveAiHistory] stores at most 300 entries: the unexpired entries
    it was given, cut down to the most recent ones (a tail of that list),
    and it touches no other key. *)
Theorem saveAiHistory_bounded (ls : LocalStorage) (now : Z)
    (entries : list AiHistoryEntry) :
  ls_full ls = false ->
  exists stored,
    ls_historyV2 (saveAiHistory ls now entries) = Parsed stored
    /\ (length stored <= 300)%nat
    /\ (exists older, List.filter (historyFresh now) entries = older ++ stored)
    /\ (forall x, In x stored -> In x entries /\ historyFresh now x = true)
    /\ ls_summary (saveAiHistory ls now entries) = ls_summary ls
    /\ ls_workspace (saveAiHistory ls now entries) = ls_workspace ls
    /\ ls_historyV1 (saveAiHistory ls now entries) = ls_historyV1 ls.
Proof.
  intros Hf. unfold saveAiHistory. rewrite Hf. cbn.
  exists (lastN 300 (List.filter (historyFresh now) entries)).
  split; [reflexivity |]. split; [apply length_lastN |].
  split; [apply lastN_suffix |]. split; [| repeat split].
  intros x Hx. apply In_lastN in Hx. apply filter_In in Hx. exact Hx.
Qed.

Lemma migrateEntry_idem (x : AiHistoryEntry) :
  migrateEntry (migrateEntry x) = migrateEntry x.
Proof.
  unfold migrateEntry. cbn.
  destruct (h_emailKey x) as [[| c k] |]; cbn;
    destruct (strOrEmpty (h_conversationId x)) as [| d cid]; reflexivity.
Qed.

Lemma filter_all {A} (p : A -> bool) (l : list A) :
  (forall x, In x l -> p x = true) -> List.filter p l = l.
Proof.
  induction l as [| a l IH]; intros H; cbn; [reflexivity |].
  rewrite (H a) by (left; reflexivity). f_equal. apply IH.
  intros x Hx. apply H. right. exact Hx.
Qed.

Lemma prune_history_idem (now : Z) (arr : list AiHistoryEntry) :
  map migrateEntry
    (List.filter (historyFresh now)
       (map migrateEntry (List.filter (historyFresh now) arr)))
  = map migrateEntry (List.filter (historyFresh now) arr).
Proof.
  rewrite filter_all.
  - rewrite map_map. apply map_ext. intros x. apply migrateEntry_idem.
  - intros x Hx. apply in_map_iff in Hx as (y & <- & Hy).
    apply filter_In in Hy as [_ Hy]. exact Hy.
Qed.

(** X2. Reading the history is idempotent: a second [loadAiHistory] at the
    same time returns the same entries and leaves the storage as the first
    read left it; every entry returned is unexpired and carries an
    [emailKey] and a [conversationId]. *)
Theorem loadAiHistory_idempotent (ls : LocalStorage) (now : Z) :
  ls_full ls = false ->
  loadAiHistory (loadAiHistory ls now).2 now = loadAiHistory ls now
  /\ forall x, In x (loadAiHistory ls now).1 ->
       historyFresh now x = true
       /\ is_Some (h_emailKey x) /\ is_Some (h_conversationId x).
Proof.
  intros Hf. split.
  - unfold loadAiHistory. rewrite Hf.
    destruct ls as [sm wk v1 v2 fl]. cbn in *. subst fl.
    destruct v2 as [| | arr2]; cbn.
    + destruct v1 as [| | arr1]; cbn; try reflexivity.
      rewrite prune_history_idem. reflexivity.
    + reflexivity.
    + rewrite prune_history_idem. reflexivity.
  - intros x Hx. unfold loadAiHistory in Hx. rewrite Hf in Hx.
    assert (Hgen : forall arr,
              In x (map migrateEntry (List.filter (historyFresh now) arr)) ->
              historyFresh now x = true
              /\ is_Some (h_emailKey x) /\ is_Some (h_conversationId x)).
    { intros arr Hin. apply in_map_iff in Hin as (y & <- & Hy).
      apply filter_In in Hy as [_ Hy]. rewrite historyFresh_migrate.
      split; [exact Hy |]. split; cbn; eauto. }
    destruct (ls_historyV2 ls) as [| | arr2]; cbn in Hx.
    + destruct (ls_historyV1 ls) as [| | arr1]; cbn in Hx;
        [destruct Hx | destruct Hx | exact (Hgen _ Hx)].
    + destruct Hx.
    + exact (Hgen _ Hx).
Qed.

Lemma reviveWorkspace_Some (now : Z) (k : list Z) (v v' : EmailWorkspace) :
  reviveWorkspace now k v = Some v' ->
  ws_key v' = k
  /\ exists u, ws_updatedAt v' = Some u /\ u <> 0 /\ now - u <= WORKSPACE_KEEP_MS.
Proof.
  unfold reviveWorkspace.
  destruct (match ws_updatedAt v with Some u => Some u | None => ws_ts v end)
    as [u |]; [| discriminate].
  destruct (Z.eqb_spec u 0) as [| Hu]; [discriminate |]. cbn.
  destruct (Z.gtb_spec (now - u) WORKSPACE_KEEP_MS); [discriminate |].
  intros [= <-]. cbn. split; [reflexivity |]. exists u. repeat split; [exact Hu | lia].
Qed.

(** X3. Saving the workspace of one email does not change what is read for
    any other email. *)
Theorem saveWorkspace_other_keys (ls : LocalStorage) (now : Z)
    (ws : EmailWorkspace) (k : list Z) :
  ls_full ls = false -> k <> ws_key ws ->
  (loadWorkspace (saveWorkspace ls now ws) now k).1 = (loadWorkspace ls now k).1.
Proof.
  intros Hf Hk.
  destruct (saveWorkspace_stored ls now ws Hf) as [Hf' Hst].
  unfold loadWorkspace.
  pose proof (loadWorkspaces_parsed _ now _ Hf' Hst) as Hall.
  destruct (loadWorkspaces (saveWorkspace ls now ws) now) as [all' ls1].
  cbn in Hall. subst all'.
  pose proof (loadWorkspaces_revived ls now k) as Hrev.
  destruct (loadWorkspaces ls now) as [all ls0]. cbn in *.
  rewrite map_lookup_imap, lookup_insert_ne by congruence.
  destruct (all !! k) as [v |] eqn:E; cbn; [| reflexivity].
  rewrite (Hrev v eq_refl). reflexivity.
Qed.

(** X4. For a key that holds a colon, as every key built by
    [makeEmailKey] does, and a workspace namespace that holds workspace
    records whose timestamps are numbers or missing (or nothing, or a text
    that does not parse), with or without room left in the storage,
    [loadWorkspace] at a non-zero time returns a record for the key asked
    for, with a non-zero [updatedAt] inside the retention window. *)
Theorem loadWorkspace_in_window (ls : LocalStorage) (now : Z) (key : list Z) :
  now <> 0 ->
  In 58 key ->
  ws_key (loadWorkspace ls now key).1 = key
  /\ exists u, ws_updatedAt (loadWorkspace ls now key).1 = Some u
       /\ u <> 0 /\ now - u <= WORKSPACE_KEEP_MS.
Proof.
  intros Hnow _. unfold loadWorkspace.
  pose proof (loadWorkspaces_revived ls now key) as Hrev.
  destruct (loadWorkspaces ls now) as [all ls1]. cbn in *.
  destruct (all !! key) as [hit |]; cbn.
  - apply (reviveWorkspace_Some now key hit hit). apply Hrev. reflexivity.
  - split; [reflexivity |]. exists now. repeat split; [exact Hnow |].
    unfold WORKSPACE_KEEP_MS. lia.
Qed.

(** X5. Writing the summary of one email keeps the summary of every other
    email that is still inside the retention window, as it was, and removes
    the ones that are not. *)
Theorem upsertSummary_other_keys (ls : LocalStorage) (now : Z)
    (m : gmap (list Z) SummaryRow) (k k' text cid : jsstring) :
  ls_full ls = false -> ls_summary ls = Parsed m -> k' <> k ->
  exists m', ls_summary (upsertSummary ls now k text cid).1 = Parsed m'
    /\ m' !! k'
       = match m !! k' with
         | Some row => if summaryFresh now row then Some row else None
         | None => None
         end.
Proof.
  intros Hf Hm Hk. unfold upsertSummary. rewrite Hm, Hf. cbn.
  eexists. split; [reflexivity |].
  rewrite map_lookup_filter, lookup_insert_ne by congruence.
  destruct (m !! k') as [row |]; cbn; [| reflexivity].
  destruct (summaryFresh now row) eqn:E.
  - rewrite option_guard_True by reflexivity. reflexivity.
  - rewrite option_guard_False by discriminate. reflexivity.
Qed.

(** X6. When [setItem] throws, no operation changes the storage and
    [upsertSummary] dispatches no event; the history then reads as empty. *)
Theorem full_storage_is_left_alone (ls : LocalStorage) (now : Z)
    (ws : EmailWorkspace) (entries : list AiHistoryEntry)
    (k text cid : jsstring) (key : list Z) :
  ls_full ls = true ->
  saveWorkspace ls now ws = ls
  /\ upsertSummary ls now k text cid = (ls, [])
  /\ saveAiHistory ls now entries = ls
  /\ loadAiHistory ls now = ([], ls)
  /\ (loadWorkspace ls now key).2 = ls.
Proof.
  intros Hf.
  assert (Hlw : (loadWorkspaces ls now).2 = ls).
  { unfold loadWorkspaces. destruct (ls_workspace ls); cbn; try reflexivity.
    destruct (negb _); [rewrite Hf |]; reflexivity. }
  repeat split.
  - unfold saveWorkspace. destruct (loadWorkspaces ls now) as [all ls1].
    cbn in Hlw. subst ls1. rewrite Hf. reflexivity.
  - unfold upsertSummary. rewrite Hf. destruct (ls_summary ls); reflexivity.
  - unfold saveAiHistory. rewrite Hf. reflexivity.
  - unfold loadAiHistory. rewrite Hf.
    destruct (ls_historyV2 ls); [destruct (ls_historyV1 ls) | |]; reflexivity.
  - unfold loadWorkspace. destruct (loadWorkspaces ls now) as [all ls1].
    cbn in Hlw. subst ls1. destruct (all !! key); reflexivity.
Qed.

End StoreMore.

(** * The task pane shell *)

Section AppFacts.

Import Store AppView.

Lemma rowValid_iff_not_expired (now : Z) (row : SummaryRow) (ts : Z) :
  s_ts row = Some ts ->
  rowValid now row = negb (now - ts >? WORKSPACE_KEEP_MS).
Proof.
  intros H. unfold rowValid. rewrite H.
  change SUMMARY_KEEP_MS with WORKSPACE_KEEP_MS.
  destruct (Z.leb_spec (now - ts) WORKSPACE_KEEP_MS);
    destruct (Z.gtb_spec (now - ts) WORKSPACE_KEEP_MS); try reflexivity; lia.
Qed.

(** X7. The shell's [loadSummary] prunes on read.  For a summaries
    namespace whose rows hold a string as text and a number or nothing as
    timestamp, and a working storage: afterwards the namespace holds
    exactly the rows that had a timestamp inside the retention window, each
    unchanged. *)
Theorem shell_loadSummary_prunes (ls : LocalStorage) (now : Z) (key : jsstring)
    (m : gmap (list Z) SummaryRow) :
  ls_full ls = false -> ls_summary ls = Parsed m ->
  exists m', ls_summary (AppView.loadSummary ls now key).2 = Parsed m'
    /\ forall k, m' !! k
                 = match m !! k with
                   | Some row => if rowValid now row then Some row else None
                   | None => None
                   end.
Proof.
  intros Hf Hm. unfold AppView.loadSummary. rewrite Hm, Hf.
  set (pruned := filter (fun kv : list Z * SummaryRow => rowValid now kv.2 = true) m).
  assert (Hp : forall k, pruned !! k
                         = match m !! k with
                           | Some row => if rowValid now row then Some row else None
                           | None => None
                           end).
  { intros k. unfold pruned. rewrite map_lookup_filter.
    destruct (m !! k) as [row |]; cbn; [| reflexivity].
    destruct (rowValid now row) eqn:E.
    - rewrite option_guard_True by reflexivity. reflexivity.
    - rewrite option_guard_False by discriminate. reflexivity. }
  destruct (bool_decide (pruned <> m)) eqn:E; cbn.
  - exists pruned. split; [reflexivity | exact Hp].
  - apply bool_decide_eq_false in E. apply dec_stable in E.
    exists m. split; [exact Hm |]. intros k.
    pose proof (Hp k) as Hk. rewrite E in Hk. exact Hk.
Qed.

(** X8. The summary card of the shell and the AI panel agree.  With a
    working storage (one whose [setItem] does not throw), for a stored row
    that holds a string as text and a number as timestamp, [loadSummary]
    of [App.tsx] and [loadSummary] of [AiPanel.tsx] return the same text
    for the same key at the same time. *)
Theorem summary_views_agree (ls : LocalStorage) (now : Z) (key : jsstring) :
  ls_full ls = false ->
  (forall m row, ls_summary ls = Parsed m -> m !! key = Some row ->
     is_Some (s_ts row)) ->
  (AppView.loadSummary ls now key).1 = (Store.loadSummary ls now key).1.
Proof.
  intros Hf Hts. unfold AppView.loadSummary, Store.loadSummary. rewrite Hf.
  destruct (ls_summary ls) as [| | m] eqn:Hm.
  - rewrite map_filter_empty. rewrite bool_decide_eq_false_2 by (intros H; apply H; reflexivity).
    rewrite lookup_empty. reflexivity.
  - reflexivity.
  - assert (Htxt : match filter (fun kv : list Z * SummaryRow => rowValid now kv.2 = true) m
                         !! key with
                   | Some v => s_text v
                   | None => []
                   end
                   = (match m !! key with
                      | Some row =>
                          match s_ts row with
                          | Some ts =>
                              if now - ts >? WORKSPACE_KEEP_MS then ([], ls)
                              else (s_text row, ls)
                          | None => (s_text row, ls)
                          end
                      | None => ([], ls)
                      end).1).
    { rewrite map_lookup_filter. destruct (m !! key) as [row |] eqn:Hk; cbn;
        [| reflexivity].
      destruct (Hts m row eq_refl Hk) as [ts Hrow]. rewrite Hrow.
      rewrite (rowValid_iff_not_expired now row ts Hrow).
      destruct (now - ts >? WORKSPACE_KEEP_MS); cbn.
      - rewrite option_guard_False by discriminate. reflexivity.
      - rewrite option_guard_True by reflexivity. reflexivity. }
    destruct (bool_decide _); cbn; exact Htxt.
Qed.

(** X9. Write, notify, display: when [upsertSummary] succeeds, the event it
    dispatches makes a shell that shows the same email display exactly the
    text just written, and leaves a shell that shows another email as it
    is. *)
Theorem notified_shell_shows_summary (ls : LocalStorage) (now : Z)
    (k text cid other shown : jsstring) :
  ls_full ls = false -> ls_summary ls <> Corrupt -> now <> 0 ->
  truthy k = true -> other <> k ->
  exists ev,
    (upsertSummary ls now k text cid).2 = [ev]
    /\ ev_emailKey ev = k
    /\ onSummaryUpdated k ev (upsertSummary ls now k text cid).1 shown = text
    /\ onSummaryUpdated other ev (upsertSummary ls now k text cid).1 shown = shown.
Proof.
  intros Hf Hc Hnow Hk Hother.
  destruct (upsertSummary_stored ls now k text cid Hc Hf Hnow) as (m & Hm & Hrow & _).
  exists {| ev_emailKey := k; ev_conversationId := cid |}.
  assert (Hev : (upsertSummary ls now k text cid).2
                = [ {| ev_emailKey := k; ev_conversationId := cid |} ]).
  { unfold upsertSummary. rewrite Hf.
    destruct (ls_summary ls); [reflexivity | congruence | reflexivity]. }
  split; [exact Hev |]. split; [reflexivity |]. split.
  - unfold onSummaryUpdated. cbn [ev_emailKey]. rewrite Hk.
    rewrite bool_decide_eq_true_2 by reflexivity. cbn [negb orb].
    rewrite Hm, Hrow. reflexivity.
  - unfold onSummaryUpdated. cbn [ev_emailKey]. rewrite Hk.
    rewrite bool_decide_eq_false_2 by congruence. reflexivity.
Qed.

(** X10. For an email that has a thread identifier and a message or item
    identifier, the memoised [emailKey] of the panel is always the key of
    the current context: the five dependencies of the [useMemo] determine
    the key outside the fallback branch. *)
Theorem memoEmailKey_current (toLowerCase : jsstring -> jsstring)
    (c0 c : Identity.AnyCtx) :
  Identity.in_fallback c = false ->
  memoEmailKey toLowerCase (Some c0) c = Identity.makeEmailKey toLowerCase c.
Proof.
  intros Hfb. unfold memoEmailKey.
  destruct (bool_decide (memoDeps c0 = memoDeps c)) eqn:E; [| reflexivity].
  apply bool_decide_eq_true in E. unfold memoDeps in E.
  injection E as E1 E2 E3 E4 E5.
  unfold Identity.in_fallback, Identity.present in Hfb.
  unfold Identity.makeEmailKey, Identity.normStr. cbv zeta.
  rewrite E1, E2, E3, E4.
  destruct (truthy (trim (strOrEmpty (Identity.a_conversationId c)))
            && truthy (trim (strOrEmpty (Identity.a_internetMessageId c))));
    [reflexivity |].
  destruct (truthy (trim (strOrEmpty (Identity.a_conversationId c)))
            && truthy (trim (strOrEmpty
                 (orElse (Identity.a_itemId c) (Identity.a_id c)))));
    [reflexivity | discriminate].
Qed.

(** Request numbers, newest first, never increase towards the past. *)
Fixpoint descending (l : list nat) : Prop :=
  match l with
  | [] => True
  | x :: rest => (forall y, In y rest -> (y <= x)%nat) /\ descending rest
  end.

Definition loaderStart (Link : Type) : LoadState Link :=
  {| l_seq := 0%nat;
     l_ctx := {| Identity.subject := None; Identity.fromEmail := None;
                 Identity.fromName := None; Identity.internetMessageId := None;
                 Identity.conversationId := None; Identity.itemId := None;
                 Identity.receivedDateTimeIso := None;
                 Identity.toRecipients := None; Identity.ccRecipients := None |};
     l_links := []; l_msg := None; l_showThread := false; l_applied := [] |}.

(** X11. Latest request wins in [loadContextAndLinks]: whatever the order
    in which calls start and their awaited results arrive, the requests
    whose results were applied appear in the order they were started, so a
    result of a superseded call is never applied after a result of a later
    call; and a result that arrives for a call that is not the latest
    changes nothing. *)
Theorem loader_latest_wins (Link : Type) (noItem : jsstring)
    (es : list (LoadEvent Link)) :
  let s := fold_left (loadStep Link noItem) es (loaderStart Link) in
  descending (l_applied Link s)
  /\ (forall y, In y (l_applied Link s) -> (y <= l_seq Link s)%nat)
  /\ (forall reqId c, reqId <> l_seq Link s ->
        loadStep Link noItem s (CtxResolved Link reqId c) = s)
  /\ (forall reqId l, reqId <> l_seq Link s ->
        loadStep Link noItem s (LinksResolved Link reqId l) = s).
Proof.
  cbv zeta.
  assert (Hinv : forall es s,
            descending (l_applied Link s)
            /\ (forall y, In y (l_applied Link s) -> (y <= l_seq Link s)%nat) ->
            descending (l_applied Link (fold_left (loadStep Link noItem) es s))
            /\ (forall y, In y (l_applied Link (fold_left (loadStep Link noItem) es s)) ->
                  (y <= l_seq Link (fold_left (loadStep Link noItem) es s))%nat)).
  { clear es. induction es as [| e es IH]; intros s Hs; [exact Hs |].
    cbn [fold_left]. apply IH. destruct Hs as [Hd Hle].
    assert (Happly : forall reqId, (reqId =? l_seq Link s)%nat = true ->
              descending (reqId :: l_applied Link s)
              /\ (forall y, In y (reqId :: l_applied Link s) -> (y <= l_seq Link s)%nat)).
    { intros reqId Hr. apply Nat.eqb_eq in Hr. subst reqId. split.
      - split; [exact Hle | exact Hd].
      - intros y [<- | Hy]; [lia | apply Hle, Hy]. }
    destruct e as [| reqId c | reqId msg | reqId l | reqId msg]; cbn [loadStep].
    - cbn. split; [exact Hd |]. intros y Hy. specialize (Hle y Hy). lia.
    - destruct (reqId =? l_seq Link s)%nat eqn:Er; cbn [negb]; [| split; assumption].
      destruct (negb (truthy _)); cbn; apply Happly, Er.
    - destruct (reqId =? l_seq Link s)%nat eqn:Er; cbn [negb]; [| split; assumption].
      cbn. apply Happly, Er.
    - destruct (reqId =? l_seq Link s)%nat eqn:Er; cbn [negb]; [| split; assumption].
      cbn. apply Happly, Er.
    - destruct (reqId =? l_seq Link s)%nat eqn:Er; cbn [negb]; [| split; assumption].
      cbn. apply Happly, Er. }
  destruct (Hinv es (loaderStart Link)) as [Hd Hle];
    [split; [exact I | intros y []] |].
  split; [exact Hd |]. split; [exact Hle |]. split.
  - intros reqId c Hne. cbn [loadStep].
    destruct (Nat.eqb_spec reqId (l_seq Link (fold_left (loadStep Link noItem) es
                                           (loaderStart Link))));
      [contradiction | reflexivity].
  - intros reqId l Hne. cbn [loadStep].
    destruct (Nat.eqb_spec reqId (l_seq Link (fold_left (loadStep Link noItem) es
                                           (loaderStart Link))));
      [contradiction | reflexivity].
Qed.

End AppFacts.

(** * Further properties of the recipient rows *)

Section RecipientMore.

Import Recipients.

Variable toLowerCase : jsstring -> jsstring.
Variable scanEmails : jsstring -> list jsstring.
Variable ctx : Identity.OutlookMessageContext.
Variable myEmailLower : jsstring.

Lemma NoDup_snoc_In {A} (l : list A) (x : A) :
  NoDup l -> ~ In x l -> NoDup (l ++ [x]).
Proof.
  intros Hl Hx. apply NoDup_app. repeat split; [exact Hl | | apply NoDup_singleton].
  intros y Hy Hy'. apply list_elem_of_In in Hy. apply list_elem_of_In in Hy'.
  destruct Hy' as [<- | []]. contradiction.
Qed.

Lemma normalizeEmailCandidate_shape (raw : option jsstring) :
  truthy (normalizeEmailCandidate toLowerCase raw) = true ->
  existsb (Z.eqb 64) (normalizeEmailCandidate toLowerCase raw) = true
  /\ (5 <= length (normalizeEmailCandidate toLowerCase raw))%nat.
Proof.
  unfold normalizeEmailCandidate. cbv zeta.
  set (s := toLowerCase (trim (dropWhileEnd isTrailJunk
                                 (dropWhile isOpenBracket (trim (strOrEmpty raw)))))).
  destruct (existsb (Z.eqb 64) s) eqn:Eat; cbn; [| discriminate].
  destruct (Z.ltb_spec (Z.of_nat (length s)) 5); [discriminate |].
  intros _. split; [exact Eat | lia].
Qed.

(** X12. [extractEmailsFromText] returns each address once: the list has no
    duplicates, and every address in it is non-empty, contains an at sign
    and has at least five code units. *)
Theorem extractEmailsFromText_clean (text : option jsstring) :
  NoDup (extractEmailsFromText toLowerCase scanEmails text)
  /\ forall e, In e (extractEmailsFromText toLowerCase scanEmails text) ->
       truthy e = true /\ existsb (Z.eqb 64) e = true /\ (5 <= length e)%nat.
Proof.
  unfold extractEmailsFromText. cbv zeta.
  match goal with
  | |- NoDup (fold_left ?f ?out []) /\ _ =>
      enough (H : forall clean,
                NoDup clean /\
                (forall e, In e clean ->
                   truthy e = true /\ existsb (Z.eqb 64) e = true
                   /\ (5 <= length e)%nat) ->
                NoDup (fold_left f out clean) /\
                (forall e, In e (fold_left f out clean) ->
                   truthy e = true /\ existsb (Z.eqb 64) e = true
                   /\ (5 <= length e)%nat))
        by (apply H; split; [constructor | intros e []])
  end.
  induction (scanEmails (strOrEmpty text)) as [| x out IH]; intros clean Hc; cbn;
    [exact Hc |].
  apply IH. destruct Hc as [Hnd Hall].
  destruct (truthy (normalizeEmailCandidate toLowerCase (Some x))) eqn:Et; cbn;
    [| split; assumption].
  destruct (bool_decide (normalizeEmailCandidate toLowerCase (Some x) ∈ clean)) eqn:Ein;
    [split; assumption |].
  apply bool_decide_eq_false in Ein. split.
  - apply NoDup_snoc_In; [exact Hnd |]. intros Hin. apply Ein, list_elem_of_In, Hin.
  - intros e He. apply in_app_or in He as [He | [<- | []]]; [apply Hall, He |].
    split; [exact Et | apply normalizeEmailCandidate_shape, Et].
Qed.

(** *** Grouping for the compose forms *)

Definition bucket (x : RecipientRole) (g : Grouped) : list jsstring :=
  match x with
  | roleTo => g_to g
  | roleCc => g_cc g
  | roleBcc => g_bcc g
  end.

Definition groupKey (x : RecipientRole) (e : jsstring) : jsstring :=
  roleName x ++ js ":" ++ e.

Lemma groupKey_inj x y (e e' : jsstring) :
  groupKey x e = groupKey y e' -> x = y /\ e = e'.
Proof.
  unfold groupKey. intros H.
  destruct x, y; vm_compute in H; try discriminate; injection H as ->; split; reflexivity.
Qed.

Lemma bucket_pushRole x y (e : jsstring) g :
  bucket x (pushRole y e g) = if decide (x = y) then bucket x g ++ [e] else bucket x g.
Proof. destruct x, y; reflexivity. Qed.

(** What the loop of [groupedRecipientsFromRows] maintains after the rows
    [done]. *)
Definition group_inv (done : list RecipientRow) (acc : Grouped * list jsstring) : Prop :=
  (forall x e, In e (bucket x acc.1) <-> In (groupKey x e) acc.2)
  /\ (forall x, NoDup (bucket x acc.1))
  /\ (forall x e, In e (bucket x acc.1) ->
        truthy e = true
        /\ exists r, In r done /\ include r = true /\ role r = x
             /\ normalizeEmailCandidate toLowerCase (Some (email r)) = e)
  /\ (forall r, In r done -> include r = true ->
        truthy (normalizeEmailCandidate toLowerCase (Some (email r))) = true ->
        In (normalizeEmailCandidate toLowerCase (Some (email r))) (bucket (role r) acc.1)).

Lemma groupStep_inv done acc r :
  group_inv done acc -> group_inv (done ++ [r]) (groupStep toLowerCase acc r).
Proof.
  intros (Hkey & Hnd & Hfrom & Hall). unfold groupStep. cbv zeta.
  assert (Hkeep : forall acc',
            acc' = acc ->
            (include r = true ->
             truthy (normalizeEmailCandidate toLowerCase (Some (email r))) = true ->
             In (normalizeEmailCandidate toLowerCase (Some (email r)))
               (bucket (role r) acc.1)) ->
            group_inv (done ++ [r]) acc').
  { intros acc' -> Hr. split; [exact Hkey |]. split; [exact Hnd |]. split.
    - intros x e He. destruct (Hfrom x e He) as (Ht & r0 & Hin & Hrest).
      split; [exact Ht |]. exists r0. split; [apply in_or_app; left; exact Hin | exact Hrest].
    - intros r0 Hin. apply in_app_or in Hin as [Hin | [<- | []]];
        [apply Hall, Hin | exact Hr]. }
  destruct (include r) eqn:Einc; cbn [negb];
    [| apply Hkeep; [reflexivity | discriminate]].
  set (e := normalizeEmailCandidate toLowerCase (Some (email r))).
  destruct (truthy e) eqn:Et; cbn [negb];
    [| apply Hkeep; [reflexivity | intros _ H; fold e in H; congruence]].
  fold (groupKey (role r) e).
  destruct (bool_decide (groupKey (role r) e ∈ acc.2)) eqn:Eseen.
  - apply Hkeep; [reflexivity |]. intros _ _. fold e. apply Hkey.
    apply bool_decide_eq_true in Eseen. apply list_elem_of_In, Eseen.
  - apply bool_decide_eq_false in Eseen.
    assert (Hnew : ~ In e (bucket (role r) acc.1)).
    { intros Hin. apply Eseen, list_elem_of_In, Hkey, Hin. }
    unfold group_inv. cbn [fst snd]. split; [| split; [| split]].
    + intros x e0. rewrite bucket_pushRole. cbn [In].
      destruct (decide (x = role r)) as [-> | Hne].
      * rewrite in_app_iff. cbn [In]. rewrite Hkey. split.
        -- intros [H | [<- | []]]; [right; exact H | left; reflexivity].
        -- intros [H | H]; [| left; exact H].
           apply groupKey_inj in H as [_ <-]. right. left. reflexivity.
      * rewrite Hkey. split; [intros H; right; exact H |].
        intros [H | H]; [| exact H].
        apply groupKey_inj in H as [Hx _]. congruence.
    + intros x. rewrite bucket_pushRole.
      destruct (decide (x = role r)) as [-> | Hne]; [| apply Hnd].
      apply NoDup_snoc_In; [apply Hnd | exact Hnew].
    + intros x e0. rewrite bucket_pushRole.
      destruct (decide (x = role r)) as [-> | Hne].
      * intros Hin. apply in_app_or in Hin as [Hin | [<- | []]].
        -- destruct (Hfrom _ _ Hin) as (Ht & r0 & Hr0 & Hrest).
           split; [exact Ht |]. exists r0.
           split; [apply in_or_app; left; exact Hr0 | exact Hrest].
        -- split; [exact Et |]. exists r.
           split; [apply in_or_app; right; left; reflexivity |].
           repeat split. exact Einc.
      * intros Hin. destruct (Hfrom _ _ Hin) as (Ht & r0 & Hr0 & Hrest).
        split; [exact Ht |]. exists r0.
        split; [apply in_or_app; left; exact Hr0 | exact Hrest].
    + intros r0 Hin Hi Ht0. rewrite bucket_pushRole.
      apply in_app_or in Hin as [Hin | [<- | []]].
      * destruct (decide (role r0 = role r)) as [Heq | Hne];
          [apply in_or_app; left |]; apply Hall; assumption.
      * rewrite decide_True by reflexivity. apply in_or_app. right. left. reflexivity.
Qed.

Lemma fold_groupStep_inv rows done acc :
  group_inv done acc ->
  group_inv (done ++ rows) (fold_left (groupStep toLowerCase) rows acc).
Proof.
  revert done acc. induction rows as [| r rows IH]; intros done acc H; cbn.
  - rewrite app_nil_r. exact H.
  - replace (done ++ r :: rows) with ((done ++ [r]) ++ rows)
      by (rewrite <- List.app_assoc; reflexivity).
    apply IH, groupStep_inv, H.
Qed.

(** X13. [groupedRecipientsFromRows] gives, for each of To, Cc and Bcc, the
    normalised addresses of the included rows of that role, each once:
    the lists have no duplicates, every address in a list is non-empty and
    comes from an included row of that role, and every included row with a
    usable address is in the list of its role. *)
Theorem groupedRecipients_exact (rows : list RecipientRow) (x : RecipientRole) :
  let g := groupedRecipientsFromRows toLowerCase rows in
  NoDup (bucket x g)
  /\ (forall e, In e (bucket x g) ->
        truthy e = true
        /\ exists r, In r rows /\ include r = true /\ role r = x
             /\ normalizeEmailCandidate toLowerCase (Some (email r)) = e)
  /\ (forall r, In r rows -> include r = true -> role r = x ->
        truthy (normalizeEmailCandidate toLowerCase (Some (email r))) = true ->
        In (normalizeEmailCandidate toLowerCase (Some (email r))) (bucket x g)).
Proof.
  cbv zeta. unfold groupedRecipientsFromRows.
  destruct (fold_groupStep_inv rows []
              ({| g_to := []; g_cc := []; g_bcc := [] |}, []))
    as (_ & Hnd & Hfrom & Hall).
  { split; [| split; [| split]].
    - intros y e. destruct y; cbn; split; intros [].
    - intros y. destruct y; constructor.
    - intros y e He. destruct y; destruct He.
    - intros r []. }
  cbn [app] in *. split; [apply Hnd |]. split; [apply Hfrom |].
  intros r Hin Hi <- Ht. apply Hall; assumption.
Qed.

End RecipientMore.

(** *** What every row keeps, whatever the user does *)

Section RecipientInvariants.

Import Recipients.

Variable toLowerCase : jsstring -> jsstring.
Variable scanEmails : jsstring -> list jsstring.
Variable ctx : Identity.OutlookMessageContext.
Variable myEmailLower : jsstring.

(** The test [myEmailLower && e === myEmailLower] of [push], of the body
    scan and of [applyPreset]. *)
Definition isMine (e : jsstring) : bool :=
  truthy myEmailLower && bool_decide (e = myEmailLower).

Lemma senderUsable_not_mine from :
  senderUsable from myEmailLower = true -> truthy from = true /\ isMine from = false.
Proof.
  unfold senderUsable, isMine. intros H. apply andb_prop in H as [Ht Hm].
  split; [exact Ht |]. destruct (truthy myEmailLower); [| reflexivity].
  cbn in *. destruct (bool_decide (from = myEmailLower)); [discriminate | reflexivity].
Qed.

Section RowInvariant.

(** A property of single rows that looks only at the address and the
    origins, holds of the rows the panel creates and survives the merge of
    one more origin. *)
Variable P : RecipientRow -> Prop.

Hypothesis P_frame :
  forall r r', email r' = email r -> origins r' = origins r -> P r -> P r'.

Hypothesis P_auto :
  forall e n (o : RecipientOrigin) inc x,
    o <> originManual -> isMine e = false ->
    P {| email := e; name := n; origins := [o]; include := inc; role := x |}.

Hypothesis P_manual :
  forall e n inc x,
    P {| email := e; name := n; origins := [originManual]; include := inc; role := x |}.

Hypothesis P_merge :
  forall r (o : RecipientOrigin),
    o = originManual \/ isMine (email r) = false ->
    P r -> P (setOrigins (mergeOrigins (origins r) [o]) r).

Lemma Forall_updFirst p f rows :
  (forall r, p r = true -> P r -> P (f r)) ->
  Forall P rows -> Forall P (updFirst p f rows).
Proof.
  intros Hf. induction 1 as [| r rs Hr Hrs IH]; cbn; [constructor |].
  destruct (p r) eqn:E; constructor; auto.
Qed.

Lemma Forall_map_frame g rows :
  (forall r, email (g r) = email r /\ origins (g r) = origins r) ->
  Forall P rows -> Forall P (map g rows).
Proof.
  intros Hg. induction 1 as [| r rs Hr Hrs IH]; cbn; constructor; [| exact IH].
  destruct (Hg r) as [He Ho]. exact (P_frame r (g r) He Ho Hr).
Qed.

Lemma Forall_snoc rows r : Forall P rows -> P r -> Forall P (rows ++ [r]).
Proof.
  intros Hrows Hr. apply Forall_app. split; [exact Hrows | constructor; [exact Hr | constructor]].
Qed.

Lemma push_P rows email0 name0 (o : RecipientOrigin) :
  o <> originManual -> Forall P rows ->
  Forall P (push toLowerCase myEmailLower rows email0 name0 (Some o)).
Proof.
  intros Ho Hrows. unfold push. cbv zeta.
  set (e := normalizeEmailCandidate toLowerCase email0).
  destruct (truthy e); cbn [negb]; [| exact Hrows].
  fold (isMine e). destruct (isMine e) eqn:Em; [exact Hrows |].
  destruct (find (hasEmail e) rows) as [r0 |].
  - apply Forall_updFirst; [| exact Hrows]. intros r Hp Hr.
    apply bool_decide_eq_true in Hp.
    assert (H1 : P (setOrigins (mergeOrigins (origins r) [o]) r)).
    { apply P_merge; [right; rewrite Hp; exact Em | exact Hr]. }
    cbn [option_list]. destruct (_ && _); [| exact H1].
    eapply P_frame; [| | exact H1]; reflexivity.
  - apply Forall_snoc; [exact Hrows |]. apply P_auto; assumption.
Qed.

Lemma fold_push_P (o : RecipientOrigin) (l : list Identity.Recipient) rows :
  o <> originManual -> Forall P rows ->
  Forall P
    (fold_left (fun rows r => push toLowerCase myEmailLower rows
                                (Some (Identity.rc_email r))
                                (Some (Identity.rc_name r)) (Some o)) l rows).
Proof.
  intros Ho. revert rows. induction l as [| r l IH]; intros rows Hrows; cbn;
    [exact Hrows |].
  apply IH, push_P; assumption.
Qed.

Lemma buildHeaderRows_P : Forall P (buildHeaderRows toLowerCase ctx myEmailLower).
Proof.
  unfold buildHeaderRows. cbv zeta.
  apply fold_push_P; [discriminate |].
  apply fold_push_P; [discriminate |].
  apply push_P; [discriminate | constructor].
Qed.

Lemma markSender_P from rows :
  Forall P rows -> Forall P (markSender ctx from myEmailLower rows).
Proof.
  intros Hrows. unfold markSender.
  destruct (senderUsable from myEmailLower) eqn:Eg; [| exact Hrows].
  apply senderUsable_not_mine in Eg as [_ Em].
  destruct (find (hasEmail from) rows) as [r0 |].
  - apply Forall_updFirst; [| exact Hrows]. intros r _ Hr.
    eapply P_frame; [| | exact Hr]; reflexivity.
  - constructor; [| exact Hrows]. apply P_auto; [discriminate | exact Em].
Qed.

Lemma markHeaders_P from rows :
  Forall P rows -> Forall P (markHeaders from myEmailLower rows).
Proof.
  unfold markHeaders. apply Forall_map_frame. intros r. cbv zeta.
  destruct (_ || _); [split; reflexivity |].
  destruct (negb _); split; reflexivity.
Qed.

Lemma applyPreset_P rows preset :
  Forall P rows -> Forall P (applyPreset toLowerCase rows preset ctx myEmailLower).
Proof.
  intros Hrows.
  assert (Hr : Forall P (map resetRow rows))
    by (apply Forall_map_frame; [intros r; split; reflexivity | exact Hrows]).
  unfold applyPreset. cbv zeta. destruct preset.
  - apply markSender_P, Hr.
  - apply markHeaders_P, markSender_P, Hr.
  - exact Hr.
Qed.

Lemma harvestOne_P rows e :
  Forall P rows -> Forall P (harvestOne myEmailLower rows e).
Proof.
  intros Hrows. unfold harvestOne. fold (isMine e).
  destruct (isMine e) eqn:Em; [exact Hrows |].
  destruct (find (hasEmail e) rows) as [r0 |].
  - apply Forall_updFirst; [| exact Hrows]. intros r Hp Hr.
    apply bool_decide_eq_true in Hp.
    apply P_merge; [right; rewrite Hp; exact Em | exact Hr].
  - apply Forall_snoc; [exact Hrows |]. apply P_auto; [discriminate | exact Em].
Qed.

Lemma harvestBody_P inc rawBody body rows :
  Forall P rows ->
  Forall P (harvestBody toLowerCase scanEmails inc rawBody body myEmailLower rows).
Proof.
  intros Hrows. unfold harvestBody. cbv zeta.
  destruct (negb inc); [exact Hrows |].
  destruct (negb _); [exact Hrows |].
  destruct (extractEmailsFromText _ _ _) as [| e found]; [exact Hrows |].
  generalize (e :: found). intros l. revert rows Hrows.
  induction l as [| x l IH]; intros rows Hrows; cbn; [exact Hrows |].
  apply IH, harvestOne_P, Hrows.
Qed.

Lemma addManualRecipient_P addEmail addRole rows :
  Forall P rows -> Forall P (addManualRecipient toLowerCase addEmail addRole rows).
Proof.
  intros Hrows. unfold addManualRecipient. cbv zeta.
  destruct (negb _); [exact Hrows |].
  destruct (find _ rows) as [r0 |].
  - apply Forall_updFirst; [| exact Hrows]. intros r _ Hr.
    eapply P_frame; [| | apply (P_merge r originManual); [left; reflexivity | exact Hr]];
      reflexivity.
  - apply Forall_snoc; [exact Hrows | apply P_manual].
Qed.

Lemma applyOp_P rows op :
  Forall P rows -> Forall P (applyOp toLowerCase scanEmails ctx myEmailLower rows op).
Proof.
  intros Hrows. destruct op as [inc rawBody body | preset | a c | a x | a x];
    cbn [applyOp].
  - apply harvestBody_P, Hrows.
  - apply applyPreset_P, Hrows.
  - apply Forall_map_frame; [| exact Hrows].
    intros r. destruct (bool_decide _); split; reflexivity.
  - apply Forall_map_frame; [| exact Hrows].
    intros r. destruct (bool_decide _); split; reflexivity.
  - apply addManualRecipient_P, Hrows.
Qed.

(** Such a property holds of every row, after the header build and any
    sequence of operations. *)
Lemma rows_invariant (ops : list RowOp) :
  Forall P
    (fold_left (applyOp toLowerCase scanEmails ctx myEmailLower) ops
       (initRows toLowerCase ctx myEmailLower)).
Proof.
  assert (Hi : Forall P (initRows toLowerCase ctx myEmailLower))
    by apply applyPreset_P, buildHeaderRows_P.
  revert Hi. generalize (initRows toLowerCase ctx myEmailLower).
  induction ops as [| op ops IH]; intros rows Hrows; cbn; [exact Hrows |].
  apply IH, applyOp_P, Hrows.
Qed.

End RowInvariant.

Lemma uniq_fold_NoDup (l acc : list RecipientOrigin) :
  NoDup acc ->
  NoDup (fold_left (fun acc y => if bool_decide (y ∈ acc) then acc else acc ++ [y]) l acc).
Proof.
  revert acc. induction l as [| y l IH]; intros acc Hacc; cbn; [exact Hacc |].
  apply IH. destruct (bool_decide (y ∈ acc)) eqn:E; [exact Hacc |].
  apply bool_decide_eq_false in E.
  apply NoDup_snoc_In; [exact Hacc |]. intros H. apply E, list_elem_of_In, H.
Qed.

Lemma mergeOrigins_NoDup a b : NoDup (mergeOrigins a b).
Proof. unfold mergeOrigins, uniq. apply uniq_fold_NoDup. constructor. Qed.

(** X14. No row ever lists an origin twice: after the header build and any
    sequence of body scans, presets, include and role changes and manual
    additions, the origins of every row are pairwise different. *)
Theorem origins_never_repeat (ops : list RowOp) :
  Forall (fun r => NoDup (origins r))
    (fold_left (applyOp toLowerCase scanEmails ctx myEmailLower) ops
       (initRows toLowerCase ctx myEmailLower)).
Proof.
  apply rows_invariant.
  - intros r r' _ Ho. rewrite Ho. tauto.
  - intros e n o inc x _ _. apply NoDup_singleton.
  - intros e n inc x. apply NoDup_singleton.
  - intros r o _ _. apply mergeOrigins_NoDup.
Qed.

(** X15. When the local user's address is known, it enters the rows only
    through a manual addition: after the header build and any sequence of
    operations, a row with that address has the single origin [manual];
    the headers and the body scan never create or touch it. *)
Theorem own_address_only_manual (ops : list RowOp) (r : RecipientRow) :
  truthy myEmailLower = true ->
  In r (fold_left (applyOp toLowerCase scanEmails ctx myEmailLower) ops
          (initRows toLowerCase ctx myEmailLower)) ->
  email r = myEmailLower ->
  origins r = [originManual].
Proof.
  intros Hmy Hin.
  assert (Hno : forall e, isMine e = false -> e <> myEmailLower).
  { unfold isMine. rewrite Hmy. cbn. intros e H. apply bool_decide_eq_false in H. exact H. }
  assert (H : Forall (fun r => email r = myEmailLower -> origins r = [originManual])
                (fold_left (applyOp toLowerCase scanEmails ctx myEmailLower) ops
                   (initRows toLowerCase ctx myEmailLower)));
    [apply rows_invariant | exact (proj1 (List.Forall_forall _ _) H r Hin)].
  - intros r0 r' He Ho Hr0 Hr'. rewrite Ho. apply Hr0. congruence.
  - intros e n o inc x _ Hm He. cbn in He. destruct (Hno e Hm He).
  - intros e n inc x _. reflexivity.
  - intros r0 o [-> | Hm] Hr0 He; cbn in *.
    + rewrite (Hr0 He). reflexivity.
    + destruct (Hno _ Hm He).
Qed.

(** X16. What [applyPreset] with [replyAll] selects.  An included row is
    never the local user's own address, and it is either the sender, put in
    To, or a row that came from the To or Cc header, put in Cc.  Conversely
    every row from the To or Cc header that is neither the local user nor
    the sender is included, in Cc. *)
Theorem replyAll_selection (rows : list RecipientRow) (r : RecipientRow) :
  let from := normalizeEmailCandidate toLowerCase (Identity.fromEmail ctx) in
  In r (applyPreset toLowerCase rows presetReplyAll ctx myEmailLower) ->
  (include r = true ->
   isMine (email r) = false
   /\ ((email r = from /\ role r = roleTo /\ senderUsable from myEmailLower = true)
       \/ (existsb isHeaderOrigin (origins r) = true /\ role r = roleCc)))
  /\ (existsb isHeaderOrigin (origins r) = true ->
      isMine (email r) = false ->
      (truthy from && bool_decide (email r = from)) = false ->
      include r = true /\ role r = roleCc).
Proof.
  cbv zeta. set (from := normalizeEmailCandidate toLowerCase (Identity.fromEmail ctx)).
  unfold applyPreset. cbv zeta. fold from. unfold markHeaders.
  intros Hin. apply in_map_iff in Hin as (r0 & <- & Hr0).
  assert (Hsrc : (include r0 = false)
                 \/ (include r0 = true /\ role r0 = roleTo /\ email r0 = from
                     /\ senderUsable from myEmailLower = true)).
  { revert Hr0. unfold markSender.
    destruct (senderUsable from myEmailLower) eqn:Eg.
    - destruct (find (hasEmail from) (map resetRow rows)) as [q |] eqn:Ef.
      + assert (Hex : existsb (hasEmail from) (map resetRow rows) = true).
        { clear -Ef. induction (map resetRow rows) as [| a l IH]; cbn in *;
            [discriminate |]. destruct (hasEmail from a); [reflexivity | auto]. }
        clear Ef. revert Hex. generalize (map resetRow rows) (include_reset_false rows).
        intros l Hl. induction l as [| a l IH]; cbn; [discriminate |].
        destruct (hasEmail from a) eqn:Ea.
        * intros _ [<- | Hx].
          -- right. apply bool_decide_eq_true in Ea. repeat split. exact Ea.
          -- left. apply Hl. right. exact Hx.
        * cbn. intros Hex [<- | Hx].
          -- left. apply Hl. left. reflexivity.
          -- apply IH; [intros x Hx'; apply Hl; right; exact Hx' | exact Hex | exact Hx].
      + intros [<- | Hx]; [right; repeat split | left; apply (include_reset_false rows), Hx].
    - intros Hx. left. apply (include_reset_false rows), Hx. }
  fold (isMine (email r0)).
  destruct (isMine (email r0)) eqn:Em; cbn [orb].
  - split.
    + intros Hi. destruct Hsrc as [Hf | (_ & _ & He & Hg)]; [congruence |].
      apply senderUsable_not_mine in Hg as [_ Hg]. rewrite He in Em. congruence.
    + intros _ Hm. congruence.
  - destruct (truthy from && bool_decide (email r0 = from)) eqn:Efrom; cbn [orb].
    + split; [| intros _ _ H; congruence].
      intros Hi. split; [exact Em |]. left.
      destruct Hsrc as [Hf | (_ & Hrole & He & Hg)]; [congruence |].
      repeat split; assumption.
    + assert (Hoff : include r0 = false).
      { destruct Hsrc as [Hf | (_ & _ & He & Hg)]; [exact Hf |].
        apply senderUsable_not_mine in Hg as [Ht _]. rewrite Ht in Efrom. cbn in Efrom.
        apply bool_decide_eq_false in Efrom. contradiction. }
      destruct (existsb isHeaderOrigin (origins r0)) eqn:Eh; cbn [negb];
        cbn [markCc setRole setInclude email origins include role].
      * split; [| intros _ _ _; split; reflexivity].
        intros _. split; [exact Em |]. right. split; [exact Eh | reflexivity].
      * split; [intros Hi; congruence | intros H; congruence].
Qed.

End RecipientInvariants.

(** * Further properties of the lifecycle controller *)

Section LifecycleMore.

Import Store Lifecycle.

Lemma truthy_false_nil (s : jsstring) : truthy s = false -> s = [].
Proof. destruct s; [reflexivity | discriminate]. Qed.

Lemma strOrEmpty_nonEmpty (s : jsstring) : strOrEmpty (nonEmpty s) = s.
Proof. destruct s; reflexivity. Qed.

Lemma slotFilled_false (s : ResultSlot) :
  slotFilled s = false -> html s = [] /\ text s = [].
Proof.
  unfold slotFilled. intros H. apply orb_false_elim in H as [Hh Ht].
  split; apply truthy_false_nil; assumption.
Qed.

(** A slot written by the persist effect and read back by the restore
    effect. *)
Lemma restoreSlot_stored (s : ResultSlot) :
  restoreSlot (Some {| rj_html := nonEmpty (html s); rj_text := nonEmpty (text s);
                       rj_ts := if ts s =? 0 then None else Some (ts s) |})
  = if slotFilled s then s else emptySlot.
Proof.
  destruct s as [h t z]. unfold restoreSlot, slotFilled. cbn [rj_html rj_text rj_ts html text ts].
  rewrite !strOrEmpty_nonEmpty. destruct (truthy h || truthy t); [| reflexivity].
  f_equal. destruct (Z.eqb_spec z 0) as [-> | _]; reflexivity.
Qed.

(** The storage holds the record [ws] under [k] and accepts writes. *)
Definition holds (ls : LocalStorage) (k : jsstring) (ws : EmailWorkspace) : Prop :=
  ls_full ls = false
  /\ exists data, ls_workspace ls = Parsed data /\ data !! k = Some ws.

Lemma holds_loadWorkspaces ls k ws T now :
  holds ls k ws -> ws_key ws = k -> ws_updatedAt ws = Some T -> T <> 0 ->
  now - T <= WORKSPACE_KEEP_MS ->
  (loadWorkspaces ls now).1 !! k = Some ws /\ holds (loadWorkspaces ls now).2 k ws.
Proof.
  intros (Hf & data & Hd & Hk) Hkey Hu HT Hnow.
  assert (Hrev : map_imap (reviveWorkspace now) data !! k = Some ws).
  { rewrite map_lookup_imap, Hk. cbn. rewrite <- Hkey.
    rewrite (reviveWorkspace_written now T ws Hu HT).
    destruct (Z.gtb_spec (now - T) WORKSPACE_KEEP_MS); [lia | reflexivity]. }
  unfold loadWorkspaces. rewrite Hd, Hf.
  destruct (negb _); cbn.
  - split; [exact Hrev |]. split; [exact Hf |]. eexists. split; [reflexivity | exact Hrev].
  - split; [exact Hrev |]. split; [exact Hf |]. exists data. split; assumption.
Qed.

Lemma holds_saveWorkspace_self ls now ws :
  ls_full ls = false -> holds (saveWorkspace ls now ws) (ws_key ws) ws.
Proof.
  intros Hf. destruct (saveWorkspace_stored ls now ws Hf) as [Hf' Hst].
  split; [exact Hf' |]. eexists. split; [exact Hst | apply lookup_insert_eq].
Qed.

Lemma holds_saveWorkspace_other ls k ws T now ws' :
  holds ls k ws -> ws_key ws = k -> ws_updatedAt ws = Some T -> T <> 0 ->
  now - T <= WORKSPACE_KEEP_MS -> ws_key ws' <> k ->
  holds (saveWorkspace ls now ws') k ws.
Proof.
  intros Hh Hkey Hu HT Hnow Hne.
  destruct (holds_loadWorkspaces ls k ws T now Hh Hkey Hu HT Hnow) as [Hl _].
  destruct Hh as (Hf & _).
  destruct (saveWorkspace_stored ls now ws' Hf) as [Hf' Hst].
  split; [exact Hf' |]. eexists. split; [exact Hst |].
  rewrite lookup_insert_ne by exact Hne. exact Hl.
Qed.

Lemma selectEmail_storage key conv subj now w :
  w_storage (selectEmail key conv subj now w)
  = if truthy key then (loadWorkspaces (w_storage w) now).2 else w_storage w.
Proof.
  unfold selectEmail, loadWorkspace. destruct (truthy key); cbn; [| reflexivity].
  destruct (loadWorkspaces (w_storage w) now) as [all ls1]. cbn.
  destruct (all !! key); reflexivity.
Qed.

Lemma holds_selectEmail key conv subj now w k ws T :
  holds (w_storage w) k ws -> ws_key ws = k -> ws_updatedAt ws = Some T -> T <> 0 ->
  now - T <= WORKSPACE_KEEP_MS ->
  holds (w_storage (selectEmail key conv subj now w)) k ws.
Proof.
  intros Hh Hkey Hu HT Hnow. rewrite selectEmail_storage.
  destruct (truthy key); [| exact Hh].
  apply (holds_loadWorkspaces _ k ws T now Hh Hkey Hu HT Hnow).
Qed.

Lemma holds_persist_other now w k ws T :
  holds (w_storage w) k ws -> ws_key ws = k -> ws_updatedAt ws = Some T -> T <> 0 ->
  now - T <= WORKSPACE_KEEP_MS -> v_emailKey (w_view w) <> k ->
  holds (w_storage (persistWorkspace now w)) k ws.
Proof.
  intros Hh Hkey Hu HT Hnow Hne. unfold persistWorkspace. cbv zeta.
  destruct (truthy (v_emailKey (w_view w))); [| exact Hh].
  cbn [w_storage]. apply (holds_saveWorkspace_other _ k ws T); assumption.
Qed.

(** The record the persist effect writes at time [now]. *)
Lemma persistWorkspace_holds now w :
  truthy (v_emailKey (w_view w)) = true -> ls_full (w_storage w) = false ->
  exists ws, holds (w_storage (persistWorkspace now w)) (v_emailKey (w_view w)) ws
    /\ ws_key ws = v_emailKey (w_view w)
    /\ ws_updatedAt ws = Some now /\ ws_ts ws = Some now
    /\ ws_tplPickId ws = nonEmpty (v_tplPickId (w_view w))
    /\ ws_composeNotes ws = nonEmpty (v_composeNotes (w_view w))
    /\ ws_rewriteText ws = nonEmpty (v_rewriteText (w_view w))
    /\ ws_replyAll ws = Some (v_replyAll (w_view w))
    /\ ws_includeBodyEmails ws = Some (v_includeBodyEmails (w_view w))
    /\ ws_attachOriginalItem ws = Some (v_attachOriginalItem (w_view w))
    /\ ws_activeOption ws = Some (Z.of_nat (v_activeOption (w_view w)))
    /\ ws_results ws
       = Some (map (fun s => {| rj_html := nonEmpty (html s);
                                rj_text := nonEmpty (text s);
                                rj_ts := if ts s =? 0 then None else Some (ts s) |})
                 (v_resultSlots (w_view w)))
    /\ ws_htmlOut ws
       = nonEmpty (html (default emptySlot
                           (v_resultSlots (w_view w) !! v_activeOption (w_view w))))
    /\ ws_textOut ws
       = nonEmpty (text (default emptySlot
                           (v_resultSlots (w_view w) !! v_activeOption (w_view w)))).
Proof.
  intros Hk Hf. unfold persistWorkspace. cbv zeta. rewrite Hk. cbn [w_storage].
  eexists. split; [apply holds_saveWorkspace_self, Hf |].
  cbn. repeat split.
Qed.

(** What the restore effect shows for a stored record. *)
Lemma selectEmail_view key conv subj now w ws T :
  truthy key = true ->
  holds (w_storage w) key ws -> ws_key ws = key -> ws_updatedAt ws = Some T -> T <> 0 ->
  now - T <= WORKSPACE_KEEP_MS ->
  let v' := w_view (selectEmail key conv subj now w) in
  v_emailKey v' = key
  /\ v_activeOption v'
     = match ws_activeOption ws with
       | Some n => Z.to_nat (Z.max 0 (Z.min 2 n))
       | None => 0%nat
       end
  /\ v_resultSlots v' = restoreSlots ws
  /\ v_tplPickId v' = strOrEmpty (ws_tplPickId ws)
  /\ v_composeNotes v' = strOrEmpty (ws_composeNotes ws)
  /\ v_rewriteText v' = strOrEmpty (ws_rewriteText ws)
  /\ v_replyAll v' = default false (ws_replyAll ws)
  /\ v_includeBodyEmails v'
     = default (v_includeBodyEmails (w_view w)) (ws_includeBodyEmails ws)
  /\ v_attachOriginalItem v' = default false (ws_attachOriginalItem ws)
  /\ v_recipientPreset v' = presetReply.
Proof.
  intros Hk Hh Hkey Hu HT Hnow. cbv zeta.
  destruct (holds_loadWorkspaces _ key ws T now Hh Hkey Hu HT Hnow) as [Hl _].
  unfold selectEmail, loadWorkspace. rewrite Hk. cbn [negb].
  destruct (loadWorkspaces (w_storage w) now) as [all ls1]. cbn [fst] in Hl.
  rewrite Hl. cbn. repeat split.
Qed.

(** Three slots written by the persist effect and read back. *)
Lemma restoreSlots_stored (ws : EmailWorkspace) (s0 s1 s2 : ResultSlot) (i : nat) :
  ws_results ws
  = Some (map (fun s => {| rj_html := nonEmpty (html s); rj_text := nonEmpty (text s);
                           rj_ts := if ts s =? 0 then None else Some (ts s) |})
            [s0; s1; s2]) ->
  ws_htmlOut ws = nonEmpty (html (default emptySlot ([s0; s1; s2] !! i))) ->
  ws_textOut ws = nonEmpty (text (default emptySlot ([s0; s1; s2] !! i))) ->
  map html (restoreSlots ws) = map html [s0; s1; s2]
  /\ map text (restoreSlots ws) = map text [s0; s1; s2]
  /\ forall j s, [s0; s1; s2] !! j = Some s -> slotFilled s = true ->
       restoreSlots ws !! j = Some s.
Proof.
  intros Hr Hh Ht. unfold restoreSlots. rewrite Hr, Hh, Ht.
  unfold default at 1 2 3. cbn [from_option id map].
  cbn [lookup list_lookup].
  rewrite !restoreSlot_stored, !strOrEmpty_nonEmpty.
  assert (Hempty : slotFilled s0 = false -> slotFilled s1 = false ->
                   slotFilled s2 = false ->
                   html (default emptySlot ([s0; s1; s2] !! i)) = []
                   /\ text (default emptySlot ([s0; s1; s2] !! i)) = []).
  { intros A B C. apply slotFilled_false in A, B, C.
    destruct i as [| [| [| i]]]; cbn; tauto. }
  destruct (slotFilled s0) eqn:E0; destruct (slotFilled s1) eqn:E1;
    destruct (slotFilled s2) eqn:E2; cbn [existsb]; rewrite ?E0, ?E1, ?E2;
    try change (slotFilled emptySlot) with false; cbn [orb];
    try (destruct (Hempty eq_refl eq_refl eq_refl) as [X X']; rewrite X, X');
    clear Hempty;
    try (apply slotFilled_false in E0 as [H0 H0']);
    try (apply slotFilled_false in E1 as [H1 H1']);
    try (apply slotFilled_false in E2 as [H2 H2']);
    cbn [map html text emptySlot];
    (split; [congruence |]); (split; [congruence |]);
    intros [| [| [| j]]] s [= <-] Hs; try reflexivity;
    unfold slotFilled in Hs; try (rewrite H0, H0' in Hs; discriminate);
    try (rewrite H1, H1' in Hs; discriminate);
    try (rewrite H2, H2' in Hs; discriminate).
Qed.

(** X17. The state of one email survives work on another.  The panel
    persists the state of email A at [t0], the host selects email B at [t1],
    the state shown for B (whatever it has become) is persisted at [t2], and
    the host selects A again at [t3], all within the retention window of
    [t0] and with a working storage.  Then A shows again its active tab, the
    HTML and text of its three slots (a filled slot exactly as it was), the
    template, the notes, the rewrite text and its three switches; the
    recipient preset is back to [reply]. *)
Theorem workspace_round_trip (w : World) (vB : View)
    (conv subj convB subjB : option jsstring) (t0 t1 t2 t3 : Z) :
  let v := w_view w in
  truthy (v_emailKey v) = true ->
  ls_full (w_storage w) = false ->
  t0 <> 0 ->
  t1 - t0 <= WORKSPACE_KEEP_MS -> t2 - t0 <= WORKSPACE_KEEP_MS ->
  t3 - t0 <= WORKSPACE_KEEP_MS ->
  (v_activeOption v < 3)%nat -> length (v_resultSlots v) = 3%nat ->
  v_emailKey vB <> v_emailKey v ->
  let w1 := persistWorkspace t0 w in
  let w2 := selectEmail (v_emailKey vB) convB subjB t1 w1 in
  let w3 :=
    persistWorkspace t2
      {| w_view := vB; w_storage := w_storage w2; w_events := w_events w2 |} in
  let v4 := w_view (selectEmail (v_emailKey v) conv subj t3 w3) in
  v_emailKey v4 = v_emailKey v
  /\ v_activeOption v4 = v_activeOption v
  /\ map html (v_resultSlots v4) = map html (v_resultSlots v)
  /\ map text (v_resultSlots v4) = map text (v_resultSlots v)
  /\ (forall j s, v_resultSlots v !! j = Some s -> slotFilled s = true ->
        v_resultSlots v4 !! j = Some s)
  /\ v_tplPickId v4 = v_tplPickId v
  /\ v_composeNotes v4 = v_composeNotes v
  /\ v_rewriteText v4 = v_rewriteText v
  /\ v_replyAll v4 = v_replyAll v
  /\ v_includeBodyEmails v4 = v_includeBodyEmails v
  /\ v_attachOriginalItem v4 = v_attachOriginalItem v
  /\ v_recipientPreset v4 = presetReply.
Proof.
  cbv zeta. intros Hk Hf Ht0 Ht1 Ht2 Ht3 Hact Hlen HkB.
  destruct (persistWorkspace_holds t0 w Hk Hf)
    as (ws & Hh & Hkey & Hu & Hts & Htpl & Hnotes & Hrw & Hra & Hinc & Hatt & Hao
        & Hres & Hhtml & Htext).
  set (k := v_emailKey (w_view w)) in *.
  assert (H2 : holds (w_storage (selectEmail (v_emailKey vB) convB subjB t1
                                   (persistWorkspace t0 w))) k ws)
    by (apply (holds_selectEmail _ _ _ _ _ k ws t0); assumption).
  match goal with
  | |- context [selectEmail k conv subj t3 ?w3] =>
      assert (H3 : holds (w_storage w3) k ws)
        by (apply (holds_persist_other _ _ k ws t0); assumption);
      destruct (selectEmail_view k conv subj t3 w3 ws t0 Hk H3 Hkey Hu Ht0 Ht3)
        as (Ek & Eao & Eslots & Etpl & Enotes & Erw & Era & Einc & Eatt & Epre)
  end.
  destruct (v_resultSlots (w_view w)) as [| s0 [| s1 [| s2 [| s3 rest]]]] eqn:Eslots0;
    try discriminate.
  destruct (restoreSlots_stored ws s0 s1 s2 _ Hres Hhtml Htext) as (Rh & Rt & Rf).
  rewrite Ek, Eao, Eslots, Etpl, Enotes, Erw, Era, Einc, Eatt, Epre.
  rewrite Hao, Htpl, Hnotes, Hrw, Hra, Hinc, Hatt, !strOrEmpty_nonEmpty.
  repeat split; try assumption.
  lia.
Qed.

End LifecycleMore.

(** * Text helpers *)

Section TrimFacts.

(** The string is empty or begins with a code unit that is not white
    space. *)
Definition headOk (s : jsstring) : Prop :=
  match s with
  | [] => True
  | c :: _ => isWhiteSpace c = false
  end.

(** No white space at either end. *)
Definition trimmed (s : jsstring) : Prop := headOk s /\ headOk (rev s).

Lemma dropWhile_fixed (p : Z -> bool) (s : jsstring) :
  match s with [] => True | c :: _ => p c = false end -> dropWhile p s = s.
Proof. destruct s as [| c s]; [reflexivity |]. cbn. intros ->. reflexivity. Qed.

Lemma dropWhile_head (p : Z -> bool) (s : jsstring) :
  match dropWhile p s with [] => True | c :: _ => p c = false end.
Proof.
  induction s as [| c s IH]; cbn; [exact I |].
  destruct (p c) eqn:E; [exact IH | exact E].
Qed.

Lemma dropWhile_split (p : Z -> bool) (s : jsstring) :
  exists u, s = u ++ dropWhile p s.
Proof.
  induction s as [| c s [u IH]]; cbn; [exists []; reflexivity |].
  destruct (p c); [exists (c :: u); cbn; rewrite <- IH; reflexivity | exists []; reflexivity].
Qed.

Lemma length_dropWhile (p : Z -> bool) (s : jsstring) :
  (length (dropWhile p s) <= length s)%nat.
Proof.
  destruct (dropWhile_split p s) as [u Hu]. rewrite Hu at 2. rewrite length_app. lia.
Qed.

Lemma length_trim (s : jsstring) : (length (trim s) <= length s)%nat.
Proof.
  unfold trim, dropWhileEnd. rewrite length_rev.
  etransitivity; [apply length_dropWhile |]. rewrite length_rev. apply length_dropWhile.
Qed.

Lemma trim_trimmed (s : jsstring) : trimmed (trim s).
Proof.
  unfold trim, dropWhileEnd.
  set (a := dropWhile isWhiteSpace s).
  set (b := dropWhile isWhiteSpace (rev a)).
  split.
  - destruct (dropWhile_split isWhiteSpace (rev a)) as [u Hu]. fold b in Hu.
    apply (f_equal (@rev Z)) in Hu. rewrite rev_involutive, rev_app_distr in Hu.
    pose proof (dropWhile_head isWhiteSpace s) as Ha. fold a in Ha.
    destruct (rev b) as [| c t]; [exact I |].
    rewrite Hu in Ha. exact Ha.
  - rewrite rev_involutive. apply (dropWhile_head isWhiteSpace (rev a)).
Qed.

Lemma trim_fixed (s : jsstring) : trimmed s -> trim s = s.
Proof.
  intros [Hh Ht]. unfold trim, dropWhileEnd.
  rewrite (dropWhile_fixed isWhiteSpace s) by exact Hh.
  rewrite (dropWhile_fixed isWhiteSpace (rev s)) by exact Ht.
  apply rev_involutive.
Qed.

Lemma trim_idem (s : jsstring) : trim (trim s) = trim s.
Proof. apply trim_fixed, trim_trimmed. Qed.

Lemma trimmed_app (pre s : jsstring) :
  pre <> [] -> headOk pre -> s <> [] -> trimmed s -> trimmed (pre ++ s).
Proof.
  intros Hpre Hh Hs [_ Ht]. split.
  - destruct pre as [| c pre]; [contradiction | exact Hh].
  - rewrite rev_app_distr. destruct (rev s) as [| c t] eqn:E; [| exact Ht].
    apply (f_equal (@rev Z)) in E. rewrite rev_involutive in E. contradiction.
Qed.

End TrimFacts.

Section ComposeFacts.

Import Insertion Compose.

(** The entity a code unit is written as. *)
Definition escapeOne (c : Z) : jsstring :=
  if c =? 38 then js "&amp;"
  else if c =? 60 then js "&lt;"
  else if c =? 62 then js "&gt;"
  else if c =? 34 then js "&quot;"
  else if c =? 39 then js "&#039;"
  else [c].

Lemma replaceAll1_app c rep a b :
  replaceAll1 c rep (a ++ b) = replaceAll1 c rep a ++ replaceAll1 c rep b.
Proof. unfold replaceAll1. apply flat_map_app. Qed.

Lemma escapeHtml_app a b : escapeHtml (a ++ b) = escapeHtml a ++ escapeHtml b.
Proof. unfold escapeHtml. rewrite !replaceAll1_app. reflexivity. Qed.

Lemma escapeHtml_single c : escapeHtml [c] = escapeOne c.
Proof.
  unfold escapeHtml, escapeOne, replaceAll1.
  cbn [List.flat_map].
  destruct (Z.eqb_spec c 38) as [-> | H38]; [vm_compute; reflexivity |].
  cbn [app List.flat_map].
  destruct (Z.eqb_spec c 60) as [-> | H60]; [vm_compute; reflexivity |].
  cbn [app List.flat_map].
  destruct (Z.eqb_spec c 62) as [-> | H62]; [vm_compute; reflexivity |].
  cbn [app List.flat_map].
  destruct (Z.eqb_spec c 34) as [-> | H34]; [vm_compute; reflexivity |].
  cbn [app List.flat_map].
  destruct (Z.eqb_spec c 39) as [-> | H39]; [vm_compute; reflexivity |].
  reflexivity.
Qed.

Lemma escapeOne_safe c x :
  In x (escapeOne c) -> x <> 60 /\ x <> 62 /\ x <> 34 /\ x <> 39.
Proof.
  unfold escapeOne.
  destruct (Z.eqb_spec c 38); [vm_compute; intros H; repeat destruct H as [<- | H]; try lia; destruct H |].
  destruct (Z.eqb_spec c 60); [vm_compute; intros H; repeat destruct H as [<- | H]; try lia; destruct H |].
  destruct (Z.eqb_spec c 62); [vm_compute; intros H; repeat destruct H as [<- | H]; try lia; destruct H |].
  destruct (Z.eqb_spec c 34); [vm_compute; intros H; repeat destruct H as [<- | H]; try lia; destruct H |].
  destruct (Z.eqb_spec c 39); [vm_compute; intros H; repeat destruct H as [<- | H]; try lia; destruct H |].
  intros [<- | []]. lia.
Qed.

Lemma escapeHtml_flat (s : jsstring) : escapeHtml s = List.flat_map escapeOne s.
Proof.
  induction s as [| c s IH]; [reflexivity |].
  change (c :: s) with ([c] ++ s). rewrite escapeHtml_app, escapeHtml_single, IH.
  reflexivity.
Qed.

Lemma escapeHtml_safe (s : jsstring) (x : Z) :
  In x (escapeHtml s) -> x <> 60 /\ x <> 62 /\ x <> 34 /\ x <> 39.
Proof.
  intros Hx. rewrite escapeHtml_flat in Hx.
  apply in_flat_map in Hx as (c & _ & Hc). exact (escapeOne_safe c x Hc).
Qed.

(** X18. [escapeHtml] escapes every code unit on its own, although it is
    written as five replacements in a row: the result is the concatenation
    of the entity or the code unit itself for each code unit of the input,
    so no entity is escaped twice; and the result holds no [<], [>], double
    quote or apostrophe. *)
Theorem escapeHtml_per_code_unit (s : jsstring) :
  escapeHtml s = List.flat_map escapeOne s
  /\ forall x, In x (escapeHtml s) -> x <> 60 /\ x <> 62 /\ x <> 34 /\ x <> 39.
Proof.
  split; [apply escapeHtml_flat | apply escapeHtml_safe].
Qed.

(** A piece in which the first code unit of [sep] does not occur holds no
    start of an occurrence. *)
Lemma noOcc_no_head (h : Z) (tl a rest : jsstring) :
  (forall c, In c a -> c <> h) -> noOccBefore (h :: tl) a rest.
Proof.
  intros Ha v Hne [u Hu]. destruct v as [| c v]; [contradiction |].
  cbn. destruct (Z.eqb_spec h c) as [-> | _]; [| reflexivity].
  exfalso. apply (Ha c); [| reflexivity]. rewrite Hu. apply in_or_app. right. left.
  reflexivity.
Qed.

Lemma noOcc_includes (sep X : jsstring) :
  sep <> [] -> noOccBefore sep X [] -> includes sep X = false.
Proof.
  intros Hsep. induction X as [| c X IH]; intros Hno.
  - destruct sep; [contradiction | reflexivity].
  - cbn [includes].
    pose proof (Hno (c :: X) ltac:(discriminate) (Suffix_refl _)) as H.
    rewrite app_nil_r in H. rewrite H. cbn [orb].
    apply IH. eapply noOcc_suffix, Hno.
Qed.

Lemma text_block_no_marker (sep : jsstring) (t : jsstring) :
  hd_error sep = Some 60 ->
  forallb (mismatch sep) (tails PRE_OPEN) = true ->
  forallb (mismatch sep) (tails PRE_CLOSE) = true ->
  includes sep (PRE_OPEN ++ escapeHtml t ++ PRE_CLOSE) = false.
Proof.
  intros Hh Ho Hc. destruct sep as [| h tl]; [discriminate |].
  injection Hh as ->.
  apply noOcc_includes; [discriminate |].
  apply noOcc_app; [apply noOcc_literal, Ho |].
  apply noOcc_app; [| apply noOcc_literal, Hc].
  apply noOcc_no_head. intros c Hin.
  destruct (escapeHtml_safe t c Hin) as [H _]. exact H.
Qed.

Lemma buildHtmlForInsert_empty (htmlOut textOut : jsstring) :
  (truthy htmlOut = true -> buildHtmlForInsert htmlOut textOut = htmlOut)
  /\ (buildHtmlForInsert htmlOut textOut = [] <-> htmlOut = [] /\ textOut = []).
Proof.
  unfold buildHtmlForInsert. split; [intros ->; reflexivity |].
  destruct htmlOut as [| c h]; cbn [truthy].
  - destruct textOut as [| d t]; cbn [truthy]; [tauto |].
    split; [intros H; vm_compute in H; discriminate | intros [_ H]; discriminate].
  - split; [discriminate | intros [H _]; discriminate].
Qed.

(** X19. [buildHtmlForInsert] prefers the HTML output, returns nothing
    exactly when both outputs are empty, and for a result that has only
    text it returns a block that contains neither marker of the AI block,
    whatever the text says. *)
Theorem buildHtmlForInsert_text_is_marker_free (htmlOut textOut : jsstring) :
  (truthy htmlOut = true -> buildHtmlForInsert htmlOut textOut = htmlOut)
  /\ (buildHtmlForInsert htmlOut textOut = [] <-> htmlOut = [] /\ textOut = [])
  /\ (htmlOut = [] ->
      includes AI_BLOCK_START (buildHtmlForInsert htmlOut textOut) = false
      /\ includes AI_BLOCK_END (buildHtmlForInsert htmlOut textOut) = false).
Proof.
  unfold buildHtmlForInsert. split; [intros ->; reflexivity |]. split.
  - destruct htmlOut as [| c h]; cbn [truthy].
    + destruct textOut as [| d t]; cbn [truthy]; [tauto |].
      split; [intros H; vm_compute in H; discriminate | intros [_ H]; discriminate].
    + split; [discriminate | intros [H _]; discriminate].
  - intros ->. cbn [truthy]. destruct (truthy textOut); [| split; reflexivity].
    split; apply text_block_no_marker; vm_compute; reflexivity.
Qed.

Lemma testPrefix_literal (p pre s : jsstring) :
  pre <> [] -> headOk pre -> startsWithCI p pre = true ->
  testPrefix p (pre ++ s) = true.
Proof.
  intros Hne Hh Hp. unfold testPrefix.
  assert (Hd : dropWhile isWhiteSpace (pre ++ s) = pre ++ s).
  { destruct pre as [| c pre]; [contradiction |]. cbn in *.
    rewrite Hh. reflexivity. }
  rewrite Hd. clear Hd Hh Hne. revert pre Hp.
  induction p as [| a p IH]; intros pre Hp; [reflexivity |].
  destruct pre as [| b pre]; [discriminate |]. cbn in *.
  apply andb_prop in Hp as [Hab Hp]. rewrite Hab. cbn. apply IH, Hp.
Qed.

(** X20. [makeReplySubject] and [makeForwardSubject] never stack prefixes:
    applied to their own result they return it unchanged; a result is empty
    only for a blank subject, and otherwise it has no white space at either
    end and passes the prefix test of its function. *)
Theorem subject_prefix_once (subject : option jsstring) :
  makeReplySubject (Some (makeReplySubject subject)) = makeReplySubject subject
  /\ makeForwardSubject (Some (makeForwardSubject subject)) = makeForwardSubject subject
  /\ (makeReplySubject subject = [] <-> trim (strOrEmpty subject) = [])
  /\ (makeForwardSubject subject = [] <-> trim (strOrEmpty subject) = [])
  /\ (makeReplySubject subject <> [] ->
      trimmed (makeReplySubject subject)
      /\ testPrefix (js "re:") (makeReplySubject subject) = true)
  /\ (makeForwardSubject subject <> [] ->
      trimmed (makeForwardSubject subject)
      /\ (testPrefix (js "fw:") (makeForwardSubject subject)
          || testPrefix (js "fwd:") (makeForwardSubject subject)) = true).
Proof.
  unfold makeReplySubject, makeForwardSubject. cbv zeta.
  set (s := trim (strOrEmpty subject)).
  repeat match goal with
         | |- context [strOrEmpty (Some ?x)] => change (strOrEmpty (Some x)) with x
         end.
  assert (Hs : trimmed s) by apply trim_trimmed.
  assert (HRE : s <> [] -> trimmed (js "RE: " ++ s)).
  { intros Hne. apply trimmed_app; [discriminate | reflexivity | exact Hne | exact Hs]. }
  assert (HFW : s <> [] -> trimmed (js "FW: " ++ s)).
  { intros Hne. apply trimmed_app; [discriminate | reflexivity | exact Hne | exact Hs]. }
  assert (HtRE : testPrefix (js "re:") (js "RE: " ++ s) = true)
    by (apply testPrefix_literal; [discriminate | reflexivity | reflexivity]).
  assert (HtFW : testPrefix (js "fw:") (js "FW: " ++ s) = true)
    by (apply testPrefix_literal; [discriminate | reflexivity | reflexivity]).
  destruct s as [| c s'] eqn:Es; cbn [truthy negb strOrEmpty default].
  - change (trim []) with (@nil Z). cbn [truthy negb].
    split; [reflexivity |]. split; [reflexivity |].
    split; [tauto |]. split; [tauto |].
    split; intros H; contradiction.
  - set (s0 := c :: s') in *.
    assert (Hne : s0 <> []) by discriminate.
    split; [| split; [| split; [| split; [| split]]]].
    + destruct (testPrefix (js "re:") s0) eqn:Et.
      * rewrite (trim_fixed s0 Hs). cbn [truthy negb]. rewrite Et. reflexivity.
      * rewrite (trim_fixed _ (HRE Hne)). cbn [truthy negb app js].
        rewrite HtRE. reflexivity.
    + destruct (testPrefix (js "fw:") s0 || testPrefix (js "fwd:") s0) eqn:Et.
      * rewrite (trim_fixed s0 Hs). cbn [truthy negb]. rewrite Et. reflexivity.
      * rewrite (trim_fixed _ (HFW Hne)). cbn [truthy negb]. rewrite HtFW. reflexivity.
    + split; [| discriminate].
      destruct (testPrefix (js "re:") s0); intros H; [| vm_compute in H]; discriminate.
    + split; [| discriminate].
      destruct (testPrefix (js "fw:") s0 || testPrefix (js "fwd:") s0); intros H;
        [| vm_compute in H]; discriminate.
    + intros _. destruct (testPrefix (js "re:") s0) eqn:Et.
      * split; [exact Hs | exact Et].
      * split; [exact (HRE Hne) | exact HtRE].
    + intros _. destruct (testPrefix (js "fw:") s0 || testPrefix (js "fwd:") s0) eqn:Et.
      * split; [exact Hs | exact Et].
      * split; [exact (HFW Hne) | rewrite HtFW; reflexivity].
Qed.

End ComposeFacts.

(** * Body text, language and recipients of the open item *)

Section BodyFacts.

Import Body.

Variable markers : list (jsstring -> option nat).

Lemma cutSignature_prefix (s : jsstring) : exists n, cutSignature s = firstn n s.
Proof.
  unfold cutSignature. destruct (indexOf SIG s) as [[| n] |].
  - exists (length s). symmetry. apply firstn_all.
  - exists (S n). reflexivity.
  - exists (length s). symmetry. apply firstn_all.
Qed.

Lemma cutAt_short (s : jsstring) :
  (length s <= MIN_QUOTE_INDEX)%nat -> cutAt markers s = length s.
Proof.
  intros Hs. unfold cutAt. revert Hs. generalize (length s) as cut.
  induction markers as [| rx ms IH]; intros cut Hcut; cbn [fold_left]; [reflexivity |].
  destruct (rx s) as [idx |]; [| apply IH, Hcut].
  destruct (Nat.ltb_spec idx MIN_QUOTE_INDEX); [apply IH, Hcut |].
  rewrite Nat.min_l by lia. apply IH, Hcut.
Qed.

(** X21. The body handed to the generator is bounded: [trimEmailBody]
    returns at most 4500 code units and [trimEmailBodyFull] at most 9000,
    each being a prefix of the raw body with the white space at both ends
    removed.  When the signature delimiter first occurs at a position
    [n > 0], [trimEmailBodyFull] keeps nothing from that position on; and
    a raw body of at most 220 code units without the delimiter is only
    trimmed, whatever quote markers it contains. *)
Theorem body_trim_bounded (raw : jsstring) :
  Z.of_nat (length (trimEmailBody markers raw)) <= 4500
  /\ Z.of_nat (length (trimEmailBodyFull raw)) <= 9000
  /\ (exists n, trimEmailBody markers raw = trim (firstn n raw))
  /\ (exists n, trimEmailBodyFull raw = trim (firstn n raw))
  /\ (forall n, indexOf SIG raw = Some (S n) ->
        trimEmailBodyFull raw = trim (firstn (Nat.min (Z.to_nat 9000) (S n)) raw))
  /\ ((length raw <= 220)%nat -> indexOf SIG raw = None ->
        trimEmailBody markers raw = trim raw /\ trimEmailBodyFull raw = trim raw).
Proof.
  unfold trimEmailBody, trimEmailBodyFull.
  destruct raw as [| c raw']; cbn [truthy negb].
  - split; [cbn; lia |]. split; [cbn; lia |].
    split; [exists 0%nat; reflexivity |]. split; [exists 0%nat; reflexivity |].
    split; [intros n H; cbn in H; discriminate |].
    intros _ _. split; reflexivity.
  - set (raw := c :: raw').
    split; [| split; [| split; [| split; [| split]]]].
    + pose proof (length_trim (firstn (Z.to_nat 4500)
                                 (cutSignature (firstn (cutAt markers raw) raw)))) as H.
      rewrite length_firstn in H. lia.
    + pose proof (length_trim (firstn (Z.to_nat 9000) (cutSignature raw))) as H.
      rewrite length_firstn in H. lia.
    + destruct (cutSignature_prefix (firstn (cutAt markers raw) raw)) as [n ->].
      rewrite !firstn_firstn. eexists. reflexivity.
    + destruct (cutSignature_prefix raw) as [n ->].
      rewrite firstn_firstn. eexists. reflexivity.
    + intros n Hn. unfold cutSignature. rewrite Hn. rewrite firstn_firstn. reflexivity.
    + intros Hlen Hsig.
      rewrite (cutAt_short raw) by exact Hlen.
      rewrite firstn_all. unfold cutSignature. rewrite Hsig.
      rewrite !firstn_all2; [split; reflexivity | lia | lia].
Qed.

End BodyFacts.

Section LocaleFacts.

Import Locale.

Variable fold : jsstring -> jsstring.

(** The position of a locale in [ALL_LOCALES]. *)
Definition rank (l : AppLocale) : nat :=
  match l with
  | ptPT => 0
  | esES => 1
  | enGB => 2
  | itIT => 3
  | deDE => 4
  end.

Lemma score_nonneg (t : jsstring) (ps : list jsstring) : 0 <= score t ps.
Proof.
  unfold score.
  enough (H : forall acc, acc <= fold_left
                (fun acc p => if Insertion.includes p t then acc + 1 else acc) ps acc)
    by apply H.
  induction ps as [| p ps IH]; intros acc; cbn; [lia |].
  destruct (Insertion.includes p t); [| apply IH].
  etransitivity; [| apply IH]. lia.
Qed.

(** X22. [detectLocaleFromText] returns a locale with the highest phrase
    count, and among those the first in the order pt-PT, es-ES, en-GB,
    it-IT, de-DE, so a text that matches nothing is taken as pt-PT; and
    [resolveLocale] never uses its [fallback] argument. *)
Theorem detectLocale_argmax (text : option jsstring) (k : AppLocale)
    (lang : LangOption) (fallback1 fallback2 : AppLocale) :
  scores fold text k <= scores fold text (detectLocaleFromText fold text)
  /\ (scores fold text k = scores fold text (detectLocaleFromText fold text) ->
      (rank (detectLocaleFromText fold text) <= rank k)%nat)
  /\ ((forall l, scores fold text l = 0) -> detectLocaleFromText fold text = ptPT)
  /\ resolveLocale fold lang text fallback1 = resolveLocale fold lang text fallback2.
Proof.
  assert (Hnn : forall l, 0 <= scores fold text l) by (intros l; apply score_nonneg).
  unfold resolveLocale, detectLocaleFromText, ALL_LOCALES. cbn [fold_left fst snd].
  pose proof (Hnn ptPT) as H1. pose proof (Hnn esES) as H2. pose proof (Hnn enGB) as H3.
  pose proof (Hnn itIT) as H4. pose proof (Hnn deDE) as H5.
  assert (Hname : forall l, truthy (localeName l) = true) by (intros []; reflexivity).
  split; [| split; [| split]].
  - destruct (Z.gtb_spec (scores fold text ptPT) (-1)); cbn [fst snd]; [| lia].
    destruct (Z.gtb_spec (scores fold text esES) (scores fold text ptPT)); cbn [fst snd];
      (match goal with
       | |- context [scores fold text enGB >? ?b] =>
           destruct (Z.gtb_spec (scores fold text enGB) b); cbn [fst snd]
       end);
      (match goal with
       | |- context [scores fold text itIT >? ?b] =>
           destruct (Z.gtb_spec (scores fold text itIT) b); cbn [fst snd]
       end);
      (match goal with
       | |- context [scores fold text deDE >? ?b] =>
           destruct (Z.gtb_spec (scores fold text deDE) b); cbn [fst snd]
       end);
      destruct k; lia.
  - destruct (Z.gtb_spec (scores fold text ptPT) (-1)); cbn [fst snd]; [| lia].
    destruct (Z.gtb_spec (scores fold text esES) (scores fold text ptPT)); cbn [fst snd];
      (match goal with
       | |- context [scores fold text enGB >? ?b] =>
           destruct (Z.gtb_spec (scores fold text enGB) b); cbn [fst snd]
       end);
      (match goal with
       | |- context [scores fold text itIT >? ?b] =>
           destruct (Z.gtb_spec (scores fold text itIT) b); cbn [fst snd]
       end);
      (match goal with
       | |- context [scores fold text deDE >? ?b] =>
           destruct (Z.gtb_spec (scores fold text deDE) b); cbn [fst snd]
       end);
      destruct k; cbn [rank]; lia.
  - intros Hz. rewrite !Hz. reflexivity.
  - destruct lang; [| reflexivity]. cbv zeta. rewrite Hname. reflexivity.
Qed.

End LocaleFacts.

Section OfficeFacts.

Import Identity OfficeItem.

(** A normalised recipient handed back to the host layer. *)
Definition asDetails (r : Recipient) : EmailAddressDetails :=
  {| displayName := Some (rc_name r); emailAddress := Some (rc_email r) |}.

Lemma filter_length_le {A} (p : A -> bool) (l : list A) :
  (length (List.filter p l) <= length l)%nat.
Proof. induction l as [| a l IH]; cbn; [lia |]. destruct (p a); cbn; lia. Qed.

(** X23. [normalizeRecipients] returns only recipients with an address:
    every entry has a non-empty address, and neither its address nor its
    name has white space at an end; no entry is invented (there are at most
    as many as the host gave); and normalising the result again changes
    nothing. *)
Theorem normalizeRecipients_clean (arr : option (list EmailAddressDetails)) :
  Forall (fun r => truthy (rc_email r) = true
                   /\ trimmed (rc_email r) /\ trimmed (rc_name r))
    (normalizeRecipients arr)
  /\ (length (normalizeRecipients arr) <= length (default [] arr))%nat
  /\ normalizeRecipients (Some (map asDetails (normalizeRecipients arr)))
     = normalizeRecipients arr.
Proof.
  destruct arr as [l |]; cbn [normalizeRecipients default from_option id];
    [| split; [constructor | split; [cbn; lia | reflexivity]]].
  split; [| split].
  - apply List.Forall_forall. intros r Hr. apply filter_In in Hr as [Hr Ht].
    apply in_map_iff in Hr as (raw & <- & _). cbn in *.
    split; [exact Ht | split; apply trim_trimmed].
  - etransitivity; [apply filter_length_le |]. rewrite length_map. lia.
  - induction l as [| raw l IH]; [reflexivity |].
    cbn [map List.filter rc_email].
    destruct (truthy (trim (strOrEmpty (emailAddress raw)))) eqn:Et; [| exact IH].
    cbn [map List.filter asDetails displayName emailAddress rc_email rc_name].
    change (strOrEmpty (Some ?x)) with x.
    change (strOrEmpty (Some (trim (strOrEmpty (emailAddress raw)))))
      with (trim (strOrEmpty (emailAddress raw))).
    change (strOrEmpty (Some (trim (strOrEmpty (displayName raw)))))
      with (trim (strOrEmpty (displayName raw))).
    rewrite !trim_idem, Et. f_equal. exact IH.
Qed.

End OfficeFacts.

(** * Further properties of the automatic summary *)

Section AutoSummaryMore.

Import AutoSummary.

(** The flag of [k] is up. *)
Definition flagUp (a : Auto) (k : jsstring) : Prop :=
  inflight (default noState (a_ref a !! k)) = true.

(** A raised flag belongs to the pending timer or to a callback that is
    awaiting its run; a pending timer has its cleanup registered. *)
Definition flag_inv (a : Auto) : Prop :=
  (forall k, flagUp a k -> a_timer a = Some k \/ In k (a_running a))
  /\ (forall k, a_timer a = Some k -> a_cleanup a = Some k).

Lemma inflight_clearInflight (k0 k : jsstring) (ref : gmap (list Z) KeyState) :
  inflight (default noState (clearInflight k0 ref !! k)) = true ->
  k <> k0 /\ inflight (default noState (ref !! k)) = true.
Proof.
  unfold clearInflight. destruct (decide (k0 = k)) as [-> | Hne].
  - rewrite lookup_insert_eq. cbn. discriminate.
  - rewrite lookup_insert_ne by exact Hne. intros H. split; [congruence | exact H].
Qed.

Lemma In_removeOne (k0 k : jsstring) (l : list jsstring) :
  k <> k0 -> In k l -> In k (removeOne k0 l).
Proof.
  intros Hne. induction l as [| x l IH]; cbn; [tauto |].
  destruct (bool_decide (x = k0)) eqn:E.
  - apply bool_decide_eq_true in E. intros [-> | H]; [contradiction | exact H].
  - intros [-> | H]; [left; reflexivity | right; apply IH, H].
Qed.

Lemma runCleanup_flag (a : Auto) :
  flag_inv a -> flag_inv (runCleanup a) /\ a_timer (runCleanup a) = None.
Proof.
  intros [H1 H2]. unfold runCleanup. destruct (a_cleanup a) as [k0 |] eqn:Ec.
  - split; [| reflexivity]. split; cbn; [| discriminate].
    intros k Hk. unfold flagUp in Hk. cbn in Hk.
    apply inflight_clearInflight in Hk as [Hne Hk].
    destruct (H1 k Hk) as [Ht | Hr]; [| right; exact Hr].
    apply H2 in Ht. congruence.
  - split; [split; [exact H1 | intros k Hk; rewrite Ec; apply H2, Hk] |].
    destruct (a_timer a) as [k |] eqn:Et; [| reflexivity].
    specialize (H2 k eq_refl). congruence.
Qed.

Lemma effectBody_flag (ls : Store.LocalStorage) (now : Z) (d : Deps) (a : Auto) :
  flag_inv a -> a_timer a = None -> flag_inv (effectBody ls now d a).
Proof.
  intros [H1 H2] Ht.
  assert (Hidle : forall ref,
            (forall k, inflight (default noState (ref !! k)) = true -> flagUp a k) ->
            flag_inv {| a_ref := ref; a_current := a_current a; a_timer := a_timer a;
                        a_cleanup := None; a_running := a_running a;
                        a_attempts := a_attempts a |}).
  { intros ref Href. split; cbn.
    - intros k Hk. apply H1, Href, Hk.
    - rewrite Ht. discriminate. }
  unfold effectBody. cbv zeta.
  destruct (negb (truthy (strOrEmpty (d_conversationId d)))); [apply Hidle; auto |].
  destruct (negb (truthy (d_emailKey d))); [apply Hidle; auto |].
  destruct (truthy (Store.loadSummary ls now (d_emailKey d)).1); [apply Hidle; auto |].
  destruct (negb (truthy (trim _))); [apply Hidle; auto |].
  set (key := d_emailKey d).
  assert (Htouch : forall k,
            inflight (default noState
                        (<[key := default noState (a_ref a !! key)]> (a_ref a) !! k)) = true ->
            flagUp a k)
    by (intros k; rewrite lookup_touch; auto).
  destruct (inflight (default noState (a_ref a !! key))); [apply Hidle, Htouch |].
  destruct (throttled now (default noState (a_ref a !! key))); [apply Hidle, Htouch |].
  split; cbn.
  - intros k Hk. unfold flagUp in Hk. cbn in Hk.
    destruct (decide (key = k)) as [<- | Hne]; [left; reflexivity |].
    rewrite lookup_insert_ne in Hk by exact Hne.
    apply Htouch in Hk. destruct (H1 k Hk) as [Hk' | Hr]; [congruence | right; exact Hr].
  - intros k Hk. exact Hk.
Qed.

Lemma step_flag (a : Auto) (e : Event) : flag_inv a -> flag_inv (step a e).
Proof.
  intros Hinv. destruct e as [ls now d | | k0]; cbn [step].
  - unfold rerender. cbv zeta.
    destruct (runCleanup_flag a Hinv) as [[H1 H2] Ht].
    apply effectBody_flag; [split; cbn; assumption | exact Ht].
  - pose proof Hinv as [H1 H2]. unfold timerFires.
    destruct (a_timer a) as [k0 |] eqn:Et; [| exact Hinv].
    destruct (bool_decide (a_current a = k0)); split; cbn; try discriminate.
    + intros k Hk. right. destruct (H1 k Hk) as [Hk' | Hr];
        [left; congruence | right; exact Hr].
    + intros k Hk. unfold flagUp in Hk. cbn in Hk.
      apply inflight_clearInflight in Hk as [Hne Hk].
      destruct (H1 k Hk) as [Hk' | Hr]; [congruence | right; exact Hr].
  - destruct Hinv as [H1 H2]. unfold runSettles.
    destruct (bool_decide (k0 ∈ a_running a)); [| split; assumption].
    split; cbn; [| exact H2].
    intros k Hk. unfold flagUp in Hk. cbn in Hk.
    apply inflight_clearInflight in Hk as [Hne Hk].
    destruct (H1 k Hk) as [Hk' | Hr]; [left; exact Hk' |].
    right. apply In_removeOne; assumption.
Qed.

(** X24. The in-flight flag of an email is never left up with nothing to
    lower it: after any sequence of renders, timer expiries and completed
    runs, a raised flag belongs to the timer that is pending or to a
    callback that is awaiting [run("summarize")], both of which lower it
    when they end. *)
Theorem inflight_never_stuck (es : list Event) (k : jsstring) :
  let a := fold_left step es initial in
  inflight (default noState (a_ref a !! k)) = true ->
  a_timer a = Some k \/ In k (a_running a).
Proof.
  cbv zeta.
  enough (H : flag_inv (fold_left step es initial)) by (destruct H as [H _]; apply H).
  assert (H0 : flag_inv initial).
  { split; cbn; [| discriminate]. intros k0 Hk. unfold flagUp in Hk. cbn in Hk.
    rewrite lookup_empty in Hk. discriminate. }
  revert H0. generalize initial.
  induction es as [| e es IH]; intros a Ha; cbn; [exact Ha |].
  apply IH, step_flag, Ha.
Qed.

Lemma effectBody_keys (ls : Store.LocalStorage) (now : Z) (d : Deps) (a : Auto) :
  (forall k t, In (k, t) (a_attempts a) -> truthy k = true) ->
  forall k t, In (k, t) (a_attempts (effectBody ls now d a)) -> truthy k = true.
Proof.
  intros Ha. unfold effectBody. cbv zeta.
  destruct (negb (truthy (strOrEmpty (d_conversationId d)))); [exact Ha |].
  destruct (truthy (d_emailKey d)) eqn:Ek; cbn [negb]; [| exact Ha].
  destruct (truthy (Store.loadSummary ls now (d_emailKey d)).1); [exact Ha |].
  destruct (negb (truthy (trim _))); [exact Ha |].
  destruct (inflight _); [exact Ha |].
  destruct (throttled now _); [exact Ha |].
  cbn. intros k t [[= <- <-] | Hin]; [exact Ek | exact (Ha k t Hin)].
Qed.

Lemma step_keys (a : Auto) (e : Event) :
  (forall k t, In (k, t) (a_attempts a) -> truthy k = true) ->
  forall k t, In (k, t) (a_attempts (step a e)) -> truthy k = true.
Proof.
  intros Ha. destruct e as [ls now d | | k0]; cbn [step].
  - unfold rerender. cbv zeta. apply effectBody_keys.
    unfold runCleanup. destruct (a_cleanup a); exact Ha.
  - unfold timerFires. destruct (a_timer a); [| exact Ha].
    destruct (bool_decide _); exact Ha.
  - unfold runSettles. destruct (bool_decide _); exact Ha.
Qed.

Lemma fold_throttle_inv (es : list Event) (a : Auto) (last : Z) :
  clockOk last es -> throttle_inv last a ->
  exists last', throttle_inv last' (fold_left step es a).
Proof.
  revert a last. induction es as [| e es IH]; intros a last Hc Hinv; cbn.
  - exists last. exact Hinv.
  - destruct e as [ls now d | | k]; cbn in Hc.
    + destruct Hc as (Hpos & Hle & Hc). apply (IH _ now Hc).
      apply (rerender_inv last); assumption.
    + apply (IH _ last Hc). apply timerFires_inv, Hinv.
    + apply (IH _ last Hc). apply runSettles_inv, Hinv.
Qed.

(** X25. Within one mounted instance of the panel, automatic attempts are
    throttled per email: as long as the clock is positive and does not go
    back, two attempts for the same email are at least 30 s apart, whatever
    the renders, timer expiries and completed runs of that instance in
    between; and an attempt is only ever started for a non-empty key, at a
    positive time.  The table of last attempts is a ref of the instance:
    it starts empty at [initial], and the shell mounts a new instance each
    time the AI tab is opened, so the spacing does not extend across a
    change of tab. *)
Theorem auto_attempts_throttled (es : list Event) :
  clockOk 0 es ->
  let a := fold_left step es initial in
  spaced (a_attempts a)
  /\ forall k t, In (k, t) (a_attempts a) -> truthy k = true /\ 0 < t.
Proof.
  intros Hc. cbv zeta.
  assert (H0 : throttle_inv 0 initial) by (split; [exact I | intros k t []]).
  destruct (fold_throttle_inv es initial 0 Hc H0) as [last [Hs Hi]].
  split; [exact Hs |]. intros k t Hin. split.
  - revert k t Hin.
    assert (Hk0 : forall k t, In (k, t) (a_attempts initial) -> truthy k = true)
      by (intros k t []).
    revert Hk0. generalize initial. clear.
    induction es as [| e es IH]; intros a Ha; cbn; [exact Ha |].
    apply IH, step_keys, Ha.
  - destruct (Hi k t Hin) as [Ht _]. exact Ht.
Qed.

End AutoSummaryMore.

(** * Further properties of the insertion into the draft *)

Section InsertionMore.

Import Insertion.

Lemma includes_START_wrap (inner rest : jsstring) :
  includes AI_BLOCK_START (wrapAiBlock inner ++ rest) = true.
Proof.
  unfold wrapAiBlock. rewrite <- !List.app_assoc.
  apply (includes_mid AI_BLOCK_START []).
Qed.

Lemma includes_END_wrap (inner rest : jsstring) :
  includes AI_BLOCK_END (wrapAiBlock inner ++ rest) = true.
Proof.
  pose proof (marked_form_end [] inner rest) as H. cbn [app] in H.
  pose proof (marked_form [] inner rest) as H'. cbn [app] in H'.
  rewrite H', H. apply includes_mid.
Qed.

Lemma replaceOrInsert_failed (h : Host) (current htmlBlock : jsstring) :
  (replaceOrInsertAiBlock h current htmlBlock).1 = false ->
  (replaceOrInsertAiBlock h current htmlBlock).2 = current.
Proof.
  unfold replaceOrInsertAiBlock.
  destruct (h_api h); cbn [negb]; [| reflexivity].
  destruct (h_getOk h); cbn [negb]; [| reflexivity].
  destruct (includes AI_BLOCK_START current && includes AI_BLOCK_END current).
  - destruct (h_setOk h); cbn [fst snd]; [discriminate | reflexivity].
  - destruct (h_hasPrepend h).
    + destruct (h_prependOk h); cbn [fst snd]; [discriminate | reflexivity].
    + destruct (h_setOk h); cbn [fst snd]; [discriminate | reflexivity].
Qed.

Lemma insert_first (h : Host) (current block : jsstring) :
  h_api h = true -> h_getOk h = true -> h_setOk h = true ->
  (h_hasPrepend h = true -> h_prependOk h = true) ->
  includes AI_BLOCK_END current = false ->
  replaceOrInsertAiBlock h current block = (true, block ++ current).
Proof.
  intros Hapi Hget Hset Hpre HEcur.
  unfold replaceOrInsertAiBlock. rewrite Hapi, Hget, Hset, HEcur. cbn [negb].
  rewrite andb_false_r.
  destruct (h_hasPrepend h); [rewrite Hpre by reflexivity |]; reflexivity.
Qed.

Lemma insert_second (h : Host) (current a b : jsstring) :
  h_api h = true -> h_getOk h = true -> h_setOk h = true ->
  includes AI_BLOCK_END current = false ->
  includes AI_BLOCK_END a = false ->
  replaceOrInsertAiBlock h (wrapAiBlock a ++ current) (wrapAiBlock b)
  = (true, wrapAiBlock b ++ current).
Proof.
  intros Hapi Hget Hset HEcur HEa.
  unfold replaceOrInsertAiBlock. rewrite Hapi, Hget, Hset. cbn [negb].
  rewrite includes_START_wrap, includes_END_wrap. cbn [andb].
  pose proof (split_START_before [] (DIV_OPEN ++ a ++ DIV_CLOSE ++ AI_BLOCK_END ++ current)
                eq_refl) as HS.
  pose proof (split_END_after [] a current eq_refl HEa HEcur) as HE.
  cbn [app] in HS, HE.
  pose proof (marked_form [] a current) as Hform. cbn [app] in Hform.
  rewrite Hform, HS, HE. reflexivity.
Qed.

(** X27. Consecutive insertions do not pile up.  With a host that reads
    and writes the body, a draft that holds no end marker and a first
    result that holds no end marker either: inserting the first result puts
    its marked block in front of the draft, and inserting a second result
    then replaces the first, so that the draft ends up as the second block
    followed by the original draft. *)
Theorem insert_again_replaces (h : Host) (current a b : jsstring) :
  h_api h = true -> h_getOk h = true -> h_setOk h = true ->
  (h_hasPrepend h = true -> h_prependOk h = true) ->
  includes AI_BLOCK_END current = false ->
  includes AI_BLOCK_END a = false ->
  let first := replaceOrInsertAiBlock h current (wrapAiBlock a) in
  first = (true, wrapAiBlock a ++ current)
  /\ replaceOrInsertAiBlock h first.2 (wrapAiBlock b) = (true, wrapAiBlock b ++ current).
Proof.
  intros Hapi Hget Hset Hpre HEcur HEa. cbv zeta.
  rewrite (insert_first h current _ Hapi Hget Hset Hpre HEcur).
  split; [reflexivity |]. cbn [snd].
  apply insert_second; assumption.
Qed.

End InsertionMore.

(** * A run that completes on the email it started on *)

Section RunSuccess.

Import Store Lifecycle.

Variable sanitizeAiHtml : jsstring -> jsstring.
Variable stripHtml : jsstring -> jsstring.

Lemma fill_active_slot (i : nat) (now : Z) (h t : jsstring) (slots : list ResultSlot) :
  (i < length slots)%nat ->
  textUpdater i now t (htmlUpdater i now h slots)
  = <[i := {| html := h; text := t; ts := now |}]> slots.
Proof.
  intros Hi. destruct slots as [| s slots]; [cbn in Hi; lia |].
  unfold htmlUpdater. cbv zeta. unfold assignAt.
  destruct (Nat.ltb_spec i (length (s :: slots))); [| lia].
  unfold textUpdater. cbv zeta.
  assert (Hne : <[i := {| html := h; text := text (default emptySlot ((s :: slots) !! i));
                          ts := now |}]> (s :: slots) <> []).
  { intros Heq. apply (f_equal length) in Heq. rewrite length_insert in Heq.
    cbn in Heq. lia. }
  destruct (<[i := _]> (s :: slots)) as [| s1 rest] eqn:E; [congruence |].
  rewrite <- E. unfold assignAt. rewrite length_insert.
  destruct (Nat.ltb_spec i (length (s :: slots))); [| lia].
  rewrite list_lookup_insert_eq by assumption. cbn [default html from_option id].
  rewrite list_insert_insert_eq. reflexivity.
Qed.

End RunSuccess.

(** * Runs and the effects they trigger *)

Section EffectFacts.

Import Store Lifecycle Effects.

Variable sanitizeAiHtml : jsstring -> jsstring.
Variable stripHtml : jsstring -> jsstring.
Variable numberToString : Z -> jsstring.

(** A render none of whose dependencies changed runs no effect. *)
Lemma commit_same (prev p : Panel) (now : Z) :
  historyDeps prev = historyDeps p -> persistDeps prev = persistDeps p ->
  commit numberToString prev now p = p.
Proof.
  intros H1 H2. unfold commit. rewrite !bool_decide_eq_true_2 by assumption.
  reflexivity.
Qed.

Lemma commit_rejected (p : Panel) (now : Z) (msg : jsstring) :
  commit numberToString p now (rejected msg p) = rejected msg p.
Proof.
  apply commit_same; unfold historyDeps, persistDeps, rejected, onWorld; cbn;
    rewrite ?Nat.add_0_r; reflexivity.
Qed.

(** The history effect appends nothing when both outputs are empty. *)
Lemma history_quiet (prev q : Panel) (now : Z) :
  historyDeps prev = historyDeps q
  \/ (htmlOut (w_view (p_world q)) = [] /\ textOut (w_view (p_world q)) = []) ->
  (if bool_decide (historyDeps prev = historyDeps q) then q
   else historyEffect numberToString now q) = q.
Proof.
  intros [H | [Hh Ht]]; [rewrite bool_decide_eq_true_2 by exact H; reflexivity |].
  destruct (bool_decide _); [reflexivity |].
  unfold historyEffect. cbv zeta. rewrite Hh, Ht. cbn [truthy negb andb].
  destruct (negb _); [reflexivity |]. destruct (p_restoring q); reflexivity.
Qed.

Lemma loadWorkspaces_others (ls : LocalStorage) (now : Z) :
  ls_summary (loadWorkspaces ls now).2 = ls_summary ls
  /\ ls_historyV1 (loadWorkspaces ls now).2 = ls_historyV1 ls
  /\ ls_historyV2 (loadWorkspaces ls now).2 = ls_historyV2 ls
  /\ ls_full (loadWorkspaces ls now).2 = ls_full ls.
Proof.
  split; [| split; [| split; [| apply loadWorkspaces_full]]];
    unfold loadWorkspaces; destruct (ls_workspace ls); cbn;
    try (destruct (negb _); [destruct (ls_full ls) |]); reflexivity.
Qed.

Lemma saveWorkspace_others (ls : LocalStorage) (now : Z) (ws : EmailWorkspace) :
  ls_summary (saveWorkspace ls now ws) = ls_summary ls
  /\ ls_historyV1 (saveWorkspace ls now ws) = ls_historyV1 ls
  /\ ls_historyV2 (saveWorkspace ls now ws) = ls_historyV2 ls
  /\ ls_full (saveWorkspace ls now ws) = ls_full ls.
Proof.
  unfold saveWorkspace. pose proof (loadWorkspaces_others ls now) as H.
  destruct (loadWorkspaces ls now) as [all ls1]. cbn [snd] in H.
  destruct (ls_full ls1) eqn:E; cbn; rewrite ?E; exact H.
Qed.

Lemma persistWorkspace_others (now : Z) (w : World) :
  ls_summary (w_storage (persistWorkspace now w)) = ls_summary (w_storage w)
  /\ ls_historyV1 (w_storage (persistWorkspace now w)) = ls_historyV1 (w_storage w)
  /\ ls_historyV2 (w_storage (persistWorkspace now w)) = ls_historyV2 (w_storage w)
  /\ ls_full (w_storage (persistWorkspace now w)) = ls_full (w_storage w).
Proof.
  unfold persistWorkspace. cbv zeta. destruct (truthy _); cbn [w_storage];
    [apply saveWorkspace_others | repeat split].
Qed.

Lemma saveAiHistory_others (ls : LocalStorage) (now : Z) (l : list AiHistoryEntry) :
  ls_summary (saveAiHistory ls now l) = ls_summary ls
  /\ ls_workspace (saveAiHistory ls now l) = ls_workspace ls
  /\ ls_full (saveAiHistory ls now l) = ls_full ls.
Proof. unfold saveAiHistory. cbv zeta. destruct (ls_full ls) eqn:E; cbn; auto. Qed.

(** The timer of the persist effect writes the workspace namespace only. *)
Lemma persistTimer_others (now : Z) (p : Panel) :
  w_view (p_world (persistTimer now p)) = w_view (p_world p)
  /\ w_events (p_world (persistTimer now p)) = w_events (p_world p)
  /\ p_aiHistory (persistTimer now p) = p_aiHistory p
  /\ p_restoring (persistTimer now p) = p_restoring p
  /\ p_slotsId (persistTimer now p) = p_slotsId p
  /\ ls_summary (w_storage (p_world (persistTimer now p))) = ls_summary (w_storage (p_world p))
  /\ ls_historyV1 (w_storage (p_world (persistTimer now p)))
     = ls_historyV1 (w_storage (p_world p))
  /\ ls_historyV2 (w_storage (p_world (persistTimer now p)))
     = ls_historyV2 (w_storage (p_world p))
  /\ ls_full (w_storage (p_world (persistTimer now p))) = ls_full (w_storage (p_world p)).
Proof.
  unfold persistTimer. destruct (p_timer p) as [v |]; [| repeat split].
  cbv zeta. cbn [p_world p_aiHistory p_restoring p_slotsId w_view w_events w_storage].
  do 5 (split; [reflexivity |]).
  apply (persistWorkspace_others now
           {| w_view := v; w_storage := w_storage (p_world p);
              w_events := w_events (p_world p) |}).
Qed.

(** Reading a slot after [next[i] = x]. *)
Lemma assignAt_lookup (i j : nat) (x : ResultSlot) (l : list ResultSlot) :
  default emptySlot (assignAt i x l !! j)
  = if decide (j = i) then x else default emptySlot (l !! j).
Proof.
  unfold assignAt. destruct (Nat.ltb_spec i (length l)) as [Hi | Hi].
  - destruct (decide (j = i)) as [-> | Hne].
    + rewrite list_lookup_insert_eq by exact Hi. reflexivity.
    + rewrite list_lookup_insert_ne by congruence. reflexivity.
  - destruct (decide (j = i)) as [-> | Hne].
    + rewrite lookup_app_r by exact Hi.
      rewrite lookup_app_r by (rewrite length_replicate; lia).
      rewrite length_replicate, Nat.sub_diag. reflexivity.
    + destruct (Nat.lt_ge_cases j (length l)) as [Hj | Hj].
      * rewrite lookup_app_l by exact Hj. reflexivity.
      * rewrite lookup_app_r by exact Hj.
        rewrite (lookup_ge_None_2 l j) by exact Hj. cbn [default from_option].
        destruct (Nat.lt_ge_cases (j - length l) (i - length l)) as [Hk | Hk].
        -- rewrite lookup_app_l by (rewrite length_replicate; exact Hk).
           rewrite lookup_replicate_2 by exact Hk. reflexivity.
        -- rewrite lookup_app_r by (rewrite length_replicate; exact Hk).
           rewrite length_replicate.
           destruct (j - length l - (i - length l))%nat as [| n] eqn:E; [lia |].
           reflexivity.
Qed.

(** [prev.length ? [...prev] : makeEmptySlots()] reads like [prev]. *)
Lemma fresh_slots_lookup (j : nat) (l : list ResultSlot) :
  default emptySlot (match l with [] => makeEmptySlots | _ => l end !! j)
  = default emptySlot (l !! j).
Proof.
  destruct l as [| s l]; [| reflexivity].
  destruct j as [| [| [| j]]]; reflexivity.
Qed.

Lemma htmlUpdater_lookup (i j : nat) (t : Z) (v : jsstring) (l : list ResultSlot) :
  default emptySlot (htmlUpdater i t v l !! j)
  = if decide (j = i)
    then {| html := v; text := text (default emptySlot (l !! i)); ts := t |}
    else default emptySlot (l !! j).
Proof.
  unfold htmlUpdater. cbv zeta. rewrite assignAt_lookup, !fresh_slots_lookup.
  reflexivity.
Qed.

Lemma textUpdater_lookup (i j : nat) (t : Z) (v : jsstring) (l : list ResultSlot) :
  default emptySlot (textUpdater i t v l !! j)
  = if decide (j = i)
    then {| html := html (default emptySlot (l !! i)); text := v; ts := t |}
    else default emptySlot (l !! j).
Proof.
  unfold textUpdater. cbv zeta. rewrite assignAt_lookup, !fresh_slots_lookup.
  reflexivity.
Qed.

(** What tab [j] shows after [setHtmlOut(h)] and [setTextOut(x)] of a
    render whose active tab is [i]. *)
Lemma written_outputs (i j : nat) (t : Z) (h x : jsstring) (l : list ResultSlot) :
  default emptySlot (textUpdater i t x (htmlUpdater i t h l) !! j)
  = if decide (j = i) then {| html := h; text := x; ts := t |}
    else default emptySlot (l !! j).
Proof.
  rewrite textUpdater_lookup, !htmlUpdater_lookup.
  destruct (decide (j = i)) as [-> | Hne]; [| reflexivity].
  rewrite decide_True by reflexivity. reflexivity.
Qed.

(** The panel after the synchronous part of a run other than summarize. *)
Lemma begin_writes (env : View) (action : Action) (t0 : Z) (p0 : Panel) :
  action <> summarize ->
  (begin env action t0 p0).1
  = {| p_world :=
         {| w_view :=
              setResultSlots
                (fun slots =>
                   textUpdater (v_activeOption env) t0 []
                     (htmlUpdater (v_activeOption env) t0 [] slots))
                (setBusy true (setNotice NoticeNone (setErr [] (w_view (p_world p0)))));
            w_storage := w_storage (p_world p0);
            w_events := w_events (p_world p0) |};
       p_aiHistory := p_aiHistory p0; p_restoring := p_restoring p0;
       p_slotsId := (p_slotsId p0 + 2)%nat; p_timer := p_timer p0 |}.
Proof.
  intros Ha. unfold begin, onWorld, run_begin. cbv zeta.
  rewrite !bool_decide_eq_true_2 by exact Ha. reflexivity.
Qed.

(** The render that follows the synchronous part of a run other than
    summarize re-arms the persist timer and appends nothing to the
    history. *)
Lemma commit_begin (env : View) (action : Action) (t0 tE : Z) (p0 : Panel) :
  action <> summarize ->
  commit numberToString p0 tE (begin env action t0 p0).1
  = persistEffect (begin env action t0 p0).1.
Proof.
  intros Ha. rewrite (begin_writes env action t0 p0 Ha).
  set (q := {| p_world := _ |}).
  unfold commit. cbv zeta. rewrite (history_quiet p0 q tE).
  - rewrite bool_decide_eq_false_2; [reflexivity |].
    unfold persistDeps, q. cbn [p_slotsId]. intros H. injection H. intros. lia.
  - unfold historyDeps, htmlOut, textOut, q.
    cbn [p_world w_view setResultSlots setBusy setNotice setErr v_resultSlots
         v_activeOption v_conversationId v_emailKey].
    rewrite written_outputs.
    destruct (decide (v_activeOption (w_view (p_world p0)) = v_activeOption env));
      [right; split; reflexivity | left; reflexivity].
Qed.

(** The render that follows the synchronous part of a summarize run runs
    no effect. *)
Lemma commit_begin_summarize (env : View) (t0 tE : Z) (p0 : Panel) :
  commit numberToString p0 tE (begin env summarize t0 p0).1
  = (begin env summarize t0 p0).1.
Proof.
  apply commit_same; unfold historyDeps, persistDeps, begin, onWorld, run_begin;
    cbn; rewrite ?Nat.add_0_r; reflexivity.
Qed.

(** C6, as amended. When the generation call fails, whether the persist
    timer fires before or after the failure: the error message is shown
    and the busy flag is down; no event is dispatched, the history shown
    and the summaries and history namespaces of the storage are what they
    were before the run.  For summarize the result slots are unchanged and
    the storage ends as it would have without the run.  For reply, rewrite
    and tasks the active slot, emptied when the run started, stays empty,
    the other slots being unchanged, and the persist effect, re-armed by
    that change, saves the workspace of the open email with the emptied
    slot. *)
Theorem run_failure_effects (timerFirst : bool) (env : View) (action : Action)
    (msg : jsstring) (t0 tE1 tE2 tP : Z) (p0 : Panel) :
  let v0 := w_view (p_world p0) in
  let st0 := w_storage (p_world p0) in
  let emptied :=
    <[v_activeOption env := {| html := []; text := []; ts := t0 |}]> (v_resultSlots v0) in
  let p3 := failedRun numberToString timerFirst env action msg t0 tE1 tE2 tP p0 in
  let v3 := w_view (p_world p3) in
  let st3 := w_storage (p_world p3) in
  v_err v3 = msg
  /\ v_busy v3 = false
  /\ w_events (p_world p3) = w_events (p_world p0)
  /\ p_aiHistory p3 = p_aiHistory p0
  /\ ls_summary st3 = ls_summary st0
  /\ ls_historyV1 st3 = ls_historyV1 st0
  /\ ls_historyV2 st3 = ls_historyV2 st0
  /\ (action = summarize ->
      v_resultSlots v3 = v_resultSlots v0
      /\ st3 = w_storage (p_world (persistTimer tP p0)))
  /\ (action <> summarize ->
      (v_activeOption env < length (v_resultSlots v0))%nat ->
      v_resultSlots v3 = emptied
      /\ st3 = w_storage (persistWorkspace tP (p_world (begin env action t0 p0).1))
      /\ (truthy (v_emailKey v0) = true -> ls_full st0 = false ->
          exists data ws,
            ls_workspace st3 = Parsed data
            /\ data !! v_emailKey v0 = Some ws
            /\ ws_updatedAt ws = Some tP
            /\ ws_results ws = Some (map storedSlot emptied))).
Proof.
  cbv zeta. unfold failedRun. cbv zeta.
  destruct (decide (action = summarize)) as [-> | Ha].
  - rewrite commit_begin_summarize.
    destruct p0 as [[v0 st0 ev0] hist0 rs0 id0 tm0].
    assert (Hq : (begin env summarize t0
                    {| p_world := {| w_view := v0; w_storage := st0; w_events := ev0 |};
                       p_aiHistory := hist0; p_restoring := rs0; p_slotsId := id0;
                       p_timer := tm0 |}).1
                 = {| p_world :=
                        {| w_view := setBusy true (setNotice NoticeNone (setErr [] v0));
                           w_storage := st0; w_events := ev0 |};
                      p_aiHistory := hist0; p_restoring := rs0;
                      p_slotsId := (id0 + 0)%nat; p_timer := tm0 |}) by reflexivity.
    rewrite Hq. clear Hq.
    destruct timerFirst; rewrite commit_rejected;
      unfold rejected, onWorld, persistTimer; cbn [p_timer p_world];
      (destruct tm0 as [vt |];
       [ pose proof (persistWorkspace_others tP
                       {| w_view := vt; w_storage := st0; w_events := ev0 |})
           as (Hs & H1 & H2 & _);
         cbn [w_storage] in Hs, H1, H2
       | ]);
      cbn; repeat split; try assumption; intros; try contradiction; reflexivity.
  - rewrite (commit_begin env action t0 tE1 p0 Ha).
    rewrite (begin_writes env action t0 p0 Ha).
    destruct p0 as [[v0 st0 ev0] hist0 rs0 id0 tm0].
    cbn [p_world p_aiHistory p_restoring p_slotsId p_timer w_view w_storage w_events].
    set (v1 := setResultSlots _ _).
    assert (Hkey : v_emailKey v1 = v_emailKey v0) by reflexivity.
    assert (Hslots : v_resultSlots v1
                     = textUpdater (v_activeOption env) t0 []
                         (htmlUpdater (v_activeOption env) t0 [] (v_resultSlots v0)))
      by reflexivity.
    pose proof (persistWorkspace_others tP
                  {| w_view := v1; w_storage := st0; w_events := ev0 |}) as (Hs & H1 & H2 & _).
    cbn [w_storage] in Hs, H1, H2.
    assert (Hfinal :
      forall p3,
        p3 = (if timerFirst
              then commit numberToString
                     (persistTimer tP (persistEffect
                        {| p_world := {| w_view := v1; w_storage := st0; w_events := ev0 |};
                           p_aiHistory := hist0; p_restoring := rs0;
                           p_slotsId := (id0 + 2)%nat; p_timer := tm0 |})) tE2
                     (rejected msg (persistTimer tP (persistEffect
                        {| p_world := {| w_view := v1; w_storage := st0; w_events := ev0 |};
                           p_aiHistory := hist0; p_restoring := rs0;
                           p_slotsId := (id0 + 2)%nat; p_timer := tm0 |})))
              else persistTimer tP
                     (commit numberToString (persistEffect
                        {| p_world := {| w_view := v1; w_storage := st0; w_events := ev0 |};
                           p_aiHistory := hist0; p_restoring := rs0;
                           p_slotsId := (id0 + 2)%nat; p_timer := tm0 |}) tE2
                        (rejected msg (persistEffect
                        {| p_world := {| w_view := v1; w_storage := st0; w_events := ev0 |};
                           p_aiHistory := hist0; p_restoring := rs0;
                           p_slotsId := (id0 + 2)%nat; p_timer := tm0 |})))) ->
        w_view (p_world p3) = setBusy false (setErr msg v1)
        /\ w_events (p_world p3) = ev0
        /\ p_aiHistory p3 = hist0
        /\ w_storage (p_world p3)
           = w_storage (persistWorkspace tP
                          {| w_view := v1; w_storage := st0; w_events := ev0 |})).
    { assert (Hno : truthy (v_emailKey v0) = false ->
                    persistWorkspace tP
                      {| w_view := v1; w_storage := st0; w_events := ev0 |}
                    = {| w_view := v1; w_storage := st0; w_events := ev0 |}).
      { intros E. unfold persistWorkspace. cbv zeta. cbn [w_view]. rewrite Hkey, E.
        reflexivity. }
      intros p3 ->. destruct timerFirst; rewrite commit_rejected;
        unfold rejected, onWorld, persistTimer, persistEffect;
        cbn [p_world p_timer w_view w_storage w_events p_aiHistory];
        rewrite Hkey;
        (destruct (truthy (v_emailKey v0)) eqn:Ek; cbn [negb];
         [| rewrite (Hno eq_refl)]);
        cbn [p_world p_timer w_view w_storage w_events p_aiHistory run_rejected
             run_finally withView];
        repeat split. }
    match goal with
    | |- context [w_view (p_world ?p)] =>
        destruct (Hfinal p eq_refl) as (Ev & Ee & Eh & Est)
    end.
    rewrite Ev, Ee, Eh, Est, Hs, H1, H2.
    split; [reflexivity |]. split; [reflexivity |]. split; [reflexivity |].
    split; [reflexivity |]. split; [reflexivity |]. split; [reflexivity |].
    split; [reflexivity |]. split; [intros; contradiction |].
    intros _ Hi. cbn [w_view setBusy setErr v_resultSlots]. rewrite Hslots.
    rewrite (clear_active_slot _ t0 _ Hi).
    split; [reflexivity |]. split; [reflexivity |].
    intros Hk Hf.
    destruct (persistWorkspace_holds tP
                {| w_view := v1; w_storage := st0; w_events := ev0 |})
      as (ws & (_ & data & Hd & Hl) & _ & Hu & _ & _ & _ & _ & _ & _ & _ & _ & Hres & _);
      [rewrite <- Hk; reflexivity | exact Hf |].
    exists data, ws. cbn [w_view] in Hl, Hres. rewrite Hkey in Hl.
    rewrite Hslots, (clear_active_slot _ t0 _ Hi) in Hres.
    repeat split; assumption.
Qed.

(** The panel after the statements of a run other than summarize that
    resolved. *)
Lemma resolved_writes (env : View) (locals : RunLocals) (action : Action)
    (r : AiResult) (t1 : Z) (p : Panel) :
  action <> summarize ->
  runEmailKey locals = v_emailKey env ->
  let safeHtml := sanitizeAiHtml (strOrEmpty (ai_html r)) in
  let plainTxt :=
    if truthy (trim (strOrEmpty (ai_text r))) then trim (strOrEmpty (ai_text r))
    else stripHtml safeHtml in
  resolved sanitizeAiHtml stripHtml env locals action r t1 p
  = {| p_world :=
         {| w_view :=
              setBusy false
                (setSheet SheetNone
                   (setResultView (if truthy safeHtml then viewHtml else viewText)
                      (setResultSlots
                         (fun slots =>
                            textUpdater (v_activeOption env) t1 plainTxt
                              (htmlUpdater (v_activeOption env) t1 safeHtml slots))
                         (w_view (p_world p)))));
            w_storage := w_storage (p_world p);
            w_events := w_events (p_world p) |};
       p_aiHistory := p_aiHistory p; p_restoring := p_restoring p;
       p_slotsId := (p_slotsId p + 2)%nat; p_timer := p_timer p |}.
Proof.
  intros Ha Hk. cbv zeta. unfold resolved, onWorld, run_resolved. cbv zeta.
  rewrite !bool_decide_eq_false_2 by exact Ha.
  rewrite !bool_decide_eq_true_2 by exact Hk. reflexivity.
Qed.

(** The render that shows the result of a run appends one entry to the
    history, when there is a thread, no restore is going on and the result
    is not empty, and re-arms the persist timer. *)
Lemma commit_resolved (prev q : Panel) (tE : Z) :
  htmlOut (w_view (p_world prev)) = [] ->
  textOut (w_view (p_world prev)) = [] ->
  p_slotsId q = (p_slotsId prev + 2)%nat ->
  let v := w_view (p_world q) in
  let logged :=
    truthy (strOrEmpty (v_conversationId v)) && negb (p_restoring q)
    && (truthy (htmlOut v) || truthy (textOut v)) in
  commit numberToString prev tE q
  = persistEffect
      (if logged then
         {| p_world :=
              {| w_view := v;
                 w_storage :=
                   saveAiHistory (w_storage (p_world q)) tE
                     (p_aiHistory q ++ [historyEntry numberToString tE v]);
                 w_events := w_events (p_world q) |};
            p_aiHistory := p_aiHistory q ++ [historyEntry numberToString tE v];
            p_restoring := p_restoring q; p_slotsId := p_slotsId q;
            p_timer := p_timer q |}
       else q).
Proof.
  intros Hh Ht Hid. cbv zeta. unfold commit. cbv zeta.
  assert (Hp : persistDeps prev <> persistDeps q).
  { unfold persistDeps. intros H. injection H. intros. lia. }
  assert (Hhist :
    (if bool_decide (historyDeps prev = historyDeps q) then q
     else historyEffect numberToString tE q)
    = historyEffect numberToString tE q).
  { destruct (bool_decide (historyDeps prev = historyDeps q)) eqn:E; [| reflexivity].
    apply bool_decide_eq_true in E. unfold historyDeps in E.
    rewrite Hh, Ht in E. injection E as E1 E2 _ _.
    unfold historyEffect. cbv zeta. rewrite <- E1, <- E2. cbn [truthy negb andb].
    destruct (negb _); [reflexivity |]. destruct (p_restoring q); reflexivity. }
  rewrite Hhist. rewrite (bool_decide_eq_false_2 _ Hp).
  f_equal. unfold historyEffect. cbv zeta.
  destruct (truthy (strOrEmpty (v_conversationId (w_view (p_world q)))));
    cbn [negb andb]; [| reflexivity].
  destruct (p_restoring q); cbn [negb andb]; [reflexivity |].
  destruct (truthy (htmlOut (w_view (p_world q))));
    destruct (truthy (textOut (w_view (p_world q)))); reflexivity.
Qed.

(** The persist effect runs and its timer fires: the workspace is saved
    from the render that armed the timer. *)
Lemma persist_fires (p : Panel) (tP : Z) :
  let p3 := persistTimer tP (persistEffect p) in
  w_view (p_world p3) = w_view (p_world p)
  /\ w_events (p_world p3) = w_events (p_world p)
  /\ p_aiHistory p3 = p_aiHistory p
  /\ w_storage (p_world p3) = w_storage (persistWorkspace tP (p_world p)).
Proof.
  cbv zeta. destruct p as [[v st ev] hist rs id tm].
  unfold persistTimer, persistEffect. cbn [p_world p_timer w_view].
  destruct (truthy (v_emailKey v)) eqn:Ek; cbn [negb]; [repeat split |].
  unfold persistWorkspace. cbv zeta. cbn [w_view]. rewrite Ek. repeat split.
Qed.

(** X28. A reply, rewrite or tasks run started from the tab on screen (an
    existing slot) that completes while its email is still shown.  Its
    sanitised HTML and its text are in that slot, with the completion
    time, and the other slots are as they were; the HTML view is shown
    exactly when there is HTML, the sheet is closed, busy and error are
    cleared.  No event is dispatched and the summaries are not touched.
    The render that shows the result runs the two effects that depend on
    it: the history effect appends one entry holding the result, and
    saves the history, exactly when the email has a thread, no history
    entry is being restored and the result is not empty; the persist
    effect is re-armed and, when its timer fires, saves the workspace of
    the email with the new slot. *)
Theorem run_success_effects (env : View) (action : Action) (r : AiResult)
    (t0 tE1 : Z) (tEarly : option Z) (t1 tE2 tP : Z) (p0 : Panel) :
  action <> summarize ->
  v_activeOption env = v_activeOption (w_view (p_world p0)) ->
  (v_activeOption env < length (v_resultSlots (w_view (p_world p0))))%nat ->
  let v0 := w_view (p_world p0) in
  let st0 := w_storage (p_world p0) in
  let safeHtml := sanitizeAiHtml (strOrEmpty (ai_html r)) in
  let plainTxt :=
    if truthy (trim (strOrEmpty (ai_text r))) then trim (strOrEmpty (ai_text r))
    else stripHtml safeHtml in
  let filled :=
    <[v_activeOption env := {| html := safeHtml; text := plainTxt; ts := t1 |}]>
      (v_resultSlots v0) in
  let p3 :=
    completedRun sanitizeAiHtml stripHtml numberToString env action r
      t0 tE1 tEarly t1 tE2 tP p0 in
  let v3 := w_view (p_world p3) in
  let st3 := w_storage (p_world p3) in
  let entry := historyEntry numberToString tE2 v3 in
  let logged :=
    truthy (strOrEmpty (v_conversationId v0)) && negb (p_restoring p0)
    && (truthy safeHtml || truthy plainTxt) in
  v_resultSlots v3 = filled
  /\ v_resultView v3 = (if truthy safeHtml then viewHtml else viewText)
  /\ v_sheet v3 = SheetNone
  /\ v_busy v3 = false
  /\ v_err v3 = []
  /\ v_notice v3 = NoticeNone
  /\ w_events (p_world p3) = w_events (p_world p0)
  /\ ls_summary st3 = ls_summary st0
  /\ p_aiHistory p3 = (if logged then p_aiHistory p0 ++ [entry] else p_aiHistory p0)
  /\ h_html entry = nonEmpty safeHtml
  /\ h_text entry = nonEmpty plainTxt
  /\ h_emailKey entry = Some (v_emailKey v0)
  /\ (ls_full st0 = false ->
      ls_historyV2 st3
      = if logged
        then Parsed (lastN 300 (List.filter (historyFresh tE2) (p_aiHistory p0 ++ [entry])))
        else ls_historyV2 st0)
  /\ (truthy (v_emailKey v0) = true -> ls_full st0 = false ->
      exists data ws,
        ls_workspace st3 = Parsed data
        /\ data !! v_emailKey v0 = Some ws
        /\ ws_updatedAt ws = Some tP
        /\ ws_results ws = Some (map storedSlot filled)
        /\ ws_htmlOut ws = nonEmpty safeHtml
        /\ ws_textOut ws = nonEmpty plainTxt).
Proof.
  intros Ha Hj Hi. cbv zeta. unfold completedRun. cbv zeta.
  rewrite (commit_begin env action t0 tE1 p0 Ha).
  rewrite (begin_writes env action t0 p0 Ha).
  set (safeHtml := sanitizeAiHtml (strOrEmpty (ai_html r))).
  set (plainTxt := if truthy (trim (strOrEmpty (ai_text r)))
                   then trim (strOrEmpty (ai_text r)) else stripHtml safeHtml).
  destruct p0 as [[v0 st0 ev0] hist0 rs0 id0 tm0].
  cbn [p_world p_aiHistory p_restoring p_slotsId p_timer w_view w_storage w_events]
    in Hj, Hi |- *.
  set (v1 := setResultSlots _ _).
  (* the panel while [run] awaits *)
  match goal with
  | |- context [commit numberToString ?x tE2 _] => set (pm := x)
  end.
  assert (Hpm : w_view (p_world pm) = v1
                /\ w_events (p_world pm) = ev0
                /\ p_aiHistory pm = hist0
                /\ p_restoring pm = rs0
                /\ p_slotsId pm = (id0 + 2)%nat
                /\ ls_summary (w_storage (p_world pm)) = ls_summary st0
                /\ ls_historyV2 (w_storage (p_world pm)) = ls_historyV2 st0
                /\ ls_full (w_storage (p_world pm)) = ls_full st0).
  { unfold pm. destruct tEarly as [t |].
    - match goal with
      | |- context [persistTimer t ?p] =>
          destruct (persistTimer_others t p) as (A1 & A2 & A3 & A4 & A5 & A6 & _ & A8 & A9)
      end.
      rewrite A1, A2, A3, A4, A5, A6, A8, A9. repeat split.
    - repeat split. }
  clearbody pm. destruct Hpm as (Pv & Pe & Ph & Pr & Pid & Ps & Ph2 & Pf).
  match goal with
  | |- context [resolved _ _ env ?l action r t1 pm] =>
      rewrite (resolved_writes env l action r t1 pm Ha eq_refl)
  end.
  cbv zeta.
  fold safeHtml. fold plainTxt. rewrite Pv.
  set (v2 := setBusy false _).
  set (q := {| p_world := {| w_view := v2 |} |}).
  assert (Hslots1 : v_resultSlots v1
                    = <[v_activeOption env := {| html := []; text := []; ts := t0 |}]>
                        (v_resultSlots v0)).
  { unfold v1. cbn [setResultSlots v_resultSlots setBusy setNotice setErr].
    apply clear_active_slot, Hi. }
  assert (Hslots2 : v_resultSlots v2
                    = <[v_activeOption env :=
                          {| html := safeHtml; text := plainTxt; ts := t1 |}]>
                        (v_resultSlots v0)).
  { unfold v2. cbn [setResultSlots v_resultSlots setBusy setSheet setResultView].
    rewrite Hslots1.
    rewrite fill_active_slot by (rewrite length_insert; exact Hi).
    apply list_insert_insert_eq. }
  assert (Hact2 : v_activeOption v2 = v_activeOption env) by (symmetry; exact Hj).
  assert (Hout2 : htmlOut v2 = safeHtml /\ textOut v2 = plainTxt).
  { unfold htmlOut, textOut. rewrite Hslots2, Hact2.
    rewrite list_lookup_insert_eq by exact Hi. split; reflexivity. }
  destruct Hout2 as [Hhtml2 Htext2].
  assert (Hout1 : htmlOut (w_view (p_world pm)) = [] /\ textOut (w_view (p_world pm)) = []).
  { rewrite Pv. unfold htmlOut, textOut. rewrite Hslots1.
    change (v_activeOption v1) with (v_activeOption v0). rewrite <- Hj.
    rewrite list_lookup_insert_eq by exact Hi. split; reflexivity. }
  destruct Hout1 as [Hhtml1 Htext1].
  rewrite (commit_resolved pm q tE2 Hhtml1 Htext1 eq_refl). cbv zeta.
  change (w_view (p_world q)) with v2.
  change (p_restoring q) with (p_restoring pm).
  change (p_aiHistory q) with (p_aiHistory pm).
  change (w_storage (p_world q)) with (w_storage (p_world pm)).
  change (w_events (p_world q)) with (w_events (p_world pm)).
  change (p_slotsId q) with (p_slotsId pm + 2)%nat.
  change (p_timer q) with (p_timer pm).
  rewrite Hhtml2, Htext2, Pr, Pe, Ph.
  change (v_conversationId v2) with (v_conversationId v0).
  set (entry := historyEntry numberToString tE2 v2).
  set (logged := truthy (strOrEmpty (v_conversationId v0)) && negb rs0
                 && (truthy safeHtml || truthy plainTxt)).
  set (p2 := if logged then _ else q).
  assert (Hp2 : w_view (p_world p2) = v2
                /\ w_events (p_world p2) = ev0
                /\ p_aiHistory p2 = (if logged then hist0 ++ [entry] else hist0)
                /\ w_storage (p_world p2)
                   = (if logged
                      then saveAiHistory (w_storage (p_world pm)) tE2 (hist0 ++ [entry])
                      else w_storage (p_world pm))).
  { unfold p2. destruct logged; cbn; repeat split; assumption. }
  destruct Hp2 as (Qv & Qe & Qh & Qs).
  destruct (persist_fires p2 tP) as (Fv & Fe & Fh & Fs).
  rewrite Fv, Fe, Fh, Fs, Qv, Qe, Qh.
  destruct (persistWorkspace_others tP (p_world p2)) as (Os & _ & Oh2 & Of).
  rewrite Os, Oh2, Qs.
  assert (Hfull : ls_full st0 = false -> ls_full (w_storage (p_world p2)) = false).
  { intros Hf. rewrite Qs.
    destruct logged; [rewrite (proj2 (proj2 (saveAiHistory_others _ _ _))) |];
      rewrite Pf; exact Hf. }
  split; [exact Hslots2 |]. split; [reflexivity |]. split; [reflexivity |].
  split; [reflexivity |]. split; [reflexivity |]. split; [reflexivity |].
  split; [reflexivity |].
  split.
  { destruct logged; [rewrite (proj1 (saveAiHistory_others _ _ _)) |]; exact Ps. }
  split; [reflexivity |].
  split; [unfold entry, historyEntry; cbn [h_html]; rewrite Hhtml2; reflexivity |].
  split; [unfold entry, historyEntry; cbn [h_text]; rewrite Htext2; reflexivity |].
  split; [reflexivity |].
  split.
  { intros Hf. destruct logged; [| exact Ph2].
    unfold saveAiHistory. cbv zeta. rewrite Pf, Hf. reflexivity. }
  intros Hk Hf.
  destruct (persistWorkspace_holds tP (p_world p2))
    as (ws & (_ & data & Hd & Hl) & _ & Hu & _ & _ & _ & _ & _ & _ & _ & _ & Hres & Hh & Ht);
    [rewrite Qv; exact Hk | exact (Hfull Hf) |].
  exists data, ws. rewrite Qv in Hl, Hres, Hh, Ht.
  change (v_emailKey v2) with (v_emailKey v0) in Hl.
  fold (htmlOut v2) in Hh. fold (textOut v2) in Ht.
  rewrite Hhtml2 in Hh. rewrite Htext2 in Ht. rewrite Hslots2 in Hres.
  repeat split; assumption.
Qed.

End EffectFacts.

(** * The insert button *)

Section DraftFacts.

Import Insertion Compose Draft.

Variable parseInt10 : jsstring -> option Z.
Variable numberToString : Z -> jsstring.
Variable atCursor : jsstring -> jsstring -> jsstring.

(** No occurrence of [sep] starts inside [X], whatever follows. *)
Definition safePiece (sep X : jsstring) : Prop :=
  forall rest, noOccBefore sep X rest.

Lemma safePiece_app sep a b : safePiece sep a -> safePiece sep b -> safePiece sep (a ++ b).
Proof. intros Ha Hb rest. apply noOcc_app; [apply Ha | apply Hb]. Qed.

Lemma safePiece_literal sep a :
  forallb (mismatch sep) (tails a) = true -> safePiece sep a.
Proof. intros H rest. apply noOcc_literal, H. Qed.

Lemma safePiece_escaped tl t : safePiece (60 :: tl) (escapeHtml t).
Proof.
  intros rest. apply noOcc_no_head. intros c Hin.
  destruct (escapeHtml_safe t c Hin) as [H _]. exact H.
Qed.

Lemma safePiece_nil sep : safePiece sep [].
Proof. intros rest v Hne [u Hu]. destruct u; destruct v; try discriminate. contradiction. Qed.

Lemma safePiece_includes sep X : sep <> [] -> safePiece sep X -> includes sep X = false.
Proof. intros Hsep H. apply noOcc_includes; [exact Hsep | apply H]. Qed.

(** The signature in the modes that do not paste text of the user as
    markup. *)
Definition escapingMode (g : Signature) : Prop :=
  sigMode g = SigOff \/ sigMode g = SigText.

Lemma text_content_safe (sep : jsstring) (g : Signature) (t : jsstring) :
  escapingMode g ->
  hd_error sep = Some 60 ->
  forallb (mismatch sep) (tails PRE_OPEN) = true ->
  forallb (mismatch sep) (tails PRE_CLOSE) = true ->
  forallb (mismatch sep) (tails SIG_TEXT_OPEN) = true ->
  forallb (mismatch sep) (tails SIG_CLOSE) = true ->
  safePiece sep
    (withSignature parseInt10 numberToString g (PRE_OPEN ++ escapeHtml t ++ PRE_CLOSE)).
Proof.
  intros Hg Hh H1 H2 H3 H4. destruct sep as [| h tl]; [discriminate |].
  injection Hh as ->.
  assert (Hpre : safePiece (60 :: tl) (PRE_OPEN ++ escapeHtml t ++ PRE_CLOSE)).
  { apply safePiece_app; [apply safePiece_literal, H1 |].
    apply safePiece_app; [apply safePiece_escaped | apply safePiece_literal, H2]. }
  unfold withSignature, buildSignatureHtml. cbv zeta.
  destruct Hg as [-> | ->]; cbn [truthy]; [exact Hpre |].
  destruct (truthy (trim (sigText g))); cbn [negb truthy]; [| exact Hpre].
  destruct (truthy (SIG_TEXT_OPEN ++ escapeHtml (trim (sigText g)) ++ SIG_CLOSE));
    [| exact Hpre].
  apply safePiece_app; [exact Hpre |].
  apply safePiece_app; [apply safePiece_literal, H3 |].
  apply safePiece_app; [apply safePiece_escaped | apply safePiece_literal, H4].
Qed.

Lemma capable_host (m : Mailbox) :
  mb_item m = true -> mb_body m = true ->
  mb_get m = Some true -> mb_set m = Some true -> mb_prepend m <> Some false ->
  h_api (toHost m) = true /\ h_getOk (toHost m) = true /\ h_setOk (toHost m) = true
  /\ (h_hasPrepend (toHost m) = true -> h_prependOk (toHost m) = true).
Proof.
  intros Hi Hb Hg Hs Hp. unfold toHost. cbn. rewrite Hi, Hb, Hg, Hs.
  repeat split. destruct (mb_prepend m) as [[|] |]; [reflexivity | congruence | discriminate].
Qed.

(** X29. The insert button, end to end, for a result that has only text.
    With a host that reads and writes the body and a signature that is off
    or plain text, pressing insert for a first text and then for a second
    one leaves the draft with one marked block, holding the second text
    (escaped, with the signature), followed by the draft as it was before:
    whatever the two texts and the signature say, they cannot break the
    markers. *)
Theorem insert_text_twice_one_block (m : Mailbox) (g : Signature)
    (t1 t2 current : jsstring) :
  mb_item m = true -> mb_body m = true ->
  mb_get m = Some true -> mb_set m = Some true -> mb_prepend m <> Some false ->
  escapingMode g ->
  truthy t1 = true -> truthy t2 = true ->
  includes AI_BLOCK_START current = false -> includes AI_BLOCK_END current = false ->
  let content t :=
    withSignature parseInt10 numberToString g (PRE_OPEN ++ escapeHtml t ++ PRE_CLOSE) in
  let r1 := insertIntoCurrentDraft parseInt10 numberToString atCursor m g [] t1 current in
  let r2 := insertIntoCurrentDraft parseInt10 numberToString atCursor m g [] t2 r1.2 in
  r1 = (NoticeReplaced, wrapAiBlock (content t1) ++ current)
  /\ r2 = (NoticeReplaced, wrapAiBlock (content t2) ++ current)
  /\ countOcc AI_BLOCK_START r2.2 = 1%nat
  /\ countOcc AI_BLOCK_END r2.2 = 1%nat.
Proof.
  intros Hi Hb Hg Hs Hp Hmode Ht1 Ht2 HScur HEcur. cbv zeta.
  destruct (capable_host m Hi Hb Hg Hs Hp) as (Hapi & Hget & Hset & Hpre).
  assert (Hsafe : forall t,
            includes AI_BLOCK_START
              (withSignature parseInt10 numberToString g
                 (PRE_OPEN ++ escapeHtml t ++ PRE_CLOSE)) = false
            /\ includes AI_BLOCK_END
                 (withSignature parseInt10 numberToString g
                    (PRE_OPEN ++ escapeHtml t ++ PRE_CLOSE)) = false).
  { intros t. split; (apply safePiece_includes; [discriminate |]);
      apply text_content_safe; try exact Hmode; vm_compute; reflexivity. }
  assert (Hbuild : forall t, truthy t = true ->
            buildHtmlForInsert [] t = PRE_OPEN ++ escapeHtml t ++ PRE_CLOSE).
  { intros t Ht. unfold buildHtmlForInsert. cbn [truthy]. rewrite Ht. reflexivity. }
  assert (Hr1 : insertIntoCurrentDraft parseInt10 numberToString atCursor m g [] t1 current
                = (NoticeReplaced,
                   wrapAiBlock (withSignature parseInt10 numberToString g
                                  (PRE_OPEN ++ escapeHtml t1 ++ PRE_CLOSE)) ++ current)).
  { unfold insertIntoCurrentDraft. rewrite Hi. cbn [negb]. cbv zeta.
    rewrite (Hbuild t1 Ht1).
    change (truthy (PRE_OPEN ++ escapeHtml t1 ++ PRE_CLOSE)) with true. cbn [negb].
    rewrite (insert_first (toHost m) current _ Hapi Hget Hset Hpre HEcur).
    reflexivity. }
  rewrite Hr1. cbn [snd].
  assert (Hr2 : insertIntoCurrentDraft parseInt10 numberToString atCursor m g [] t2
                  (wrapAiBlock (withSignature parseInt10 numberToString g
                                  (PRE_OPEN ++ escapeHtml t1 ++ PRE_CLOSE)) ++ current)
                = (NoticeReplaced,
                   wrapAiBlock (withSignature parseInt10 numberToString g
                                  (PRE_OPEN ++ escapeHtml t2 ++ PRE_CLOSE)) ++ current)).
  { unfold insertIntoCurrentDraft. rewrite Hi. cbn [negb]. cbv zeta.
    rewrite (Hbuild t2 Ht2).
    change (truthy (PRE_OPEN ++ escapeHtml t2 ++ PRE_CLOSE)) with true. cbn [negb].
    rewrite (insert_second (toHost m) current _ _ Hapi Hget Hset HEcur
               (proj2 (Hsafe t1))).
    reflexivity. }
  rewrite Hr2. cbn [snd]. split; [reflexivity |]. split; [reflexivity |].
  destruct (Hsafe t2) as [HS2 HE2].
  pose proof (marked_form [] (withSignature parseInt10 numberToString g
                                (PRE_OPEN ++ escapeHtml t2 ++ PRE_CLOSE)) current) as Hform.
  cbn [app] in Hform. rewrite Hform.
  split.
  - apply (one_START [] _ current); [reflexivity | exact HS2 | exact HScur].
  - apply (one_END [] _ current); [reflexivity | exact HE2 | exact HEcur].
Qed.

(** The user is told that something was inserted. *)
Definition isNotice (o : Outcome) : bool :=
  match o with
  | NoticeReplaced | NoticeAtCursor | NoticeAtTop | NoticeAtEnd | NoticeBodyReplaced => true
  | _ => false
  end.

(** X30. The insert button never changes the draft behind the user's
    back: unless the user is told that the content was inserted, the body
    of the draft is what it was, whichever call failed or was missing; and
    the button does nothing at all, silently, exactly when there is an open
    item and the active slot holds neither HTML nor text. *)
Theorem insert_failure_leaves_draft (m : Mailbox) (g : Signature)
    (htmlOut textOut current : jsstring) :
  let r := insertIntoCurrentDraft parseInt10 numberToString atCursor m g
             htmlOut textOut current in
  (isNotice r.1 = false -> r.2 = current)
  /\ (r.1 = Silent <-> mb_item m = true /\ htmlOut = [] /\ textOut = []).
Proof.
  cbv zeta. unfold insertIntoCurrentDraft.
  destruct (mb_item m); cbn [negb];
    [| split; [reflexivity | split; [discriminate | intros [H _]; discriminate]]].
  cbv zeta.
  destruct (proj2 (buildHtmlForInsert_empty htmlOut textOut)) as [Hb1 Hb2].
  destruct (buildHtmlForInsert htmlOut textOut) as [| c html] eqn:Eb; cbn [truthy negb].
  - split; [reflexivity |]. split; [intros _ | reflexivity].
    destruct (Hb1 eq_refl) as [-> ->]. repeat split.
  - assert (Hnot : ~ (htmlOut = [] /\ textOut = []))
      by (intros H; specialize (Hb2 H); discriminate).
    pose proof (replaceOrInsert_failed (toHost m) current
                  (wrapAiBlock (withSignature parseInt10 numberToString g (c :: html))))
      as Hfail.
    destruct (replaceOrInsertAiBlock (toHost m) current _) as [did body1].
    cbn [fst snd] in Hfail.
    destruct did.
    + split; [discriminate | split; [discriminate | intros [_ H]; contradiction]].
    + rewrite (Hfail eq_refl).
      assert (Hiff : forall o : Outcome, o <> Silent ->
                (o = Silent <-> true = true /\ htmlOut = [] /\ textOut = []))
        by (intros o Ho; split; [contradiction | intros [_ H]; contradiction]).
      destruct (mb_body m); cbn [negb];
        [| split; [reflexivity | apply Hiff; discriminate]].
      destruct (mb_selected m) as [[|] |];
        [split; [discriminate | apply Hiff; discriminate]
        | split; [reflexivity | apply Hiff; discriminate] |].
      destruct (mb_prepend m) as [pre |].
      { destruct (mb_prependRetry m);
          [split; [discriminate | apply Hiff; discriminate]
          | split; [reflexivity | apply Hiff; discriminate]]. }
      destruct (mb_append m) as [[|] |];
        [split; [discriminate | apply Hiff; discriminate]
        | split; [reflexivity | apply Hiff; discriminate] |].
      destruct (mb_set m) as [st |];
        [| split; [reflexivity | apply Hiff; discriminate]].
      destruct (mb_setRetry m);
        [split; [discriminate | apply Hiff; discriminate]
        | split; [reflexivity | apply Hiff; discriminate]].
Qed.

End DraftFacts.

(** * Keys of different messages *)

Section IdentityMore.

Import Identity.

Variable toLowerCase : jsstring -> jsstring.

(** The message part of a key outside the fallback branch. *)
Definition messagePart (c : AnyCtx) : jsstring :=
  if truthy (normStr (a_internetMessageId c)) then normStr (a_internetMessageId c)
  else normStr (orElse (a_itemId c) (a_id c)).

(** No colon in the string. *)
Definition colonFree (s : jsstring) : Prop := forall x, In x s -> x <> 58.

Lemma app_sep_inj (a b x y : jsstring) :
  colonFree a -> colonFree b ->
  a ++ 58 :: 58 :: x = b ++ 58 :: 58 :: y -> a = b /\ x = y.
Proof.
  revert b. induction a as [| c a IH]; intros b Ha Hb H.
  - destruct b as [| d b]; cbn in H.
    + injection H as ->. split; reflexivity.
    + injection H as <- _. exfalso. apply (Hb 58); [left |]; reflexivity.
  - destruct b as [| d b]; cbn in H.
    + injection H as -> _. exfalso. apply (Ha 58); [left |]; reflexivity.
    + injection H as <- H.
      destruct (IH b) as [-> ->];
        [intros z Hz; apply Ha; right; exact Hz
        | intros z Hz; apply Hb; right; exact Hz | exact H |].
      split; reflexivity.
Qed.

Lemma primary_key_form (c : AnyCtx) :
  in_fallback c = false ->
  makeEmailKey toLowerCase c
  = normStr (a_conversationId c) ++ 58 :: 58 :: messagePart c.
Proof.
  unfold in_fallback, present, makeEmailKey, messagePart, normStr. cbv zeta.
  destruct (truthy (trim (strOrEmpty (a_conversationId c)))); cbn [andb negb];
    [| discriminate].
  destruct (truthy (trim (strOrEmpty (a_internetMessageId c)))); cbn [andb negb];
    [intros _; reflexivity |].
  destruct (truthy (trim (strOrEmpty (orElse (a_itemId c) (a_id c))))); cbn [negb];
    [intros _; reflexivity | discriminate].
Qed.

Lemma fallback_key_form (c : AnyCtx) :
  in_fallback c = true ->
  exists d, makeEmailKey toLowerCase c = js "nocid" ++ 58 :: 58 :: d.
Proof.
  unfold in_fallback, present, makeEmailKey, normStr. cbv zeta.
  destruct (truthy (trim (strOrEmpty (a_conversationId c)))
            && truthy (trim (strOrEmpty (a_internetMessageId c)))); cbn [negb andb];
    [discriminate |].
  destruct (truthy (trim (strOrEmpty (a_conversationId c)))
            && truthy (trim (strOrEmpty (orElse (a_itemId c) (a_id c))))); cbn [negb];
    [discriminate |].
  intros _. eexists. reflexivity.
Qed.

(** X26. Keys tell messages apart.  For two messages that have a thread
    identifier without a colon and a message or item identifier, equal keys
    mean the same thread identifier and the same message identifier (after
    trimming); and such a key equals the key of a message in the fallback
    branch only when the thread identifier is the text [nocid]. *)
Theorem primary_key_injective (c1 c2 c3 : AnyCtx) :
  in_fallback c1 = false -> in_fallback c2 = false -> in_fallback c3 = true ->
  colonFree (normStr (a_conversationId c1)) ->
  colonFree (normStr (a_conversationId c2)) ->
  (makeEmailKey toLowerCase c1 = makeEmailKey toLowerCase c2 ->
   normStr (a_conversationId c1) = normStr (a_conversationId c2)
   /\ messagePart c1 = messagePart c2)
  /\ (makeEmailKey toLowerCase c1 = makeEmailKey toLowerCase c3 ->
      normStr (a_conversationId c1) = js "nocid").
Proof.
  intros H1 H2 H3 Hc1 Hc2.
  rewrite (primary_key_form c1 H1), (primary_key_form c2 H2).
  destruct (fallback_key_form c3 H3) as [d ->].
  split; intros H.
  - exact (app_sep_inj _ _ _ _ Hc1 Hc2 H).
  - refine (proj1 (app_sep_inj _ _ _ _ Hc1 _ H)).
    intros x Hx. vm_compute in Hx.
    repeat destruct Hx as [<- | Hx]; try discriminate. destruct Hx.
Qed.

End IdentityMore.

(** * Sample runs of the further properties *)

(** A storage whose quota is exhausted. *)
Definition ls_quota : Store.LocalStorage :=
  {| Store.ls_summary := Store.Absent; Store.ls_workspace := Store.Absent;
     Store.ls_historyV1 := Store.Absent; Store.ls_historyV2 := Store.Absent;
     Store.ls_full := true |}.

Definition ls_history : Store.LocalStorage :=
  Store.set_historyV2 ls_empty (Store.Parsed [sample_entry]).

Definition ls_workspaceB : Store.LocalStorage :=
  Store.set_workspace ls_empty (Store.Parsed {[ keyB := workspaceB ]}).

Lemma saveAiHistory_bounded_witness :
  exists stored,
    Store.ls_historyV2 (Store.saveAiHistory ls_empty 1000 [sample_entry])
    = Store.Parsed stored
    /\ (length stored <= 300)%nat.
Proof.
  destruct (saveAiHistory_bounded ls_empty 1000 [sample_entry] eq_refl)
    as (stored & H1 & H2 & _).
  exists stored. split; [exact H1 | exact H2].
Defined.

Lemma loadAiHistory_idempotent_witness :
  Store.loadAiHistory (Store.loadAiHistory ls_history 2000).2 2000
  = Store.loadAiHistory ls_history 2000.
Proof. exact (proj1 (loadAiHistory_idempotent ls_history 2000 eq_refl)). Defined.

Lemma saveWorkspace_other_keys_witness :
  (Store.loadWorkspace
     (Store.saveWorkspace ls_workspaceB 1000 (Store.freshWorkspace keyA 1000)) 1000 keyB).1
  = (Store.loadWorkspace ls_workspaceB 1000 keyB).1.
Proof.
  apply (saveWorkspace_other_keys ls_workspaceB 1000 (Store.freshWorkspace keyA 1000) keyB);
    [reflexivity | vm_compute; discriminate].
Defined.

Lemma loadWorkspace_in_window_witness :
  Store.ws_key (Store.loadWorkspace ls_workspaceB 1000 keyB).1 = keyB
  /\ exists u, Store.ws_updatedAt (Store.loadWorkspace ls_workspaceB 1000 keyB).1 = Some u
       /\ u <> 0 /\ 1000 - u <= Store.WORKSPACE_KEEP_MS.
Proof.
  apply (loadWorkspace_in_window ls_workspaceB 1000 keyB);
    [discriminate | vm_compute; lia].
Defined.

Lemma upsertSummary_other_keys_witness :
  exists m',
    Store.ls_summary (Store.upsertSummary ls_old_summary 2000 keyB (js "sum") (js "T1")).1
    = Store.Parsed m'
    /\ m' !! keyA
       = match ({[ keyA := old_summary ]} : gmap (list Z) Store.SummaryRow) !! keyA with
         | Some row => if Store.summaryFresh 2000 row then Some row else None
         | None => None
         end.
Proof.
  apply (upsertSummary_other_keys ls_old_summary 2000 {[ keyA := old_summary ]}
           keyB keyA (js "sum") (js "T1"));
    [reflexivity | reflexivity | vm_compute; discriminate].
Defined.

Lemma full_storage_is_left_alone_witness :
  Store.saveWorkspace ls_quota 1000 (Store.freshWorkspace keyA 1000) = ls_quota
  /\ Store.upsertSummary ls_quota 1000 keyA (js "sum") (js "T1") = (ls_quota, []).
Proof.
  destruct (full_storage_is_left_alone ls_quota 1000 (Store.freshWorkspace keyA 1000)
              [sample_entry] keyA (js "sum") (js "T1") keyA eq_refl) as (H1 & H2 & _).
  split; [exact H1 | exact H2].
Defined.

Lemma shell_loadSummary_prunes_witness :
  exists m',
    Store.ls_summary
      (AppView.loadSummary ls_old_summary (1000 + Store.WORKSPACE_KEEP_MS + 1) keyA).2
    = Store.Parsed m'
    /\ forall k, m' !! k
                 = match ({[ keyA := old_summary ]} : gmap (list Z) Store.SummaryRow) !! k with
                   | Some row =>
                       if AppView.rowValid (1000 + Store.WORKSPACE_KEEP_MS + 1) row
                       then Some row else None
                   | None => None
                   end.
Proof.
  apply (shell_loadSummary_prunes ls_old_summary (1000 + Store.WORKSPACE_KEEP_MS + 1) keyA
           {[ keyA := old_summary ]}); reflexivity.
Defined.

Lemma summary_views_agree_witness :
  (AppView.loadSummary ls_old_summary 2000 keyA).1
  = (Store.loadSummary ls_old_summary 2000 keyA).1.
Proof.
  apply (summary_views_agree ls_old_summary 2000 keyA); [reflexivity |].
  intros m row Hm Hk. injection Hm as <-.
  rewrite lookup_singleton_eq in Hk. injection Hk as <-. eexists. reflexivity.
Defined.

Lemma notified_shell_shows_summary_witness :
  exists ev,
    (Store.upsertSummary ls_empty 1000 keyA (js "sum") (js "T1")).2 = [ev]
    /\ Store.ev_emailKey ev = keyA
    /\ AppView.onSummaryUpdated keyA ev
         (Store.upsertSummary ls_empty 1000 keyA (js "sum") (js "T1")).1 (js "shown")
       = js "sum"
    /\ AppView.onSummaryUpdated keyB ev
         (Store.upsertSummary ls_empty 1000 keyA (js "sum") (js "T1")).1 (js "shown")
       = js "shown".
Proof.
  apply (notified_shell_shows_summary ls_empty 1000 keyA (js "sum") (js "T1") keyB
           (js "shown"));
    [reflexivity | discriminate | discriminate | reflexivity | vm_compute; discriminate].
Defined.

Lemma memoEmailKey_current_witness :
  AppView.memoEmailKey asciiLower
    (Some (Identity.asAny (ctx_from "Bob@Example.com")))
    (Identity.asAny (ctx_from "Eve@Example.com"))
  = Identity.makeEmailKey asciiLower (Identity.asAny (ctx_from "Eve@Example.com")).
Proof.
  apply (memoEmailKey_current asciiLower (Identity.asAny (ctx_from "Bob@Example.com"))
           (Identity.asAny (ctx_from "Eve@Example.com"))).
  vm_compute. reflexivity.
Defined.

(** The row the user added by hand for their own address. *)
Definition rowMe : Recipients.RecipientRow :=
  {| Recipients.email := me; Recipients.name := None;
     Recipients.origins := [originManual];
     Recipients.include := true; Recipients.role := roleBcc |}.

Definition noScan (s : jsstring) : list jsstring := [].

Lemma own_address_only_manual_witness :
  truthy me = true
  /\ In rowMe
       (fold_left (Recipients.applyOp asciiLower noScan (ctx_from "Bob@Example.com") me)
          [Recipients.OpAddManual (js "Me@X.com") roleBcc]
          (Recipients.initRows asciiLower (ctx_from "Bob@Example.com") me))
  /\ Recipients.origins rowMe = [originManual].
Proof.
  assert (Hin : In rowMe
            (fold_left (Recipients.applyOp asciiLower noScan (ctx_from "Bob@Example.com") me)
               [Recipients.OpAddManual (js "Me@X.com") roleBcc]
               (Recipients.initRows asciiLower (ctx_from "Bob@Example.com") me)))
    by (vm_compute; right; right; left; reflexivity).
  split; [reflexivity |]. split; [exact Hin |].
  apply (own_address_only_manual asciiLower noScan (ctx_from "Bob@Example.com") me
           [Recipients.OpAddManual (js "Me@X.com") roleBcc] rowMe);
    [reflexivity | exact Hin | reflexivity].
Defined.

(** Ann, from the To header, as reply-all selects her. *)
Definition rowAnn : Recipients.RecipientRow :=
  {| Recipients.email := js "ann@x.com"; Recipients.name := Some (js "Ann");
     Recipients.origins := [originTo];
     Recipients.include := true; Recipients.role := roleCc |}.

Lemma replyAll_selection_witness :
  In rowAnn
    (Recipients.applyPreset asciiLower rows_received presetReplyAll
       (ctx_from "Bob@Example.com") me)
  /\ isMine me (Recipients.email rowAnn) = false.
Proof.
  assert (Hin : In rowAnn
            (Recipients.applyPreset asciiLower rows_received presetReplyAll
               (ctx_from "Bob@Example.com") me))
    by (vm_compute; right; left; reflexivity).
  split; [exact Hin |].
  exact (proj1 (proj1 (replyAll_selection asciiLower (ctx_from "Bob@Example.com") me
                         rows_received rowAnn Hin) eq_refl)).
Defined.

(** The view of email B after the user typed notes for it. *)
Definition viewB : Lifecycle.View :=
  {| Lifecycle.v_emailKey := keyB; Lifecycle.v_conversationId := Some (js "T1");
     Lifecycle.v_subject := Some (js "Quote"); Lifecycle.v_activeOption := 1%nat;
     Lifecycle.v_resultSlots := [slotB; Lifecycle.emptySlot; Lifecycle.emptySlot];
     Lifecycle.v_resultView := viewHtml;
     Lifecycle.v_tplPickId := []; Lifecycle.v_composeNotes := js "notes for B";
     Lifecycle.v_rewriteText := []; Lifecycle.v_recipientPreset := presetReply;
     Lifecycle.v_replyAll := true; Lifecycle.v_includeBodyEmails := false;
     Lifecycle.v_attachOriginalItem := false; Lifecycle.v_busy := false;
     Lifecycle.v_err := []; Lifecycle.v_notice := Lifecycle.NoticeNone;
     Lifecycle.v_sheet := Lifecycle.SheetNone |}.

Lemma workspace_round_trip_witness :
  map Lifecycle.html
    (Lifecycle.v_resultSlots
       (Lifecycle.w_view
          (Lifecycle.selectEmail keyA (Some (js "T1")) (Some (js "Quote")) 4000
             (Lifecycle.persistWorkspace 3000
                {| Lifecycle.w_view := viewB;
                   Lifecycle.w_storage :=
                     Lifecycle.w_storage
                       (Lifecycle.selectEmail keyB (Some (js "T1")) (Some (js "Quote")) 2000
                          (Lifecycle.persistWorkspace 1000
                             (worldA [slotOld; Lifecycle.emptySlot; Lifecycle.emptySlot])));
                   Lifecycle.w_events :=
                     Lifecycle.w_events
                       (Lifecycle.selectEmail keyB (Some (js "T1")) (Some (js "Quote")) 2000
                          (Lifecycle.persistWorkspace 1000
                             (worldA [slotOld; Lifecycle.emptySlot; Lifecycle.emptySlot])))
                |}))))
  = map Lifecycle.html [slotOld; Lifecycle.emptySlot; Lifecycle.emptySlot].
Proof.
  pose proof (workspace_round_trip
                (worldA [slotOld; Lifecycle.emptySlot; Lifecycle.emptySlot]) viewB
                (Some (js "T1")) (Some (js "Quote")) (Some (js "T1")) (Some (js "Quote"))
                1000 2000 3000 4000) as H.
  cbv zeta in H.
  refine (proj1 (proj2 (proj2 (H _ _ _ _ _ _ _ _ _)))).
  - reflexivity.
  - reflexivity.
  - discriminate.
  - vm_compute. discriminate.
  - vm_compute. discriminate.
  - vm_compute. discriminate.
  - cbn. lia.
  - reflexivity.
  - vm_compute. discriminate.
Defined.

Lemma inflight_never_stuck_witness :
  AutoSummary.a_timer
    (fold_left AutoSummary.step [AutoSummary.Rerender ls_empty 1000 (depsA "Hello")]
       AutoSummary.initial) = Some keyA
  \/ In keyA
       (AutoSummary.a_running
          (fold_left AutoSummary.step [AutoSummary.Rerender ls_empty 1000 (depsA "Hello")]
             AutoSummary.initial)).
Proof.
  apply (inflight_never_stuck [AutoSummary.Rerender ls_empty 1000 (depsA "Hello")] keyA).
  vm_compute. reflexivity.
Defined.

Lemma auto_attempts_throttled_witness :
  spaced
    (AutoSummary.a_attempts
       (fold_left AutoSummary.step
          [ AutoSummary.Rerender ls_empty 1000 (depsA "Hello");
            AutoSummary.TimerFires;
            AutoSummary.RunSettles keyA;
            AutoSummary.Rerender ls_empty 40000 (depsA "Hello!") ]
          AutoSummary.initial))
  /\ forall k t,
       In (k, t)
         (AutoSummary.a_attempts
            (fold_left AutoSummary.step
               [ AutoSummary.Rerender ls_empty 1000 (depsA "Hello");
                 AutoSummary.TimerFires;
                 AutoSummary.RunSettles keyA;
                 AutoSummary.Rerender ls_empty 40000 (depsA "Hello!") ]
               AutoSummary.initial)) ->
       truthy k = true /\ 0 < t.
Proof.
  apply (auto_attempts_throttled
           [ AutoSummary.Rerender ls_empty 1000 (depsA "Hello");
             AutoSummary.TimerFires;
             AutoSummary.RunSettles keyA;
             AutoSummary.Rerender ls_empty 40000 (depsA "Hello!") ]).
  cbn. lia.
Defined.

Lemma primary_key_injective_witness :
  (Identity.makeEmailKey asciiLower (Identity.asAny (ctx_from "Bob@Example.com"))
   = Identity.makeEmailKey asciiLower (Identity.asAny (ctx_from "Eve@Example.com")) ->
   Identity.normStr (Identity.a_conversationId (Identity.asAny (ctx_from "Bob@Example.com")))
   = Identity.normStr (Identity.a_conversationId (Identity.asAny (ctx_from "Eve@Example.com")))
   /\ messagePart (Identity.asAny (ctx_from "Bob@Example.com"))
      = messagePart (Identity.asAny (ctx_from "Eve@Example.com")))
  /\ (Identity.makeEmailKey asciiLower (Identity.asAny (ctx_from "Bob@Example.com"))
      = Identity.makeEmailKey asciiLower (Identity.asAny (ctx_no_ids [])) ->
      Identity.normStr (Identity.a_conversationId (Identity.asAny (ctx_from "Bob@Example.com")))
      = js "nocid").
Proof.
  apply (primary_key_injective asciiLower (Identity.asAny (ctx_from "Bob@Example.com"))
           (Identity.asAny (ctx_from "Eve@Example.com"))
           (Identity.asAny (ctx_no_ids [])));
    try (vm_compute; reflexivity);
    intros x Hx; vm_compute in Hx; destruct Hx as [<- | [<- | []]]; discriminate.
Defined.

Lemma insert_again_replaces_witness :
  Insertion.replaceOrInsertAiBlock host_ok (js "<p>draft</p>")
    (Insertion.wrapAiBlock (js "<p>one</p>"))
  = (true, Insertion.wrapAiBlock (js "<p>one</p>") ++ js "<p>draft</p>")
  /\ Insertion.replaceOrInsertAiBlock host_ok
       (Insertion.replaceOrInsertAiBlock host_ok (js "<p>draft</p>")
          (Insertion.wrapAiBlock (js "<p>one</p>"))).2
       (Insertion.wrapAiBlock (js "<p>two</p>"))
     = (true, Insertion.wrapAiBlock (js "<p>two</p>") ++ js "<p>draft</p>").
Proof.
  refine (insert_again_replaces host_ok (js "<p>draft</p>") (js "<p>one</p>")
            (js "<p>two</p>") eq_refl eq_refl eq_refl (fun _ => eq_refl) _ _);
    vm_compute; reflexivity.
Defined.

(** A host in compose mode and a plain-text signature. *)
Definition mailbox_ok : Draft.Mailbox :=
  {| Draft.mb_item := true; Draft.mb_body := true;
     Draft.mb_get := Some true; Draft.mb_set := Some true;
     Draft.mb_prepend := Some true; Draft.mb_selected := Some true;
     Draft.mb_append := Some true;
     Draft.mb_prependRetry := true; Draft.mb_setRetry := true |}.

Definition sig_text : Draft.Signature :=
  {| Draft.sigMode := Draft.SigText; Draft.sigText := js "Ann <ann@x.com>";
     Draft.sigHtml := []; Draft.sigImgUrl := []; Draft.sigImgDataUrl := [];
     Draft.sigImgMaxW := js "260" |}.

Definition noParse (s : jsstring) : option Z := None.
Definition noDigits (n : Z) : jsstring := [].
Definition cursorAtStart (body data : jsstring) : jsstring := data ++ body.

Lemma insert_text_twice_one_block_witness :
  Insertion.countOcc Insertion.AI_BLOCK_START
    (Draft.insertIntoCurrentDraft noParse noDigits cursorAtStart mailbox_ok sig_text []
       (js "<!--ICC_AI_END--> two")
       (Draft.insertIntoCurrentDraft noParse noDigits cursorAtStart mailbox_ok sig_text []
          (js "one <b>") (js "<p>draft</p>")).2).2
  = 1%nat.
Proof.
  refine (proj1 (proj2 (proj2 (insert_text_twice_one_block noParse noDigits cursorAtStart
                                 mailbox_ok sig_text (js "one <b>")
                                 (js "<!--ICC_AI_END--> two") (js "<p>draft</p>")
                                 eq_refl eq_refl eq_refl eq_refl _ _ eq_refl eq_refl _ _)))).
  - discriminate.
  - right. reflexivity.
  - vm_compute. reflexivity.
  - vm_compute. reflexivity.
Defined.

(** * Sample runs with their effects *)

(** The panel showing message A, with an empty history and no persist
    pending. *)
Definition panelA (slots : list Lifecycle.ResultSlot) : Effects.Panel :=
  {| Effects.p_world := worldA slots; Effects.p_aiHistory := [];
     Effects.p_restoring := false; Effects.p_slotsId := 0%nat;
     Effects.p_timer := None |}.

(** A reply for A started at 1000 fails; the persist timer fired at 1251,
    before the failure. *)
Definition failedA : Effects.Panel :=
  Effects.failedRun noDigits true (viewA [slotOld; slotB; Lifecycle.emptySlot]) reply
    (js "Failed to fetch") 1000 1001 1500 1251
    (panelA [slotOld; slotB; Lifecycle.emptySlot]).

Lemma run_failure_effects_witness :
  Lifecycle.v_err (Lifecycle.w_view (Effects.p_world failedA)) = js "Failed to fetch"
  /\ Lifecycle.v_busy (Lifecycle.w_view (Effects.p_world failedA)) = false
  /\ Effects.p_aiHistory failedA = []
  /\ Lifecycle.v_resultSlots (Lifecycle.w_view (Effects.p_world failedA))
     = [ {| Lifecycle.html := []; Lifecycle.text := []; Lifecycle.ts := 1000 |};
         slotB; Lifecycle.emptySlot ]
  /\ exists data ws,
       Store.ls_workspace (Lifecycle.w_storage (Effects.p_world failedA)) = Store.Parsed data
       /\ data !! keyA = Some ws
       /\ Store.ws_updatedAt ws = Some 1251
       /\ Store.ws_results ws
          = Some (map Effects.storedSlot
                    [ {| Lifecycle.html := []; Lifecycle.text := []; Lifecycle.ts := 1000 |};
                      slotB; Lifecycle.emptySlot ]).
Proof.
  pose proof (run_failure_effects noDigits true (viewA [slotOld; slotB; Lifecycle.emptySlot])
                reply (js "Failed to fetch") 1000 1001 1500 1251
                (panelA [slotOld; slotB; Lifecycle.emptySlot])) as H.
  cbv zeta in H. destruct H as (He & Hb & _ & Hh & _ & _ & _ & _ & Hn).
  destruct (Hn ltac:(discriminate) ltac:(cbn; lia)) as (Hs & _ & Hw).
  split; [exact He |]. split; [exact Hb |]. split; [exact Hh |]. split; [exact Hs |].
  exact (Hw eq_refl eq_refl).
Defined.

(** A reply for A started at 1000 completes at 3000; the timer armed when
    the run started fired at 1251 and the one armed by the result fires at
    3251. *)
Definition completedA : Effects.Panel :=
  Effects.completedRun noSanitize noSanitize noDigits
    (viewA [slotOld; slotB; Lifecycle.emptySlot]) reply resultA
    1000 1001 (Some 1251) 3000 3001 3251
    (panelA [slotOld; slotB; Lifecycle.emptySlot]).

Lemma run_success_effects_witness :
  Lifecycle.v_resultSlots (Lifecycle.w_view (Effects.p_world completedA))
  = [ {| Lifecycle.html := js "<p>A</p>"; Lifecycle.text := js "A"; Lifecycle.ts := 3000 |};
      slotB; Lifecycle.emptySlot ]
  /\ Lifecycle.v_busy (Lifecycle.w_view (Effects.p_world completedA)) = false
  /\ Effects.p_aiHistory completedA
     = [ Effects.historyEntry noDigits 3001
           (Lifecycle.w_view (Effects.p_world completedA)) ]
  /\ Store.h_html
       (Effects.historyEntry noDigits 3001 (Lifecycle.w_view (Effects.p_world completedA)))
     = Some (js "<p>A</p>")
  /\ exists data ws,
       Store.ls_workspace (Lifecycle.w_storage (Effects.p_world completedA))
       = Store.Parsed data
       /\ data !! keyA = Some ws
       /\ Store.ws_updatedAt ws = Some 3251
       /\ Store.ws_results ws
          = Some (map Effects.storedSlot
                    [ {| Lifecycle.html := js "<p>A</p>"; Lifecycle.text := js "A";
                         Lifecycle.ts := 3000 |};
                      slotB; Lifecycle.emptySlot ])
       /\ Store.ws_htmlOut ws = Some (js "<p>A</p>")
       /\ Store.ws_textOut ws = Some (js "A").
Proof.
  pose proof (run_success_effects noSanitize noSanitize noDigits
                (viewA [slotOld; slotB; Lifecycle.emptySlot]) reply resultA
                1000 1001 (Some 1251) 3000 3001 3251
                (panelA [slotOld; slotB; Lifecycle.emptySlot])
                ltac:(discriminate) eq_refl ltac:(cbn; lia)) as H.
  cbv zeta in H.
  destruct H as (Hs & _ & _ & Hb & _ & _ & _ & _ & Hh & Hhtml & _ & _ & _ & Hw).
  split; [exact Hs |]. split; [exact Hb |]. split; [exact Hh |]. split; [exact Hhtml |].
  exact (Hw eq_refl eq_refl).
Defined.
